(** * media-resizer: image geometry, resampling and batch export

    A shallow embedding of the image pipeline of the media-resizer
    application (a React single-page application) together with the
    properties its specification states about it.

    The source file bundles three successive revisions of the [App]
    module.  The last revision (pose-guided framing) is modelled at the
    top level of this file; the revision that resamples progressively is
    modelled in [Module Progressive].

    Conventions of the embedding.
    - JavaScript numbers are modelled as rationals ([Q]), in two readings.
      The definitions at the top level read [+ - * /] as the exact
      operations; they serve the statements that compare a computation
      with itself, such as which rectangle a canvas is drawn from.
      [Module Binary64] rounds the result of every operation to the
      nearest binary64 number, as the machine does; the statements about
      the numbers computed (bounds, aspect ratios, the pixels of a
      preview) are made there.  [Math.min], [Math.max] and [Math.floor]
      are exact in both.  A division by zero, which gives an infinity or
      NaN in JavaScript, gives 0 in [Q]; the statements that divide
      assume the positive sizes that keep it out.  Pixel sizes of images,
      canvases and target sizes are integers ([Z]).
    - The archive under construction is recorded as the calls of
      [zip.file], in order; [JSZip.files] gives the entries the archive
      holds after them.
    - JavaScript strings are modelled as byte strings holding the UTF-8
      encoding of the text.  The only case mapping [toLowerCase] performs
      that the program can observe is the one of the ASCII letters, since
      all the keywords it searches are ASCII or caseless.
    - A canvas is modelled by the single [drawImage] call that painted it.
    - The asynchronous code is sequential ([await] at every call), so it is
      modelled as state passing with exceptions. *)

From Stdlib Require Import ZArith QArith Qround Qminmax Qabs Lqa Lia.
From Stdlib Require Import List String Ascii Bool.
From Stdlib Require Import Permutation.
From Stdlib Require Import Qpower.
From Stdlib Require Floats.
Import ListNotations.

Open Scope string_scope.

(** ** JavaScript string primitives *)

Module JsString.

(** [String.prototype.toLowerCase], on the ASCII letters. *)
Definition lower_ascii (c : ascii) : ascii :=
  let n := nat_of_ascii c in
  if ((65 <=? n) && (n <=? 90))%nat then ascii_of_nat (n + 32) else c.

Fixpoint toLowerCase (s : string) : string :=
  match s with
  | EmptyString => EmptyString
  | String c s' => String (lower_ascii c) (toLowerCase s')
  end.

(** [s.includes(t)]: [t] occurs in [s] at some position. *)
Fixpoint includes (s t : string) : bool :=
  if String.prefix t s then true
  else match s with
       | EmptyString => false
       | String _ s' => includes s' t
       end.

(** [keywords.some(k => s.includes(k))]. *)
Definition some_includes (keywords : list string) (s : string) : bool :=
  existsb (fun keyword => includes s keyword) keywords.

(** [s.lastIndexOf(c)] for a one-character search string: the index of
    the last occurrence, [-1] when there is none. *)
Fixpoint lastIndexOf (s : string) (c : ascii) : Z :=
  match s with
  | EmptyString => (-1)%Z
  | String a s' =>
      let r := lastIndexOf s' c in
      if (0 <=? r)%Z then (r + 1)%Z
      else if Ascii.eqb a c then 0%Z else (-1)%Z
  end.

(** [s.substring(b, e)]: both indices are clamped to [0, length] and
    swapped when [b > e]. *)
Definition substring (s : string) (b e : Z) : string :=
  let len := Z.of_nat (String.length s) in
  let b' := Z.min (Z.max b 0) len in
  let e' := Z.min (Z.max e 0) len in
  let lo := Z.min b' e' in
  let hi := Z.max b' e' in
  String.substring (Z.to_nat lo) (Z.to_nat (hi - lo)) s.

(** [a || b] on strings: the empty string is the only falsy string. *)
Definition or_else (a b : string) : string :=
  match a with
  | EmptyString => b
  | _ => a
  end.

(** [t] occurs in [s]. *)
Definition Occurs (t s : string) : Prop :=
  exists p q, s = p ++ t ++ q.

(** [s] holds no occurrence of the character [c]. *)
Definition Free (c : ascii) (s : string) : Prop :=
  forall p q, s <> p ++ String c q.

End JsString.

(** ** Media profiles and image categories *)

(** The keys of [RESIZE_DEFINITIONS]. *)
Inductive Media : Type :=
| EPARK
| PeakManager.   (* 'ピークマネージャー' *)

(** [IMAGE_TYPES]. *)
Inductive ImageType : Type :=
| Photo          (* '写真' *)
| Staff          (* 'スタッフ' *)
| Logo.          (* 'ロゴ' *)

Module Size.
(** [{ w, h }]: an output size in pixels, and its two sides as numbers. *)
Record t : Type := make { pixelW : Z; pixelH : Z }.
Definition w (s : t) : Q := inject_Z (pixelW s).
Definition h (s : t) : Q := inject_Z (pixelH s).
End Size.

(** The table of output sizes; [None] is the [null] entry. *)
Definition RESIZE_DEFINITIONS (media : Media) (type : ImageType) : option Size.t :=
  match media, type with
  | EPARK, Photo => Some (Size.make 660 440)
  | EPARK, Staff => Some (Size.make 150 174)
  | EPARK, Logo => Some (Size.make 330 220)
  | PeakManager, Photo => Some (Size.make 900 600)
  | PeakManager, Staff => Some (Size.make 400 400)
  | PeakManager, Logo => None
  end.

(** The category of an image, from its file name. *)
Definition detectImageType (fileName : string) : ImageType :=
  let lowerCaseName := JsString.toLowerCase fileName in
  if JsString.includes lowerCaseName "staff" then Staff
  else if JsString.includes lowerCaseName "logo"
          || JsString.includes lowerCaseName "ロゴ" then Logo
  else if JsString.some_includes ["main"; "top"; "shop"; "photo"] lowerCaseName
       then Photo
  else Photo.

(** ** Geometry *)

Open Scope Q_scope.

(** [a > b] and [a < b] on numbers, as booleans. *)
Definition Qgt_bool (a b : Q) : bool := negb (Qle_bool a b).
Definition Qlt_bool (a b : Q) : bool := negb (Qle_bool b a).

(** [Math.floor], as a number. *)
Definition Math_floor (a : Q) : Q := inject_Z (Qfloor a).

Module Rect.
(** [{ x, y, width, height }] in source pixels: the data of a manual crop
    and the region the pose estimate returns. *)
Record t : Type := make { x : Q; y : Q; width : Q; height : Q }.
End Rect.

Definition Url : Type := string.

Module Image.
(** A decoded [HTMLImageElement]. *)
Record t : Type := make { src : Url; pixelWidth : Z; pixelHeight : Z }.
Definition width (i : t) : Q := inject_Z (pixelWidth i).
Definition height (i : t) : Q := inject_Z (pixelHeight i).
End Image.

Module Keypoint.
Record t : Type := make { name : string; x : Q; y : Q; score : Q }.
End Keypoint.

Module Pose.
(** A pose candidate; [keypoints] is [None] when the property is missing. *)
Record t : Type := make { keypoints : option (list Keypoint.t) }.
End Pose.

(** What [detector.reset(); await detector.estimatePoses(image)] does:
    it throws, or it returns a possibly missing array of poses. *)
Inductive Estimate : Type :=
| Threw
| Returned (poses : option (list Pose.t)).

Record Detector : Type := { estimatePoses : Image.t -> Estimate }.

Inductive ModelStatus : Type := ModelLoading | ModelReady | ModelError.

(** The region [getAutoCropRegion] computes once the three keypoints are
    found. *)
Definition autoCropRect (image : Image.t) (targetSize : Size.t)
    (nose leftShoulder rightShoulder : Keypoint.t) : Rect.t :=
  let targetAspectRatio := Size.w targetSize / Size.h targetSize in
  let shoulderCenterX := (Keypoint.x leftShoulder + Keypoint.x rightShoulder) / 2 in
  let shoulderCenterY := (Keypoint.y leftShoulder + Keypoint.y rightShoulder) / 2 in
  let cropAnchorY := Keypoint.y nose * (1#2) + shoulderCenterY * (1#2) in
  let maxCropWidthFromX :=
    2 * Qmin shoulderCenterX (Image.width image - shoulderCenterX) in
  let maxCropHeightFromY :=
    Qmin (cropAnchorY / (55#100)) ((Image.height image - cropAnchorY) / (45#100)) in
  let '(cropWidth, cropHeight) :=
    if Qle_bool (maxCropWidthFromX / targetAspectRatio) maxCropHeightFromY
    then (maxCropWidthFromX, maxCropWidthFromX / targetAspectRatio)
    else (maxCropHeightFromY * targetAspectRatio, maxCropHeightFromY) in
  let cropX := shoulderCenterX - cropWidth * (1#2) in
  let cropY := cropAnchorY - cropHeight * (1#2) in
  let cropX := Qmax 0 (Qmin cropX (Image.width image - cropWidth)) in
  let cropY := Qmax 0 (Qmin cropY (Image.height image - cropHeight)) in
  Rect.make cropX cropY cropWidth cropHeight.

(** The centred cover crop: the [else] branch of [getCroppedCanvas]. *)
Definition coverCropRect (image : Image.t) (targetSize : Size.t) : Rect.t :=
  let imageAspect := Image.width image / Image.height image in
  let targetAspect := Size.w targetSize / Size.h targetSize in
  if Qgt_bool imageAspect targetAspect then
    let sourceHeight := Image.height image in
    let sourceWidth := Image.height image * targetAspect in
    Rect.make ((Image.width image - sourceWidth) / 2) 0 sourceWidth sourceHeight
  else
    let sourceWidth := Image.width image in
    let sourceHeight := Image.width image / targetAspect in
    Rect.make 0 ((Image.height image - sourceHeight) / 2) sourceWidth sourceHeight.

(** The source rectangle [getCroppedCanvas] draws from. *)
Definition sourceRect (image : Image.t) (cropData : option Rect.t)
    (targetSize : Size.t) : Rect.t :=
  match cropData with
  | Some crop => Rect.make (Rect.x crop) (Rect.y crop) (Rect.width crop) (Rect.height crop)
  | None => coverCropRect image targetSize
  end.

(** The invariant the specification gives for the crop rectangle of an
    image and a target size: inside the image, and of the aspect ratio of
    the target within a thousandth. *)
Definition InsideImage (image : Image.t) (r : Rect.t) : Prop :=
  0 <= Rect.x r /\ 0 <= Rect.y r
  /\ Rect.x r + Rect.width r <= Image.width image
  /\ Rect.y r + Rect.height r <= Image.height image.

Definition CropInvariant (image : Image.t) (targetSize : Size.t) (r : Rect.t) : Prop :=
  InsideImage image r
  /\ Qabs (Rect.width r / Rect.height r - Size.w targetSize / Size.h targetSize)
     <= 1 # 1000.

(** ** Canvases *)

Inductive Smoothing : Type := SmoothLow | SmoothMedium | SmoothHigh.

(** Something [drawImage] can read from: a decoded image, or a canvas,
    given by its pixel size, the [imageSmoothingQuality] of its context
    and the one [drawImage] call that painted it (source, source
    rectangle, destination rectangle). *)
Inductive Surface : Type :=
| Img (image : Image.t)
| Canvas (width height : Z) (quality : Smoothing)
         (source : Surface) (from to : Rect.t).

Definition canvasWidth (c : Surface) : Z :=
  match c with
  | Img image => Image.pixelWidth image
  | Canvas width _ _ _ _ _ => width
  end.

Definition canvasHeight (c : Surface) : Z :=
  match c with
  | Img image => Image.pixelHeight image
  | Canvas _ height _ _ _ _ => height
  end.

(** The rectangle of the source a canvas was painted from. *)
Definition drawnFrom (c : Surface) : option Rect.t :=
  match c with
  | Img _ => None
  | Canvas _ _ _ _ from _ => Some from
  end.

(** The result of [canvas.toBlob(resolve, 'image/jpeg', quality)]. *)
Record Blob : Type := { blobCanvas : Surface; blobQuality : Q }.

(** Assigning a number to [canvas.width] or [canvas.height] keeps its
    integer part (the limits a platform puts on canvas sizes are not
    modelled). *)
Definition canvasSide (v : Q) : Z := Z.quot (Qnum v) (Zpos (Qden v)).

(** ** Application state, exceptions and sequencing *)

Inductive Screen : Type :=
| Initializing | Upload | Loading | Edit | Processing | Download.

(** The messages [handleFileErrors] shows. *)
Inductive UiError : Type :=
| ZipLibraryMissing
| ImageProcessingError (fileName : string).

(** The lines written with [console.log] and [console.error]. *)
Inductive LogLine : Type :=
| DetectorNotLoaded
| AutoCropRegionError
| AutoCropStarted (fileName : string)
| AutoCropFallback (fileName : string)
| ImageLoadFailed (url : Url)
| ProcessingFailed (fileName : string).

(** What can be thrown, or reject a promise. *)
Inductive Exn : Type :=
| LoadError (url : Url)      (* [image.onerror = reject] *)
| DetectorError              (* the pose detector threw *)
| TypeError.                 (* a property of [undefined] was read *)

(** The state [handleProcess] reads and writes: React state, the archive
    under construction, the console, and the images the pose detector was
    run on. *)
Record World : Type := mkWorld {
  screen : Screen;
  processingProgress : nat * nat;            (* [{ progress, total }] *)
  zip : list (string * Blob);                (* calls of [zip.file], in order *)
  zipBlob : option (list (string * Blob));
  errors : list UiError;
  console : list LogLine;
  estimated : list Image.t                   (* calls of [estimatePoses] *)
}.

Inductive Outcome (A : Type) : Type :=
| Ok (a : A)
| Raise (e : Exn).
Arguments Ok {A} a.
Arguments Raise {A} e.

Definition Js (A : Type) : Type := World -> Outcome A * World.

Definition ret {A} (a : A) : Js A := fun s => (Ok a, s).

Definition throw {A} (e : Exn) : Js A := fun s => (Raise e, s).

Definition bind {A B} (m : Js A) (k : A -> Js B) : Js B :=
  fun s =>
    match m s with
    | (Ok a, s') => k a s'
    | (Raise e, s') => (Raise e, s')
    end.

(** [try { m } catch (e) { handler e }]: what [m] did to the state before
    it threw stays done. *)
Definition try_catch {A} (m : Js A) (handler : Exn -> Js A) : Js A :=
  fun s =>
    match m s with
    | (Ok a, s') => (Ok a, s')
    | (Raise e, s') => handler e s'
    end.

Declare Scope js_scope.
Delimit Scope js_scope with js.
Notation "x <- m ;; k" := (bind m (fun x => k))
  (at level 61, m at next level, right associativity) : js_scope.
Notation "m ;; k" := (bind m (fun _ => k))
  (at level 61, right associativity) : js_scope.
Open Scope js_scope.

(** [for (const a of l) { body a }]. *)
Fixpoint forEach {A} (l : list A) (body : A -> Js unit) : Js unit :=
  match l with
  | [] => ret tt
  | a :: l' => body a ;; forEach l' body
  end.

Definition modify (f : World -> World) : Js unit := fun s => (Ok tt, f s).

Definition setScreen (v : Screen) : Js unit :=
  modify (fun s => mkWorld v (processingProgress s) (zip s) (zipBlob s)
                           (errors s) (console s) (estimated s)).

Definition setProcessingProgress (f : nat * nat -> nat * nat) : Js unit :=
  modify (fun s => mkWorld (screen s) (f (processingProgress s)) (zip s) (zipBlob s)
                           (errors s) (console s) (estimated s)).

Definition zip_file (name : string) (blob : Blob) : Js unit :=
  modify (fun s => mkWorld (screen s) (processingProgress s) (zip s ++ [(name, blob)])
                           (zipBlob s) (errors s) (console s) (estimated s)).

Definition setZipBlob (v : option (list (string * Blob))) : Js unit :=
  modify (fun s => mkWorld (screen s) (processingProgress s) (zip s) v
                           (errors s) (console s) (estimated s)).

(** [handleFileErrors]: the messages replace the ones shown (the timer
    that clears them later is not modelled). *)
Definition handleFileErrors (newErrors : list UiError) : Js unit :=
  modify (fun s => mkWorld (screen s) (processingProgress s) (zip s) (zipBlob s)
                           newErrors (console s) (estimated s)).

Definition console_log (line : LogLine) : Js unit :=
  modify (fun s => mkWorld (screen s) (processingProgress s) (zip s) (zipBlob s)
                           (errors s) (console s ++ [line]) (estimated s)).

(** [detector.reset(); await detector.estimatePoses(image)]. *)
Definition runDetector (d : Detector) (image : Image.t) : Js (option (list Pose.t)) :=
  modify (fun s => mkWorld (screen s) (processingProgress s) (zip s) (zipBlob s)
                           (errors s) (console s) (estimated s ++ [image])) ;;
  match estimatePoses d image with
  | Threw => throw DetectorError
  | Returned poses => ret poses
  end.

(** [keypoints.find(k => k.name === name)]. *)
Definition findKeypoint (keypoints : list Keypoint.t) (name : string) : option Keypoint.t :=
  find (fun k => String.eqb (Keypoint.name k) name) keypoints.

(** ** The pose-guided crop region *)

Definition getAutoCropRegion (image : Image.t) (targetSize : Size.t)
    (detector : option Detector) : Js (option Rect.t) :=
  match detector with
  | None => console_log DetectorNotLoaded ;; ret None
  | Some d =>
      try_catch
        (poses <- runDetector d image ;;
         match poses with
         | Some (pose :: _) =>
             keypoints <- match Pose.keypoints pose with
                          | Some ks => ret ks
                          | None => throw TypeError
                          end ;;
             let nose := findKeypoint keypoints "nose" in
             let leftShoulder := findKeypoint keypoints "left_shoulder" in
             let rightShoulder := findKeypoint keypoints "right_shoulder" in
             match nose, leftShoulder, rightShoulder with
             | Some nose, Some leftShoulder, Some rightShoulder =>
                 ret (Some (autoCropRect image targetSize nose leftShoulder rightShoulder))
             | _, _, _ => ret None
             end
         | _ => ret None
         end)
        (fun error => console_log AutoCropRegionError ;; ret None)
  end.

(** The estimates [getAutoCropRegion] gets no region from: the detector
    threw, returned no array or an empty one, or the first pose has no
    keypoint array or lacks one of the three keypoints. *)
Definition PoseUnusable (e : Estimate) : Prop :=
  e = Threw
  \/ e = Returned None
  \/ e = Returned (Some [])
  \/ exists pose poses,
       e = Returned (Some (pose :: poses))
       /\ (Pose.keypoints pose = None
           \/ exists ks,
                Pose.keypoints pose = Some ks
                /\ (findKeypoint ks "nose" = None
                    \/ findKeypoint ks "left_shoulder" = None
                    \/ findKeypoint ks "right_shoulder" = None)).

(** ** The application: cropping and batch export *)

(** An entry of the [images] state. *)
Record ImageItem : Type := mkItem {
  fileName : string;                 (* [image.file.name] *)
  originalUrl : Url;
  type : ImageType;
  cropData : option Rect.t           (* [null] until a manual crop is saved *)
}.

(** The name of the archive entry of a file. *)
Definition zipEntryName (name : string) : string :=
  let fileNameWithoutExt :=
    JsString.or_else
      (JsString.substring name 0 (JsString.lastIndexOf name "."%char)) name in
  fileNameWithoutExt ++ ".jpg".

(** The destination rectangle [0, 0, targetSize.w, targetSize.h]. *)
Definition wholeTarget (targetSize : Size.t) : Rect.t :=
  Rect.make 0 0 (Size.w targetSize) (Size.h targetSize).

(** The outcomes of the specification for one image of a batch: an archive
    entry, nothing because the profile excludes the category, or the
    exception the [catch] clause reports. *)
Inductive ProcessingOutcome : Type :=
| Success (entry : string * Blob)
| Skipped
| Failed (e : Exn).

Definition freshWorld : World := mkWorld Processing (0%nat, 0%nat) [] None [] [] [].

Section App.

(** The image decoder of the browser: [None] when [onerror] fires. *)
Variable decode : Url -> option Image.t.
(** Whether [window.JSZip] is there. *)
Variable jszip : bool.
(** The [detector] and [modelStatus] states. *)
Variable detector : option Detector.
Variable modelStatus : ModelStatus.

(** [new Image()], [image.src = imageUrl], then [onload] or [onerror]
    of a promise that rejects on error. *)
Definition loadImage (imageUrl : Url) : Js Image.t :=
  match decode imageUrl with
  | Some image => ret image
  | None => throw (LoadError imageUrl)
  end.

Definition getCroppedCanvas (imageUrl : Url) (cropData : option Rect.t)
    (targetSize : Size.t) : Js Surface :=
  image <- loadImage imageUrl ;;
  ret (Canvas (canvasSide (Size.w targetSize)) (canvasSide (Size.h targetSize))
              SmoothLow (Img image)
              (sourceRect image cropData targetSize) (wholeTarget targetSize)).

Definition getAutoCroppedCanvas (imageUrl : Url) (targetSize : Size.t)
    (detector : option Detector) : Js (option Surface) :=
  match decode imageUrl with
  | Some image =>
      region <- getAutoCropRegion image targetSize detector ;;
      match region with
      | Some region =>
          ret (Some (Canvas (canvasSide (Size.w targetSize))
                            (canvasSide (Size.h targetSize))
                            SmoothLow (Img image)
                            (Rect.make (Rect.x region) (Rect.y region)
                                       (Rect.width region) (Rect.height region))
                            (wholeTarget targetSize)))
      | None => ret None
      end
  | None => console_log (ImageLoadFailed imageUrl) ;; ret None
  end.

(** [image.type === 'スタッフ' && !image.cropData && detector &&
    modelStatus === 'ready']. *)
Definition wantsAutoCrop (image : ImageItem) : bool :=
  match type image, cropData image, detector, modelStatus with
  | Staff, None, Some _, ModelReady => true
  | _, _, _, _ => false
  end.

(** The canvas [handleProcess] exports for an image: the first
    statement of its [try] block. *)
Definition croppedCanvasFor (image : ImageItem) (targetSize : Size.t) : Js Surface :=
  if wantsAutoCrop image then
    console_log (AutoCropStarted (fileName image)) ;;
    canvas <- getAutoCroppedCanvas (originalUrl image) targetSize detector ;;
    match canvas with
    | Some canvas => ret canvas
    | None =>
        console_log (AutoCropFallback (fileName image)) ;;
        getCroppedCanvas (originalUrl image) None targetSize
    end
  else
    getCroppedCanvas (originalUrl image) (cropData image) targetSize.

Definition incrementProgress : Js unit :=
  setProcessingProgress (fun p => (S (fst p), snd p)).

(** The body of the loop of [handleProcess]. *)
Definition processImage (media : Media) (quality : Q) (image : ImageItem) : Js unit :=
  match RESIZE_DEFINITIONS media (type image) with
  | None => incrementProgress
  | Some targetSize =>
      try_catch
        (canvas <- croppedCanvasFor image targetSize ;;
         let blob := Build_Blob canvas quality in
         zip_file (zipEntryName (fileName image)) blob)
        (fun err =>
           console_log (ProcessingFailed (fileName image)) ;;
           handleFileErrors [ImageProcessingError (fileName image)]) ;;
      incrementProgress
  end.

Definition handleProcess (imagesToProcess : list ImageItem) (media : Media)
    (quality : Q) : Js unit :=
  if negb jszip then handleFileErrors [ZipLibraryMissing]
  else
    setScreen Processing ;;
    setProcessingProgress (fun _ => (0%nat, List.length imagesToProcess)) ;;
    (* [const zip = new window.JSZip()] *)
    modify (fun s => mkWorld (screen s) (processingProgress s) [] (zipBlob s)
                             (errors s) (console s) (estimated s)) ;;
    forEach imagesToProcess (processImage media quality) ;;
    (* [await zip.generateAsync({ type: 'blob' })] *)
    zipFile <- (fun s => (Ok (zip s), s)) ;;
    setZipBlob (Some zipFile) ;;
    setScreen Download.

(** The outcome of one image, read off its run from a fresh state. *)
Definition outcomeOf (media : Media) (quality : Q) (image : ImageItem)
    : ProcessingOutcome :=
  match RESIZE_DEFINITIONS media (type image) with
  | None => Skipped
  | Some targetSize =>
      match fst (croppedCanvasFor image targetSize freshWorld) with
      | Ok canvas => Success (zipEntryName (fileName image), Build_Blob canvas quality)
      | Raise e => Failed e
      end
  end.

Definition entriesOf (o : ProcessingOutcome) : list (string * Blob) :=
  match o with
  | Success entry => [entry]
  | Skipped | Failed _ => []
  end.

Definition isSuccess (o : ProcessingOutcome) : bool :=
  match o with
  | Success _ => true
  | Skipped | Failed _ => false
  end.

End App.

(** ** The revision with progressive resampling *)

Module Progressive.

(** The variables of the halving loop. *)
Record LoopState : Type := mkLoop {
  currentCanvas : Surface;
  currentWidth : Q;
  currentHeight : Q
}.

(** One turn of the [while] loop of [getCroppedCanvas]: [None] when the
    loop is left, by its condition or by [break]. *)
Definition halveStep (targetSize : Size.t) (s : LoopState) : option LoopState :=
  if Qgt_bool (currentWidth s) (Size.w targetSize * 2)
     && Qgt_bool (currentHeight s) (Size.h targetSize * 2)
  then
    let halfWidth := Math_floor (currentWidth s / 2) in
    let halfHeight := Math_floor (currentHeight s / 2) in
    if Qlt_bool halfWidth (Size.w targetSize * (3#2)) then None
    else
      let tempCanvas :=
        Canvas (canvasSide halfWidth) (canvasSide halfHeight) SmoothMedium
               (currentCanvas s)
               (Rect.make 0 0 (currentWidth s) (currentHeight s))
               (Rect.make 0 0 halfWidth halfHeight) in
      Some (mkLoop tempCanvas halfWidth halfHeight)
  else None.

(** The [while] loop, run for at most [fuel] turns: [None] when the
    loop is still running after them. *)
Fixpoint halving (fuel : nat) (targetSize : Size.t) (s : LoopState) : option LoopState :=
  match fuel with
  | O => None
  | S fuel' =>
      match halveStep targetSize s with
      | None => Some s
      | Some s' => halving fuel' targetSize s'
      end
  end.

(** The successive states of the loop, the first one included. *)
Fixpoint trace (fuel : nat) (targetSize : Size.t) (s : LoopState) : list LoopState :=
  match fuel with
  | O => [s]
  | S fuel' =>
      match halveStep targetSize s with
      | None => [s]
      | Some s' => s :: trace fuel' targetSize s'
      end
  end.

(** The sizes of a state are the sizes of a rectangle of the target
    aspect ratio, each possibly rounded down. *)
Definition KeepsAspect (targetSize : Size.t) (s : LoopState) : Prop :=
  exists cw ch : Q,
    ch * Size.w targetSize == cw * Size.h targetSize
    /\ (currentWidth s == cw \/ currentWidth s == Math_floor cw)
    /\ (currentHeight s == ch \/ currentHeight s == Math_floor ch).

(** The states the loop reaches by halving: each belongs to a
    [tempCanvas]. *)
Definition intermediates (fuel : nat) (targetSize : Size.t) (s : LoopState)
    : list LoopState :=
  tl (trace fuel targetSize s).

Section App.

Variable decode : Url -> option Image.t.

(** [None] when the loop does not end within [fuel] turns; else the
    canvas the promise resolves to, or the rejection. *)
Definition getCroppedCanvas (fuel : nat) (imageUrl : Url)
    (cropData : option Rect.t) (targetSize : Size.t) : option (Outcome Surface) :=
  match decode imageUrl with
  | None => Some (Raise (LoadError imageUrl))
  | Some image =>
      let source := sourceRect image cropData targetSize in
      let sourceWidth := Rect.width source in
      let sourceHeight := Rect.height source in
      let cropCanvas :=
        Canvas (canvasSide sourceWidth) (canvasSide sourceHeight) SmoothLow
               (Img image) source (Rect.make 0 0 sourceWidth sourceHeight) in
      match halving fuel targetSize (mkLoop cropCanvas sourceWidth sourceHeight) with
      | None => None
      | Some last =>
          let finalCanvas :=
            Canvas (canvasSide (Size.w targetSize)) (canvasSide (Size.h targetSize))
                   SmoothHigh (currentCanvas last)
                   (Rect.make 0 0 (currentWidth last) (currentHeight last))
                   (wholeTarget targetSize) in
          Some (Ok finalCanvas)
      end
  end.

End App.

End Progressive.

(** ** Sample data *)

Module Sample.

(** A decoder for which one address is broken and every other address
    holds a picture of 1200 by 800 pixels. *)
Definition decode (url : Url) : option Image.t :=
  if String.eqb url "blob:broken" then None else Some (Image.make url 1200 800).

Definition picture (url : Url) : Image.t := Image.make url 1200 800.

Definition nose : Keypoint.t := Keypoint.make "nose" 150 100 (9#10).
Definition leftShoulder : Keypoint.t := Keypoint.make "left_shoulder" 100 150 (8#10).
Definition rightShoulder : Keypoint.t := Keypoint.make "right_shoulder" 200 150 (8#10).
Definition leftEye : Keypoint.t := Keypoint.make "left_eye" 140 90 (7#10).

(** A detector that sees a person in every picture. *)
Definition personDetector : Detector :=
  {| estimatePoses := fun _ =>
       Returned (Some [Pose.make (Some [nose; leftEye; leftShoulder; rightShoulder])]) |}.

(** A detector that finds the face but not the shoulders. *)
Definition faceDetector : Detector :=
  {| estimatePoses := fun _ => Returned (Some [Pose.make (Some [nose; leftEye])]) |}.

Definition shop : ImageItem := mkItem "shop_top.png" "blob:shop" Photo None.
Definition broken : ImageItem := mkItem "staff_01.jpg" "blob:broken" Staff None.
Definition staff : ImageItem := mkItem "staff_02.jpg" "blob:staff" Staff None.
Definition logo : ImageItem := mkItem "logo.png" "blob:logo" Logo None.

(** A portrait crop saved by hand under the profile [EPARK]. *)
Definition portrait : Rect.t := Rect.make 0 0 150 174.
Definition cropped : ImageItem :=
  mkItem "staff_03.jpg" "blob:cropped" Staff (Some portrait).

Definition quality : Q := 9#10.

End Sample.

(** The rectangle of a canvas that was painted. *)
Definition drawnTo (c : Surface) : option Rect.t :=
  match c with
  | Img _ => None
  | Canvas _ _ _ _ _ to => Some to
  end.

(** The region the pose estimate returns for an image: it does not
    depend on the state it is computed in. *)
Definition autoRegion (image : Image.t) (targetSize : Size.t)
    (detector : option Detector) : option Rect.t :=
  match fst (getAutoCropRegion image targetSize detector freshWorld) with
  | Ok region => region
  | Raise _ => None
  end.

(** The rectangle the last revision takes an image from: the manual
    crop, else the pose estimate when [auto] says it is tried and it
    gives a region, else the centred cover crop. *)
Definition chosenRect (image : Image.t) (targetSize : Size.t)
    (cropData : option Rect.t) (auto : bool) (detector : option Detector) : Rect.t :=
  match cropData with
  | Some crop => crop
  | None =>
      if auto then
        match autoRegion image targetSize detector with
        | Some region => region
        | None => coverCropRect image targetSize
        end
      else coverCropRect image targetSize
  end.

(** Whether the preview tries the pose estimate:
    [imageType === 'スタッフ' && detector]. *)
Definition previewTriesPose (imageType : ImageType) (detector : option Detector)
    : bool :=
  match imageType with
  | Staff => match detector with
             | Some _ => true
             | None => false
             end
  | _ => false
  end.

(** ** Binary64 arithmetic *)

(** The definitions above read the arithmetic of the source over the
    rationals, which serves the statements that compare a computation
    with itself.  A JavaScript number is a binary64 floating-point
    number, and every arithmetic operation rounds its exact result to
    the nearest one, ties to the even significand.  This module is that
    arithmetic, for the statements about the numbers themselves. *)
Module Binary64.

(** The integer nearest to a rational, ties to the even one. *)
Definition nearestEven (s : Q) : Z :=
  let f := Qfloor s in
  match Qcompare (s - inject_Z f) (1 # 2) with
  | Lt => f
  | Gt => (f + 1)%Z
  | Eq => if Z.even f then f else (f + 1)%Z
  end.

(** The exponent [e] of the last place of a rational other than zero:
    [2^52 <= |q| / 2^e < 2^53]. *)
Definition exponent (q : Q) : Z :=
  let e := (Z.log2 (Z.abs (Qnum q)) - Z.log2 (Zpos (Qden q)) - 52)%Z in
  if Qle_bool (2 ^ 52) (Qabs q * 2 ^ (- e)) then e else (e - 1)%Z.

(** Rounding to 53 significant bits.  The exponent is not bounded: the
    result is the binary64 number nearest to [q] as long as it lies in
    the normal range, from [2^-1022] to below [2^1024] in size, which
    is where the pixel quantities of this program are. *)
Definition fl (q : Q) : Q :=
  let q := Qred q in
  if Qeq_bool q 0 then 0
  else let e := exponent q in
       Qred (inject_Z (nearestEven (q * 2 ^ (- e))) * 2 ^ e).

(** [a + b], [a - b], [a * b] and [a / b] on numbers. *)
Definition add (a b : Q) : Q := fl (a + b).
Definition sub (a b : Q) : Q := fl (a - b).
Definition mul (a b : Q) : Q := fl (a * b).
Definition div (a b : Q) : Q := fl (a / b).

(** The number a decimal literal of the source denotes. *)
Definition literal (q : Q) : Q := fl q.

(** The unit roundoff [2^-53], and the tolerance [2^-51] of the
    statements below. *)
Definition u : Q := 1 # 9007199254740992.
Definition eps : Q := 1 # 2251799813685248.

(** The value of a binary64 number of the machine, when it is finite. *)
Definition ofFloat (f : PrimFloat.float) : option Q :=
  match FloatOps.Prim2SF f with
  | SpecFloat.S754_zero _ => Some 0
  | SpecFloat.S754_finite s m e =>
      Some (Qred ((if s then - (1) else 1) * inject_Z (Zpos m) * 2 ^ e))
  | _ => None
  end.

(** The centred cover crop: the [else] branch of [getCroppedCanvas]. *)
Definition coverCropRect (image : Image.t) (targetSize : Size.t) : Rect.t :=
  let imageAspect := div (Image.width image) (Image.height image) in
  let targetAspect := div (Size.w targetSize) (Size.h targetSize) in
  if Qgt_bool imageAspect targetAspect then
    let sourceHeight := Image.height image in
    let sourceWidth := mul (Image.height image) targetAspect in
    Rect.make (div (sub (Image.width image) sourceWidth) 2) 0 sourceWidth sourceHeight
  else
    let sourceWidth := Image.width image in
    let sourceHeight := div (Image.width image) targetAspect in
    Rect.make 0 (div (sub (Image.height image) sourceHeight) 2) sourceWidth sourceHeight.

(** The source rectangle [getCroppedCanvas] draws from. *)
Definition sourceRect (image : Image.t) (cropData : option Rect.t)
    (targetSize : Size.t) : Rect.t :=
  match cropData with
  | Some crop => Rect.make (Rect.x crop) (Rect.y crop) (Rect.width crop) (Rect.height crop)
  | None => coverCropRect image targetSize
  end.

(** The region [getAutoCropRegion] computes once the three keypoints are
    found. *)
Definition autoCropRect (image : Image.t) (targetSize : Size.t)
    (nose leftShoulder rightShoulder : Keypoint.t) : Rect.t :=
  let targetAspectRatio := div (Size.w targetSize) (Size.h targetSize) in
  let shoulderCenterX :=
    div (add (Keypoint.x leftShoulder) (Keypoint.x rightShoulder)) 2 in
  let shoulderCenterY :=
    div (add (Keypoint.y leftShoulder) (Keypoint.y rightShoulder)) 2 in
  let cropAnchorY :=
    add (mul (Keypoint.y nose) (literal (1 # 2)))
        (mul shoulderCenterY (literal (1 # 2))) in
  let maxCropWidthFromX :=
    mul 2 (Qmin shoulderCenterX (sub (Image.width image) shoulderCenterX)) in
  let maxCropHeightFromY :=
    Qmin (div cropAnchorY (literal (55 # 100)))
         (div (sub (Image.height image) cropAnchorY) (literal (45 # 100))) in
  let '(cropWidth, cropHeight) :=
    if Qle_bool (div maxCropWidthFromX targetAspectRatio) maxCropHeightFromY
    then (maxCropWidthFromX, div maxCropWidthFromX targetAspectRatio)
    else (mul maxCropHeightFromY targetAspectRatio, maxCropHeightFromY) in
  let cropX := sub shoulderCenterX (mul cropWidth (literal (1 # 2))) in
  let cropY := sub cropAnchorY (mul cropHeight (literal (1 # 2))) in
  let cropX := Qmax 0 (Qmin cropX (sub (Image.width image) cropWidth)) in
  let cropY := Qmax 0 (Qmin cropY (sub (Image.height image) cropHeight)) in
  Rect.make cropX cropY cropWidth cropHeight.

Definition getAutoCropRegion (image : Image.t) (targetSize : Size.t)
    (detector : option Detector) : Js (option Rect.t) :=
  match detector with
  | None => console_log DetectorNotLoaded ;; ret None
  | Some d =>
      try_catch
        (poses <- runDetector d image ;;
         match poses with
         | Some (pose :: _) =>
             keypoints <- match Pose.keypoints pose with
                          | Some ks => ret ks
                          | None => throw TypeError
                          end ;;
             let nose := findKeypoint keypoints "nose" in
             let leftShoulder := findKeypoint keypoints "left_shoulder" in
             let rightShoulder := findKeypoint keypoints "right_shoulder" in
             match nose, leftShoulder, rightShoulder with
             | Some nose, Some leftShoulder, Some rightShoulder =>
                 ret (Some (autoCropRect image targetSize nose leftShoulder rightShoulder))
             | _, _, _ => ret None
             end
         | _ => ret None
         end)
        (fun error => console_log AutoCropRegionError ;; ret None)
  end.

(** A coordinate as a pose detector gives it: zero, or of a size from
    [2^-149], the least binary32 number, to below [2^32].  With such
    coordinates, and image and target sizes below [2^32], the operations
    of the crop computations stay in the normal range of binary64. *)
Definition Coordinate (q : Q) : Prop :=
  q == 0 \/ (2 ^ (-149) <= Qabs q /\ Qabs q < 2 ^ 32).

Definition InRange (k : Keypoint.t) : Prop :=
  Coordinate (Keypoint.x k) /\ Coordinate (Keypoint.y k).

(** Inside the image, up to a part [tol] of its sides. *)
Definition InsideUpTo (tol : Q) (image : Image.t) (r : Rect.t) : Prop :=
  - (tol * Image.width image) <= Rect.x r
  /\ - (tol * Image.height image) <= Rect.y r
  /\ Rect.x r + Rect.width r <= Image.width image * (1 + tol)
  /\ Rect.y r + Rect.height r <= Image.height image * (1 + tol).

End Binary64.

(** ** The same computations on the binary64 numbers of the machine *)

(** The three computations above written on the primitive floating-point
    numbers of Rocq, which are the binary64 numbers of the processor:
    they are run to check [Binary64] on examples.  Each returns the list
    of the numbers it computes. *)
Module Machine.
Import PrimFloat.
Local Open Scope float_scope.

(** [Math.min] and [Math.max] on numbers that are not NaN. *)
Definition Math_min (a b : float) : float := if ltb b a then b else a.
Definition Math_max (a b : float) : float := if ltb a b then b else a.

(** [sourceX], [sourceY], [sourceWidth] and [sourceHeight] of the
    centred cover crop. *)
Definition coverCropRect (width height w h : float) : list float :=
  let imageAspect := width / height in
  let targetAspect := w / h in
  if ltb targetAspect imageAspect then
    let sourceHeight := height in
    let sourceWidth := height * targetAspect in
    [(width - sourceWidth) / 2; 0; sourceWidth; sourceHeight]
  else
    let sourceWidth := width in
    let sourceHeight := width / targetAspect in
    [0; (height - sourceHeight) / 2; sourceWidth; sourceHeight].

(** [x], [y], [width] and [height] of the pose-guided region. *)
#[warnings="-inexact-float"]
Definition autoCropRect (width height w h : float)
    (noseY leftX leftY rightX rightY : float) : list float :=
  let targetAspectRatio := w / h in
  let shoulderCenterX := (leftX + rightX) / 2 in
  let shoulderCenterY := (leftY + rightY) / 2 in
  let cropAnchorY := noseY * 0.5 + shoulderCenterY * 0.5 in
  let maxCropWidthFromX := 2 * Math_min shoulderCenterX (width - shoulderCenterX) in
  let maxCropHeightFromY :=
    Math_min (cropAnchorY / 0.55) ((height - cropAnchorY) / 0.45) in
  let '(cropWidth, cropHeight) :=
    if leb (maxCropWidthFromX / targetAspectRatio) maxCropHeightFromY
    then (maxCropWidthFromX, maxCropWidthFromX / targetAspectRatio)
    else (maxCropHeightFromY * targetAspectRatio, maxCropHeightFromY) in
  let cropX := shoulderCenterX - cropWidth * 0.5 in
  let cropY := cropAnchorY - cropHeight * 0.5 in
  let cropX := Math_max 0 (Math_min cropX (width - cropWidth)) in
  let cropY := Math_max 0 (Math_min cropY (height - cropHeight)) in
  [cropX; cropY; cropWidth; cropHeight].

(** [width] and [height] of the scaled preview of the first revision. *)
Definition thumbnailSize (width height : float) : list float :=
  if ltb height width then
    if ltb 300 width then [300; height * (300 / width)] else [width; height]
  else
    if ltb 300 height then [width * (300 / height); 300] else [width; height].

End Machine.

(** The numbers of a rectangle, and of a pair, as [Machine] lists them. *)
Definition rectNumbers (r : Rect.t) : list (option Q) :=
  [Some (Rect.x r); Some (Rect.y r); Some (Rect.width r); Some (Rect.height r)].

Definition pairNumbers (p : Q * Q) : list (option Q) := [Some (fst p); Some (snd p)].

(** ** Previews *)

(** What goes into [thumbnailUrl]: an address made by
    [URL.createObjectURL], or the result of
    [canvas.toDataURL('image/jpeg', quality)] for a canvas that was
    filled with a colour, or not, before it was painted. *)
Inductive Thumbnail : Type :=
| ObjectUrl (url : Url)
| DataUrl (background : option string) (canvas : Surface) (quality : Q).

(** The rectangle holding a whole image: what [drawImage] reads when it
    gets no source rectangle. *)
Definition wholeImage (image : Image.t) : Rect.t :=
  Rect.make 0 0 (Image.width image) (Image.height image).

Module Thumbnails.

(** The size [createThumbnail] gives the preview of an image, as
    binary64 computes it. *)
Definition thumbnailSize (img : Image.t) : Q * Q :=
  let MAX_WIDTH := 300 in
  let MAX_HEIGHT := 300 in
  let width := Image.width img in
  let height := Image.height img in
  if Qgt_bool width height then
    if Qgt_bool width MAX_WIDTH
    then (MAX_WIDTH, Binary64.mul height (Binary64.div MAX_WIDTH width))
    else (width, height)
  else
    if Qgt_bool height MAX_HEIGHT
    then (Binary64.mul width (Binary64.div MAX_HEIGHT height), MAX_HEIGHT)
    else (width, height).

(** The scaled preview of the first revision.  The promise has no
    [onerror] handler: [None] is the promise that stays pending when the
    image does not load. *)
Definition createThumbnail (decode : Url -> option Image.t) (imageUrl : Url)
    : option Thumbnail :=
  match decode imageUrl with
  | None => None
  | Some img =>
      let '(width, height) := thumbnailSize img in
      Some (DataUrl None
              (Canvas (canvasSide width) (canvasSide height) SmoothLow (Img img)
                      (wholeImage img) (Rect.make 0 0 width height))
              (8 # 10))
  end.

(** The preview of a manual crop, of the size of the crop. *)
Definition generateCroppedPreview (decode : Url -> option Image.t) (imageUrl : Url)
    (cropData : Rect.t) : Outcome Thumbnail :=
  match decode imageUrl with
  | None => Raise (LoadError imageUrl)
  | Some image =>
      Ok (DataUrl None
            (Canvas (canvasSide (Rect.width cropData)) (canvasSide (Rect.height cropData))
                    SmoothLow (Img image)
                    (Rect.make (Rect.x cropData) (Rect.y cropData)
                               (Rect.width cropData) (Rect.height cropData))
                    (Rect.make 0 0 (Rect.width cropData) (Rect.height cropData)))
            (9 # 10))
  end.

(** The rectangle of the square preview in which [createFinalThumbnail]
    paints the cropped image. *)
Definition letterboxRect (targetSize : Size.t) : Rect.t :=
  let THUMB_SIZE := 240 in
  let targetAspect := Size.w targetSize / Size.h targetSize in
  let '(destWidth, destHeight) :=
    if Qle_bool 1 targetAspect
    then (THUMB_SIZE, THUMB_SIZE / targetAspect)
    else (THUMB_SIZE * targetAspect, THUMB_SIZE) in
  let destX := (THUMB_SIZE - destWidth) / 2 in
  let destY := (THUMB_SIZE - destHeight) / 2 in
  Rect.make destX destY destWidth destHeight.

(** The square preview on white of the first two revisions: the centred
    cover crop, painted with margins. *)
Definition createFinalThumbnail (decode : Url -> option Image.t) (imageUrl : Url)
    (targetSize : Size.t) : Outcome Thumbnail :=
  match decode imageUrl with
  | None => Raise (LoadError imageUrl)
  | Some image =>
      Ok (DataUrl (Some "white")
            (Canvas (canvasSide 240) (canvasSide 240) SmoothLow (Img image)
                    (coverCropRect image targetSize) (letterboxRect targetSize))
            (85 # 100))
  end.

(** The size of the preview canvas of [createOrUpdateThumbnail] for a
    source rectangle. *)
Definition previewSize (source : Rect.t) : Q * Q :=
  let THUMB_SIZE := 200 in
  let previewAspect := Rect.width source / Rect.height source in
  if Qle_bool 1 previewAspect
  then (THUMB_SIZE, THUMB_SIZE / previewAspect)
  else (THUMB_SIZE * previewAspect, THUMB_SIZE).

(** The preview of the last revision: manual crop first, then the pose
    estimate for a staff picture when there is a detector, then the
    centred cover crop. *)
Definition createOrUpdateThumbnail (decode : Url -> option Image.t) (imageUrl : Url)
    (targetSize : Size.t) (cropData : option Rect.t) (imageType : ImageType)
    (detector : option Detector) : Js Thumbnail :=
  match decode imageUrl with
  | None => throw (LoadError imageUrl)
  | Some image =>
      chosen <-
        match cropData with
        | Some crop =>
            ret (Some (Rect.make (Rect.x crop) (Rect.y crop)
                                 (Rect.width crop) (Rect.height crop)))
        | None =>
            match imageType, detector with
            | Staff, Some _ =>
                autoCropRegion <- getAutoCropRegion image targetSize detector ;;
                match autoCropRegion with
                | Some region =>
                    ret (Some (Rect.make (Rect.x region) (Rect.y region)
                                         (Rect.width region) (Rect.height region)))
                | None => ret None
                end
            | _, _ => ret None
            end
        end ;;
      let source :=
        match chosen with
        | Some r => r
        | None => coverCropRect image targetSize
        end in
      let '(previewWidth, previewHeight) := previewSize source in
      ret (DataUrl None
             (Canvas (canvasSide previewWidth) (canvasSide previewHeight) SmoothLow
                     (Img image) source (Rect.make 0 0 previewWidth previewHeight))
             (85 # 100))
  end.

End Thumbnails.

(** ** The edit screen of the last revision *)

Module Card.
(** An entry of the [images] state with its identifier and its preview,
    around the fields [handleProcess] reads. *)
Record t : Type := make { id : string; item : ImageItem; thumbnailUrl : Thumbnail }.
End Card.

Module EditScreen.

(** [{ ...img, type, cropData: null, thumbnailUrl: newThumbnailUrl }]. *)
Definition withType (type : ImageType) (thumbnail : Thumbnail) (img : Card.t) : Card.t :=
  Card.make (Card.id img)
            (mkItem (fileName (Card.item img)) (originalUrl (Card.item img)) type None)
            thumbnail.

(** [{ ...img, cropData: cropData, thumbnailUrl: newThumbnailUrl }]. *)
Definition withCrop (cropData : Rect.t) (thumbnail : Thumbnail) (img : Card.t) : Card.t :=
  Card.make (Card.id img)
            (mkItem (fileName (Card.item img)) (originalUrl (Card.item img))
                    (type (Card.item img)) (Some cropData))
            thumbnail.

(** [images.find(img => img.id === id)]. *)
Definition findCard (images : list Card.t) (id : string) : option Card.t :=
  find (fun img => String.eqb (Card.id img) id) images.

(** [RESIZE_DEFINITIONS[media]?.[img.type]], as a condition. *)
Definition hasTarget (media : Media) (img : Card.t) : bool :=
  match RESIZE_DEFINITIONS media (type (Card.item img)) with
  | Some _ => true
  | None => false
  end.

(** What [handleCropSave] did: it returned at once, it stored the crop
    with its preview in [images], or the preview failed and it wrote the
    error to the console and showed the message that the preview could
    not be made. *)
Inductive CropSave : Type :=
| CropIgnored
| CropSaved (images : list Card.t)
| CropPreviewFailed (error : Exn).

(** What [handleProcessClick] did: it showed the message that there is
    nothing to process, or it called [onProcess]. *)
Inductive ProcessClick : Type :=
| NothingToProcess
| Processed (result : Outcome unit * World).

Section Handlers.

Variable decode : Url -> option Image.t.
Variable jszip : bool.
Variable detector : option Detector.
Variable modelStatus : ModelStatus.
(** The [media] state of the screen. *)
Variable media : Media.

(** The new [images] state, or the rejection that leaves it as it is. *)
Definition handleTypeChange (images : list Card.t) (id : string) (type : ImageType)
    : Js (list Card.t) :=
  match findCard images id with
  | None => ret images
  | Some imageToUpdate =>
      newThumbnailUrl <-
        match RESIZE_DEFINITIONS media type with
        | Some targetSize =>
            Thumbnails.createOrUpdateThumbnail decode
              (originalUrl (Card.item imageToUpdate)) targetSize None type detector
        | None => ret (Card.thumbnailUrl imageToUpdate)
        end ;;
      ret (map (fun img =>
                  if String.eqb (Card.id img) id
                  then withType type newThumbnailUrl img
                  else img) images)
  end.

Definition handleCropSave (images : list Card.t) (id : string) (cropData : Rect.t)
    : Js CropSave :=
  match findCard images id with
  | None => ret CropIgnored
  | Some imageToUpdate =>
      match RESIZE_DEFINITIONS media (type (Card.item imageToUpdate)) with
      | None => ret CropIgnored
      | Some targetSize =>
          try_catch
            (newThumbnailUrl <-
               Thumbnails.createOrUpdateThumbnail decode
                 (originalUrl (Card.item imageToUpdate)) targetSize (Some cropData)
                 (type (Card.item imageToUpdate)) detector ;;
             ret (CropSaved
                    (map (fun img =>
                            if String.eqb (Card.id img) id
                            then withCrop cropData newThumbnailUrl img
                            else img) images)))
            (fun error => ret (CropPreviewFailed error))
      end
  end.

(** [quality] is the position of the slider, from 0.5 to 10. *)
Definition handleProcessClick (images : list Card.t) (quality : Q) (s : World)
    : ProcessClick :=
  let imagesToProcess := filter (hasTarget media) images in
  match imagesToProcess with
  | [] => NothingToProcess
  | _ :: _ =>
      Processed (handleProcess decode jszip detector modelStatus
                   (map Card.item imagesToProcess) media (quality / 10) s)
  end.

End Handlers.

End EditScreen.

(** ** Taking files in *)

Module File.
(** A [File]: its name, and the address [URL.createObjectURL] gives its
    content. *)
Record t : Type := make { name : string; objectUrl : Url }.
End File.

Module UploadScreen.

(** A rejection of the drop zone: the file and the codes of its errors. *)
Record Rejection : Type := mkRejection { file : File.t; errors : list string }.

(** The messages [onDrop] shows. *)
Inductive UploadError : Type :=
| TooManyFiles
| FileTooLarge (fileName : string)
| InvalidFileType (fileName : string).

(** The messages of one rejection. *)
Definition rejectionErrors (rejection : Rejection) : list UploadError :=
  flat_map
    (fun code =>
       ((if String.eqb code "file-too-large"
         then [FileTooLarge (File.name (file rejection))] else [])
        ++ (if String.eqb code "file-invalid-type"
            then [InvalidFileType (File.name (file rejection))] else []))%list)
    (errors rejection).

(** What [onDrop] did: [setErrors(currentErrors)], or
    [onFilesAccepted(acceptedFiles)], or nothing. *)
Inductive Drop : Type :=
| DropErrors (currentErrors : list UploadError)
| DropAccepted (acceptedFiles : list File.t)
| DropNothing.

Definition onDrop (acceptedFiles : list File.t) (fileRejections : list Rejection)
    : Drop :=
  let currentErrors :=
    ((if (30 <? List.length acceptedFiles + List.length fileRejections)%nat
      then [TooManyFiles] else [])
     ++ flat_map rejectionErrors fileRejections)%list in
  match currentErrors with
  | _ :: _ => DropErrors currentErrors
  | [] =>
      match acceptedFiles with
      | _ :: _ => DropAccepted acceptedFiles
      | [] => DropNothing
      end
  end.

End UploadScreen.

Module Intake.

(** [s.endsWith(t)]. *)
Definition endsWith (s t : string) : bool :=
  let n := String.length s in
  let m := String.length t in
  if (m <=? n)%nat then String.eqb (String.substring (n - m) m s) t else false.

(** What [handleFilesAccepted] leaves: the [images] state, the loading
    progress, and the names of the files its [catch] clause reported, in
    order (the message shown names the last of them). *)
Record Result : Type := mkResult {
  images : list Card.t;
  loadingProgress : nat * nat;
  reported : list string
}.

Section App.

Variable decode : Url -> option Image.t.
(** [window.heic2any], when the library is loaded: the address of the
    converted picture, or [None] when the conversion throws. *)
Variable heic2any : option (File.t -> option Url).
Variable detector : option Detector.
(** The text [Date.now()] and [Math.random()] give the identifier of the
    file at a position. *)
Variable stamp : nat -> string.

(** The address of the picture of a file, converted first when it is an
    HEIC file and the converter is there; [None] when converting throws. *)
Definition pictureUrl (file : File.t) : option Url :=
  let lowerCaseName := JsString.toLowerCase (File.name file) in
  match heic2any with
  | Some convert =>
      if endsWith lowerCaseName ".heic" || endsWith lowerCaseName ".heif"
      then convert file
      else Some (File.objectUrl file)
  | None => Some (File.objectUrl file)
  end.

(** Whether the picture of a file can be shown: converting did not
    throw, and the picture decodes. *)
Definition loads (file : File.t) : bool :=
  match pictureUrl file with
  | Some url =>
      match decode url with
      | Some _ => true
      | None => false
      end
  | None => false
  end.

(** The [try] block of the loop for the file at position [k]: the new
    entry, or [None] when the [catch] clause ran. *)
Definition takeFile (file : File.t) (k : nat) : Js (option Card.t) :=
  match pictureUrl file with
  | None => ret None
  | Some originalUrl =>
      let type := detectImageType (File.name file) in
      try_catch
        (thumbnailUrl <-
           match RESIZE_DEFINITIONS EPARK type with
           | Some targetSize =>
               Thumbnails.createOrUpdateThumbnail decode originalUrl targetSize None
                 type detector
           | None => ret (ObjectUrl originalUrl)
           end ;;
         ret (Some (Card.make (File.name file ++ "-" ++ stamp k)
                              (mkItem (File.name file) originalUrl type None)
                              thumbnailUrl)))
        (fun err => ret None)
  end.

Fixpoint takeFiles (files : list File.t) (k : nat) (acc : Result) : Js Result :=
  match files with
  | [] => ret acc
  | file :: rest =>
      taken <- takeFile file k ;;
      let progress := (S (fst (loadingProgress acc)), snd (loadingProgress acc)) in
      takeFiles rest (S k)
        match taken with
        | Some card => mkResult (images acc ++ [card]) progress (reported acc)
        | None =>
            mkResult (images acc) progress (reported acc ++ [File.name file])
        end
  end.

(** [handleFilesAccepted] of the last revision; the screen goes to
    ['loading'] and then to ['edit'].  The messages shown are not kept in
    the [World]: they are cleared at the start, and each run of the
    [catch] clause shows the one message that names its file, and writes
    it to the console; [reported] lists these files. *)
Definition handleFilesAccepted (files : list File.t) : Js Result :=
  setScreen Loading ;;
  result <- takeFiles files 0 (mkResult [] (0%nat, List.length files) []) ;;
  setScreen Edit ;;
  ret result.

End App.

End Intake.

(** ** The second revision: thumbnails, selection and notifications *)

(** [a === b] on the keys of [RESIZE_DEFINITIONS]. *)
Definition Media_eqb (a b : Media) : bool :=
  match a, b with
  | EPARK, EPARK | PeakManager, PeakManager => true
  | _, _ => false
  end.

(** [ids.includes(id)]. *)
Definition includesId (ids : list string) (id : string) : bool :=
  existsb (String.eqb id) ids.

(** [[...new Set(ids)]]: the first occurrence of every element, in
    order; [seen] holds the elements already met. *)
Fixpoint uniqueFrom (seen ids : list string) : list string :=
  match ids with
  | [] => []
  | id :: rest =>
      if includesId seen id then uniqueFrom seen rest
      else id :: uniqueFrom (id :: seen) rest
  end.

Definition unique (ids : list string) : list string := uniqueFrom [] ids.

Module Entry.
(** An entry of the [images] state of the second revision. *)
Record t : Type := make {
  id : string;
  fileName : string;
  originalUrl : Url;
  thumbnailUrl : Thumbnail;
  type : ImageType;
  cropData : option Rect.t;
  isProcessed : bool;
  processedMedia : option Media         (* [null] before the first preview *)
}.
End Entry.

Module SecondRevision.

(** [!img.isProcessed || img.processedMedia !== media]. *)
Definition needsUpdate (media : Media) (img : Entry.t) : bool :=
  negb (Entry.isProcessed img)
  || negb match Entry.processedMedia img with
          | Some processed => Media_eqb processed media
          | None => false
          end.

(** What the thumbnail effect returns for an image that is updated. *)
Definition refresh (decode : Url -> option Image.t) (media : Media) (image : Entry.t)
    : Entry.t :=
  match RESIZE_DEFINITIONS media (Entry.type image) with
  | None =>
      Entry.make (Entry.id image) (Entry.fileName image) (Entry.originalUrl image)
                 (ObjectUrl (Entry.originalUrl image)) (Entry.type image) None
                 true (Some media)
  | Some targetSize =>
      match Thumbnails.createFinalThumbnail decode (Entry.originalUrl image) targetSize with
      | Ok newThumbnailUrl =>
          Entry.make (Entry.id image) (Entry.fileName image) (Entry.originalUrl image)
                     newThumbnailUrl (Entry.type image) None true (Some media)
      | Raise _ =>
          Entry.make (Entry.id image) (Entry.fileName image) (Entry.originalUrl image)
                     (Entry.thumbnailUrl image) (Entry.type image) None
                     true (Some media)
      end
  end.

(** The thumbnail effect of the edit screen, which runs whenever [media]
    or [images] changes: the new [images] state, or [None] when it
    returns without setting one. *)
Definition processThumbnails (decode : Url -> option Image.t) (media : Media)
    (images : list Entry.t) : option (list Entry.t) :=
  let imagesToUpdate := filter (needsUpdate media) images in
  match imagesToUpdate with
  | [] => None
  | _ :: _ =>
      Some (map (fun image =>
                   if existsb (fun u => String.eqb (Entry.id u) (Entry.id image))
                              imagesToUpdate
                   then refresh decode media image
                   else image) images)
  end.

(** [{ ...img, type, cropData: null, isProcessed: false }]. *)
Definition retyped (type : ImageType) (img : Entry.t) : Entry.t :=
  Entry.make (Entry.id img) (Entry.fileName img) (Entry.originalUrl img)
             (Entry.thumbnailUrl img) type None false (Entry.processedMedia img).

Definition handleBulkTypeChange (selectedImageIds : list string) (type : ImageType)
    (images : list Entry.t) : list Entry.t :=
  map (fun img => if includesId selectedImageIds (Entry.id img)
                  then retyped type img else img) images.

(** [images.findIndex(img => img.id === id)]: [-1] when there is none. *)
Fixpoint findIndex (images : list Entry.t) (id : string) : Z :=
  match images with
  | [] => (-1)%Z
  | img :: rest =>
      if String.eqb (Entry.id img) id then 0%Z
      else let r := findIndex rest id in
           if (r <? 0)%Z then (-1)%Z else (r + 1)%Z
  end.

(** [list.slice(start, end)]: a negative index counts from the end, and
    both are clamped to the list. *)
Definition slice {A : Type} (l : list A) (start stop : Z) : list A :=
  let len := Z.of_nat (List.length l) in
  let from := if (start <? 0)%Z then Z.max (len + start) 0 else Z.min start len in
  let to := if (stop <? 0)%Z then Z.max (len + stop) 0 else Z.min stop len in
  firstn (Z.to_nat (Z.max (to - from) 0)) (skipn (Z.to_nat from) l).

(** The keys held during a click. *)
Record Click : Type := mkClick { metaKey : bool; ctrlKey : bool; shiftKey : bool }.

(** The new [selectedImageIds] after a click on an image. *)
Definition handleSelectImage (images : list Entry.t) (selectedImageIds : list string)
    (clickedId : string) (e : Click) : list string :=
  let isCtrlOrMeta := metaKey e || ctrlKey e in
  let lastSelectedId := last (map Some selectedImageIds) None in
  match lastSelectedId with
  | Some lastId =>
      if shiftKey e && negb (String.eqb lastId "") then
        let lastIndex := findIndex images lastId in
        let clickedIndex := findIndex images clickedId in
        let start := Z.min lastIndex clickedIndex in
        let stop := Z.max lastIndex clickedIndex in
        let rangeIds := map Entry.id (slice images start (stop + 1)) in
        unique (selectedImageIds ++ rangeIds)
      else if isCtrlOrMeta then
        if includesId selectedImageIds clickedId
        then filter (fun id => negb (String.eqb id clickedId)) selectedImageIds
        else (selectedImageIds ++ [clickedId])%list
      else [clickedId]
  | None =>
      if isCtrlOrMeta then
        if includesId selectedImageIds clickedId
        then filter (fun id => negb (String.eqb id clickedId)) selectedImageIds
        else (selectedImageIds ++ [clickedId])%list
      else [clickedId]
  end.

(** The position of the image being cropped: [-1] when none is. *)
Definition currentIndex (images : list Entry.t) (croppingImageId : option string) : Z :=
  match croppingImageId with
  | Some id => if String.eqb id "" then (-1)%Z else findIndex images id
  | None => (-1)%Z
  end.

Definition canNavigatePrev (images : list Entry.t) (croppingImageId : option string)
    : bool :=
  (0 <? currentIndex images croppingImageId)%Z.

Definition canNavigateNext (images : list Entry.t) (croppingImageId : option string)
    : bool :=
  ((-1 <? currentIndex images croppingImageId)
   && (currentIndex images croppingImageId <? Z.of_nat (List.length images) - 1))%Z.

(** The new [croppingImageId] after a step to the next or the previous
    image. *)
Definition handleNavigate (images : list Entry.t) (croppingImageId : option string)
    (direction : Z) : option string :=
  let index := currentIndex images croppingImageId in
  if (index =? -1)%Z then croppingImageId
  else
    let newIndex := (index + direction)%Z in
    if ((0 <=? newIndex) && (newIndex <? Z.of_nat (List.length images)))%Z then
      match nth_error images (Z.to_nat newIndex) with
      | Some img => Some (Entry.id img)
      | None => croppingImageId
      end
    else croppingImageId.

End SecondRevision.

(** ** Notifications of the second revision *)

Module Notification.
(** An entry of [/notifications.json]; [date] is [content.date]. *)
Record t : Type := make { id : string; type : string; date : string }.
End Notification.

Module Notices.

(** The two keys the application keeps in [localStorage], as it writes
    them; a key is [None] until it is first written. *)
Record Storage : Type := mkStorage {
  isFirstVisit : option bool;
  seenNotifications : option (list string)
}.

(** The answer to [fetch('/notifications.json')]: the request or the
    parsing of the body fails, the status is not ok, or the body is a
    list of notifications. *)
Inductive Fetched : Type :=
| FetchFailed
| FetchNotOk
| FetchOk (notifications : list Notification.t).

Inductive Log : Type := NotFound | FetchError.

Record State : Type := mkState {
  storage : Storage;
  allNotifications : list Notification.t;
  notificationQueue : list Notification.t;
  updateBannerNotifications : list Notification.t;
  isUpdateModalOpen : bool;
  console : list Log
}.

Definition setStorage (s : Storage) (st : State) : State :=
  mkState s (allNotifications st) (notificationQueue st)
          (updateBannerNotifications st) (isUpdateModalOpen st) (console st).

Definition setAllNotifications (l : list Notification.t) (st : State) : State :=
  mkState (storage st) l (notificationQueue st)
          (updateBannerNotifications st) (isUpdateModalOpen st) (console st).

Definition setNotificationQueue (l : list Notification.t) (st : State) : State :=
  mkState (storage st) (allNotifications st) l
          (updateBannerNotifications st) (isUpdateModalOpen st) (console st).

Definition setUpdateBannerNotifications (l : list Notification.t) (st : State)
    : State :=
  mkState (storage st) (allNotifications st) (notificationQueue st)
          l (isUpdateModalOpen st) (console st).

Definition setIsUpdateModalOpen (b : bool) (st : State) : State :=
  mkState (storage st) (allNotifications st) (notificationQueue st)
          (updateBannerNotifications st) b (console st).

Definition log (line : Log) (st : State) : State :=
  mkState (storage st) (allNotifications st) (notificationQueue st)
          (updateBannerNotifications st) (isUpdateModalOpen st)
          (console st ++ [line])%list.

(** [n.type === type]. *)
Definition hasType (type : string) (n : Notification.t) : bool :=
  String.eqb (Notification.type n) type.

(** [JSON.parse(localStorage.getItem('isFirstVisit')) !== false]. *)
Definition firstVisit (s : Storage) : bool :=
  match isFirstVisit s with
  | Some false => false
  | _ => true
  end.

(** [JSON.parse(localStorage.getItem('seenNotifications')) || []]. *)
Definition seen (s : Storage) : list string :=
  match seenNotifications s with
  | Some ids => ids
  | None => []
  end.

(** The notification on display: the head of the queue. *)
Definition notification (st : State) : option Notification.t :=
  hd_error (notificationQueue st).

(** [notifications.filter(n => n.type !== 'welcome' &&
    !seenNotifications.includes(n.id))]. *)
Definition unseenOf (seenNotifications : list string)
    (notifications : list Notification.t) : list Notification.t :=
  filter (fun n => negb (hasType "welcome" n)
                   && negb (includesId seenNotifications (Notification.id n)))
         notifications.

Section Check.

(** [updates.sort((a, b) => new Date(b.content.date) - new Date(a.content.date))]. *)
Variable sortByDate : list Notification.t -> list Notification.t.

Definition checkNotifications (response : Fetched) (st : State) : State :=
  match response with
  | FetchFailed => log FetchError st
  | FetchNotOk => log NotFound st
  | FetchOk notifications =>
      let st := setAllNotifications notifications st in
      let seenNotifications := seen (storage st) in
      if firstVisit (storage st) then
        match find (hasType "welcome") notifications with
        | Some welcomeNotification => setNotificationQueue [welcomeNotification] st
        | None => st
        end
      else
        let unseen := unseenOf seenNotifications notifications in
        let agreements := filter (hasType "agreement") unseen in
        let st := match agreements with
                  | [] => st
                  | _ :: _ => setNotificationQueue agreements st
                  end in
        let updates := filter (hasType "update") unseen in
        match updates with
        | [] => st
        | _ :: _ => setUpdateBannerNotifications (sortByDate updates) st
        end
  end.

End Check.

Definition handleCloseModal (confirmed : bool) (st : State) : State :=
  match notificationQueue st with
  | [] => st
  | currentNotification :: rest =>
      let seenNotifications := seen (storage st) in
      let id := Notification.id currentNotification in
      let closesWelcome := hasType "welcome" currentNotification && confirmed in
      let written :=
        if closesWelcome then
          let updateIds :=
            map Notification.id (filter (hasType "update") (allNotifications st)) in
          mkStorage (Some false)
                    (Some (unique (seenNotifications ++ [id] ++ updateIds)%list))
        else storage st in
      let shouldUpdateStorage :=
        if closesWelcome then false
        else if hasType "agreement" currentNotification && confirmed then true
        else negb (hasType "agreement" currentNotification) in
      let written :=
        if shouldUpdateStorage && negb (includesId seenNotifications id)
        then mkStorage (isFirstVisit written) (Some (seenNotifications ++ [id])%list)
        else written in
      setNotificationQueue rest (setStorage written st)
  end.

Definition handleCloseUpdateModal (st : State) : State :=
  let seenNotifications := seen (storage st) in
  let updateIdsToMarkAsSeen := map Notification.id (updateBannerNotifications st) in
  let newSeenIds := unique (seenNotifications ++ updateIdsToMarkAsSeen)%list in
  setUpdateBannerNotifications []
    (setIsUpdateModalOpen false
       (setStorage (mkStorage (isFirstVisit (storage st)) (Some newSeenIds)) st)).

(** The state in a browser that never opened the application. *)
Definition fresh : State := mkState (mkStorage None None) [] [] [] false [].

End Notices.

Module SampleNotices.

Definition welcome : Notification.t := Notification.make "welcome-1" "welcome" "2024-01-01".
Definition terms : Notification.t := Notification.make "terms-2" "agreement" "2024-02-01".
Definition release : Notification.t := Notification.make "release-3" "update" "2024-03-01".

Definition all : list Notification.t := [welcome; terms; release].

(** The order of a list with at most one update. *)
Definition sortByDate (l : list Notification.t) : list Notification.t := l.

(** A browser that has confirmed the welcome before [release] and
    [terms] were published. *)
Definition returning : Notices.State :=
  Notices.mkState (Notices.mkStorage (Some false) (Some ["welcome-1"])) [] [] [] false [].

End SampleNotices.

Module SampleEntries.

(** Two images as the first thumbnails leave them, processed for EPARK;
    the second one has a manual crop since. *)
Definition shop : Entry.t :=
  Entry.make "shop-0" "shop_top.png" "blob:shop" (ObjectUrl "blob:shop") Photo None
             true (Some EPARK).
Definition staff : Entry.t :=
  Entry.make "staff-1" "staff_01.jpg" "blob:staff" (ObjectUrl "blob:staff") Staff
             (Some (Rect.make 0 0 150 174)) true (Some EPARK).
Definition logo : Entry.t :=
  Entry.make "logo-2" "logo.png" "blob:logo" (ObjectUrl "blob:logo") Logo None
             true (Some EPARK).

Definition all : list Entry.t := [shop; staff; logo].

End SampleEntries.

Module SampleFiles.

Definition shop : File.t := File.make "shop_top.png" "blob:shop".
Definition huge : File.t := File.make "huge_photo.png" "blob:huge".
Definition notes : File.t := File.make "notes.txt" "blob:notes".

Definition broken : File.t := File.make "staff_01.jpg" "blob:broken".

(** The identifiers end in the same time and random number. *)
Definition stamp (k : nat) : string := "1700000000000-0.5".

Definition tooLarge : UploadScreen.Rejection :=
  UploadScreen.mkRejection huge ["file-too-large"].
Definition wrongType : UploadScreen.Rejection :=
  UploadScreen.mkRejection notes ["file-invalid-type"].

End SampleFiles.

Module SampleCards.

Definition shop : Card.t := Card.make "shop-1" Sample.shop (ObjectUrl "blob:shop").
Definition logo : Card.t := Card.make "logo-1" Sample.logo (ObjectUrl "blob:logo").
Definition staff : Card.t := Card.make "staff-2" Sample.staff (ObjectUrl "blob:staff").
Definition cropped : Card.t :=
  Card.make "staff-3" Sample.cropped (ObjectUrl "blob:cropped").
Definition broken : Card.t :=
  Card.make "staff-1" Sample.broken (ObjectUrl "blob:broken").

Definition slider : Q := 9.

End SampleCards.

(** ** The archive *)

Module JSZip.

(** [zip.file(name, data)] on the entries an archive holds.  JSZip keeps
    its entries in an object keyed by name, so data stored under a name
    that is there already takes the place of the old data. *)
Fixpoint file (name : string) (data : Blob) (files : list (string * Blob))
    : list (string * Blob) :=
  match files with
  | [] => [(name, data)]
  | (n, d) :: rest =>
      if String.eqb n name then (name, data) :: rest
      else (n, d) :: file name data rest
  end.

(** The entries of a new archive after a sequence of calls of
    [zip.file]. *)
Definition files (calls : list (string * Blob)) : list (string * Blob) :=
  fold_left (fun files call => file (fst call) (snd call) files) calls [].

End JSZip.

Module SamplePictures.

Definition portrait : Image.t := Image.make "blob:portrait" 400 464.
Definition strip : Image.t := Image.make "blob:strip" 1200 160.
Definition banner : Image.t := Image.make "blob:banner" 440 176.

(** A decoder that finds the banner at every address. *)
Definition decodeBanner (url : Url) : option Image.t := Some banner.

(** Two files that differ in their extension only. *)
Definition scan : ImageItem := mkItem "photo.png" "blob:scan" Photo None.
Definition shot : ImageItem := mkItem "photo.jpg" "blob:shot" Photo None.

End SamplePictures.

(** * Properties *)

(** ** Strings *)

Module JsStringFacts.
Import JsString.

Lemma prefix_app (t s : string) :
  String.prefix t s = true <-> exists q, s = t ++ q.
Proof.
  revert s; induction t as [|c t IH]; intros s; simpl.
  - split; [intros _; exists s; reflexivity | destruct s; reflexivity].
  - destruct s as [|d s]; simpl.
    + split; [discriminate | intros [q Hq]; discriminate].
    + destruct (Ascii.ascii_dec c d) as [->|Hcd].
      * rewrite IH. split; intros [q Hq]; exists q; congruence.
      * split; [discriminate | intros [q Hq]; congruence].
Qed.

Lemma includes_nil (t : string) : includes "" t = String.prefix t "".
Proof. unfold includes. destruct (String.prefix t ""); reflexivity. Qed.

Lemma includes_cons (c : ascii) (s t : string) :
  includes (String c s) t = String.prefix t (String c s) || includes s t.
Proof.
  change (includes (String c s) t)
    with (if String.prefix t (String c s) then true else includes s t).
  destruct (String.prefix t (String c s)); reflexivity.
Qed.

Lemma includes_Occurs (s t : string) :
  includes s t = true <-> Occurs t s.
Proof.
  induction s as [|c s IH].
  - rewrite includes_nil, prefix_app. split.
    + intros [q Hq]. exists "", q. exact Hq.
    + intros [p [q H]]. destruct p; simpl in H; [eauto | discriminate].
  - rewrite includes_cons, orb_true_iff, prefix_app, IH. split.
    + intros [[q Hq] | [p [q H]]].
      * exists "", q. exact Hq.
      * exists (String c p), q. simpl. congruence.
    + intros [p [q H]]. destruct p as [|d p]; simpl in H.
      * left. eauto.
      * right. exists p, q. congruence.
Qed.

Lemma includes_false (s t : string) :
  includes s t = false <-> ~ Occurs t s.
Proof.
  rewrite <- includes_Occurs. destruct (includes s t); split; congruence.
Qed.

Lemma lower_ascii_idem (c : ascii) : lower_ascii (lower_ascii c) = lower_ascii c.
Proof.
  destruct c as [[] [] [] [] [] [] [] []]; reflexivity.
Qed.

Lemma toLowerCase_idem (s : string) : toLowerCase (toLowerCase s) = toLowerCase s.
Proof.
  induction s as [|c s IH]; simpl; [reflexivity |].
  now rewrite lower_ascii_idem, IH.
Qed.

Lemma Free_cons (c a : ascii) (s : string) :
  Free c (String a s) <-> a <> c /\ Free c s.
Proof.
  unfold Free. split.
  - intros H. split.
    + intros ->. apply (H "" s). reflexivity.
    + intros p q ->. apply (H (String a p) q). reflexivity.
  - intros [Hac Hs] p q. destruct p as [|b p]; simpl.
    + congruence.
    + intros E. injection E as _ E. exact (Hs p q E).
Qed.

Lemma Free_nil (c : ascii) : Free c "".
Proof. intros [|? ?] q; discriminate. Qed.

Lemma lastIndexOf_range (s : string) (c : ascii) :
  (-1 <= lastIndexOf s c < Z.of_nat (String.length s))%Z.
Proof.
  induction s as [|a s IH]; simpl String.length; simpl lastIndexOf; [lia |].
  destruct (0 <=? lastIndexOf s c)%Z eqn:E; [apply Z.leb_le in E; lia |].
  destruct (Ascii.eqb a c); lia.
Qed.

Lemma lastIndexOf_Free (s : string) (c : ascii) :
  lastIndexOf s c = (-1)%Z <-> Free c s.
Proof.
  induction s as [|a s IH]; simpl.
  - split; [intros _; apply Free_nil | reflexivity].
  - rewrite Free_cons, <- IH. pose proof (lastIndexOf_range s c) as R.
    destruct (0 <=? lastIndexOf s c)%Z eqn:E.
    + apply Z.leb_le in E. split; [lia | intros [_ ?]; lia].
    + apply Z.leb_gt in E. destruct (Ascii.eqb_spec a c) as [->|Hne].
      * split; [discriminate | intros [? _]; congruence].
      * split; [intros _; split; [exact Hne | lia] | reflexivity].
Qed.

(** The last occurrence is where the text splits into a part, the
    character and a rest without it. *)
Lemma lastIndexOf_split (p q : string) (c : ascii) :
  Free c q -> lastIndexOf (p ++ String c q) c = Z.of_nat (String.length p).
Proof.
  intros Hq. apply lastIndexOf_Free in Hq.
  induction p as [|a p IH]; simpl.
  - rewrite Hq. simpl. now rewrite Ascii.eqb_refl.
  - rewrite IH. destruct (0 <=? Z.of_nat (String.length p))%Z eqn:E.
    + lia.
    + apply Z.leb_gt in E. lia.
Qed.

Lemma substring_prefix (p r : string) :
  String.substring 0 (String.length p) (p ++ r) = p.
Proof.
  induction p as [|a p IH]; simpl.
  - destruct r; reflexivity.
  - now rewrite IH.
Qed.

Lemma substring_head (p r : string) :
  substring (p ++ r) 0 (Z.of_nat (String.length p)) = p.
Proof.
  unfold substring.
  assert (L : String.length (p ++ r) = (String.length p + String.length r)%nat).
  { induction p; simpl; [reflexivity | now rewrite IHp]. }
  rewrite L.
  replace (Z.min (Z.max 0 0) _) with 0%Z by lia.
  replace (Z.min (Z.max (Z.of_nat (String.length p)) 0) _)
    with (Z.of_nat (String.length p)) by lia.
  replace (Z.min 0 (Z.of_nat (String.length p))) with 0%Z by lia.
  replace (Z.max 0 (Z.of_nat (String.length p))) with (Z.of_nat (String.length p)) by lia.
  rewrite Z.sub_0_r, Nat2Z.id. simpl Z.to_nat. apply substring_prefix.
Qed.

Lemma substring_empty (s : string) (e : Z) :
  (e <= 0)%Z -> substring s 0 e = "".
Proof.
  intros He. unfold substring.
  replace (Z.min (Z.max 0 0) _) with 0%Z by lia.
  replace (Z.min (Z.max e 0) _) with 0%Z by lia.
  simpl. destruct s; reflexivity.
Qed.

(** Every text has no [c], or splits at its last [c]. *)
Lemma split_last (c : ascii) (s : string) :
  Free c s \/ exists p q, s = p ++ String c q /\ Free c q.
Proof.
  induction s as [|a s IH].
  - left. apply Free_nil.
  - destruct IH as [F | [p [q [-> Fq]]]].
    + destruct (Ascii.ascii_dec a c) as [->|Hne].
      * right. exists "", s. split; [reflexivity | exact F].
      * left. apply Free_cons. split; assumption.
    + right. exists (String a p), q. split; [reflexivity | exact Fq].
Qed.

End JsStringFacts.

(** ** The classifier *)

(** Claim C8.  [detectImageType] is a total function of the file name that
    looks at the lowered name only and applies its rules in order: a
    lowered name in which "staff" occurs gives [Staff]; otherwise one in
    which "logo" or "ロゴ" occurs gives [Logo]; every other name gives
    [Photo], whether a photo keyword occurs in it or not.  Two names that
    differ in case only get the same category, and "STAFF_photo.jpg" and
    "staff_photo.jpg" are both [Staff] although "photo" occurs in them. *)
Theorem detectImageType_rules (fileName : string) :
  let lower := JsString.toLowerCase fileName in
  (JsString.Occurs "staff" lower -> detectImageType fileName = Staff)
  /\ (~ JsString.Occurs "staff" lower ->
      JsString.Occurs "logo" lower \/ JsString.Occurs "ロゴ" lower ->
      detectImageType fileName = Logo)
  /\ (~ JsString.Occurs "staff" lower ->
      ~ JsString.Occurs "logo" lower -> ~ JsString.Occurs "ロゴ" lower ->
      detectImageType fileName = Photo)
  /\ (forall other, JsString.toLowerCase other = lower ->
      detectImageType other = detectImageType fileName)
  /\ detectImageType "STAFF_photo.jpg" = Staff
  /\ detectImageType "staff_photo.jpg" = Staff
  /\ JsString.Occurs "photo" (JsString.toLowerCase "STAFF_photo.jpg").
Proof.
  intros lower. unfold detectImageType. fold lower.
  repeat split.
  - intros H. apply JsStringFacts.includes_Occurs in H. now rewrite H.
  - intros Hs Hl. apply JsStringFacts.includes_false in Hs. rewrite Hs.
    assert (E : JsString.includes lower "logo" || JsString.includes lower "ロゴ" = true).
    { apply orb_true_iff.
      destruct Hl as [H | H]; apply JsStringFacts.includes_Occurs in H; auto. }
    now rewrite E.
  - intros Hs Hl Hj.
    apply JsStringFacts.includes_false in Hs, Hl, Hj. rewrite Hs, Hl, Hj. simpl.
    match goal with |- (if ?b then _ else _) = _ => destruct b end; reflexivity.
  - intros other ->. reflexivity.
  - exists "staff_", ".jpg". reflexivity.
Qed.

Lemma detectImageType_rules_witness :
  ~ JsString.Occurs "staff" (JsString.toLowerCase "Shop_LOGO.png")
  /\ JsString.Occurs "logo" (JsString.toLowerCase "Shop_LOGO.png")
  /\ detectImageType "Shop_LOGO.png" = Logo.
Proof.
  assert (Hs : ~ JsString.Occurs "staff" (JsString.toLowerCase "Shop_LOGO.png"))
    by (apply (proj1 (JsStringFacts.includes_false _ _)); reflexivity).
  assert (Hl : JsString.Occurs "logo" (JsString.toLowerCase "Shop_LOGO.png"))
    by (exists "shop_", ".png"; reflexivity).
  split; [exact Hs | split; [exact Hl |]].
  exact (proj1 (proj2 (detectImageType_rules "Shop_LOGO.png")) Hs (or_introl Hl)).
Defined.

(** ** Running the application code *)

Ltac js_unfold :=
  unfold incrementProgress, setProcessingProgress, setScreen, setZipBlob,
    zip_file, handleFileErrors, console_log, runDetector, loadImage,
    modify, try_catch, bind, ret, throw in *.

Ltac break_match :=
  match goal with
  | |- context [match ?x with _ => _ end] =>
      lazymatch x with
      | context [match _ with _ => _ end] => fail
      | _ => destruct x eqn:?
      end
  end.

Section AppFacts.

Variable decode : Url -> option Image.t.
Variable detector : option Detector.
Variable modelStatus : ModelStatus.

(** The pose estimate never throws, writes nothing but the console and
    the record of detector calls, and returns either nothing or the
    region computed from three keypoints of the first pose. *)
Lemma getAutoCropRegion_run image targetSize det s :
  exists region s',
    getAutoCropRegion image targetSize det s = (Ok region, s')
    /\ zip s' = zip s /\ errors s' = errors s
    /\ processingProgress s' = processingProgress s
    /\ screen s' = screen s /\ zipBlob s' = zipBlob s
    /\ (forall r, region = Some r ->
        exists d poses pose ks nose leftShoulder rightShoulder,
          det = Some d
          /\ estimatePoses d image = Returned (Some (pose :: poses))
          /\ Pose.keypoints pose = Some ks
          /\ findKeypoint ks "nose" = Some nose
          /\ findKeypoint ks "left_shoulder" = Some leftShoulder
          /\ findKeypoint ks "right_shoulder" = Some rightShoulder
          /\ r = autoCropRect image targetSize nose leftShoulder rightShoulder).
Proof.
  unfold getAutoCropRegion. js_unfold.
  repeat break_match; simpl;
    repeat match goal with H : (_, _) = (_, _) |- _ => inversion H; clear H; subst end;
    try discriminate;
    eexists; eexists; (split; [reflexivity |]); simpl;
    repeat (split; [reflexivity |]); intros r Hr; try discriminate.
  inversion Hr; subst. repeat eexists; eauto.
Qed.

(** Which canvas is exported does not depend on the state it is computed
    in. *)
Lemma croppedCanvasFor_result image targetSize s1 s2 :
  fst (croppedCanvasFor decode detector modelStatus image targetSize s1)
  = fst (croppedCanvasFor decode detector modelStatus image targetSize s2).
Proof.
  unfold croppedCanvasFor, getAutoCroppedCanvas, getCroppedCanvas, getAutoCropRegion.
  js_unfold.
  repeat break_match; simpl;
    repeat match goal with H : (_, _) = (_, _) |- _ => inversion H; clear H; subst end;
    try discriminate; try reflexivity.
Qed.

(** Computing the canvas writes nothing but the console and the record
    of detector calls. *)
Lemma croppedCanvasFor_frame image targetSize s :
  let s' := snd (croppedCanvasFor decode detector modelStatus image targetSize s) in
  zip s' = zip s /\ errors s' = errors s
  /\ processingProgress s' = processingProgress s
  /\ screen s' = screen s /\ zipBlob s' = zipBlob s.
Proof.
  unfold croppedCanvasFor, getAutoCroppedCanvas, getCroppedCanvas, getAutoCropRegion.
  js_unfold.
  repeat break_match; simpl;
    repeat match goal with H : (_, _) = (_, _) |- _ => inversion H; clear H; subst end;
    try discriminate; simpl; repeat split; reflexivity.
Qed.

(** One turn of the loop of [handleProcess] never throws: it adds the
    archive entry of a success and nothing otherwise, counts the image
    as processed, and reports a failure on the console and in the
    messages shown. *)
Lemma processImage_run media quality image s :
  let o := outcomeOf decode detector modelStatus media quality image in
  exists s',
    processImage decode detector modelStatus media quality image s = (Ok tt, s')
    /\ zip s' = (zip s ++ entriesOf o)%list
    /\ processingProgress s'
       = (S (fst (processingProgress s)), snd (processingProgress s))
    /\ screen s' = screen s /\ zipBlob s' = zipBlob s
    /\ errors s' = match o with
                   | Failed _ => [ImageProcessingError (fileName image)]
                   | _ => errors s
                   end
    /\ (forall e, o = Failed e -> In (ProcessingFailed (fileName image)) (console s')).
Proof.
  unfold processImage, outcomeOf.
  destruct (RESIZE_DEFINITIONS media (type image)) as [targetSize|].
  - rewrite (croppedCanvasFor_result image targetSize freshWorld s).
    pose proof (croppedCanvasFor_frame image targetSize s) as F. cbv zeta in F.
    js_unfold.
    destruct (croppedCanvasFor decode detector modelStatus image targetSize s)
      as [[canvas|e] s1]; simpl in *;
      destruct F as (Fz & Fe & Fp & Fs & Fb);
      eexists; (split; [reflexivity |]); simpl; rewrite ?Fz, ?Fe, ?Fp, ?Fs, ?Fb;
      repeat split; try reflexivity; try discriminate.
    + now rewrite app_nil_r.
    + intros e' _. apply in_or_app. right. left. reflexivity.
  - js_unfold. eexists. split; [reflexivity |]. simpl.
    rewrite app_nil_r. repeat split; try reflexivity. discriminate.
Qed.

(** The loop over a batch: every image is processed, in order, and the
    archive receives the entries of the successes. *)
Lemma forEach_processImage_run media quality images s :
  exists s',
    forEach images (processImage decode detector modelStatus media quality) s
    = (Ok tt, s')
    /\ zip s' = (zip s ++ flat_map
                  (fun image => entriesOf
                     (outcomeOf decode detector modelStatus media quality image))
                  images)%list
    /\ processingProgress s'
       = ((fst (processingProgress s) + List.length images)%nat,
          snd (processingProgress s))
    /\ screen s' = screen s /\ zipBlob s' = zipBlob s
    /\ (forall image e,
          In image images ->
          outcomeOf decode detector modelStatus media quality image = Failed e ->
          In (ProcessingFailed (fileName image)) (console s'))
    /\ (forall line, In line (console s) -> In line (console s')).
Proof.
  revert s. induction images as [|image images IH]; intros s.
  - exists s. simpl. rewrite app_nil_r, Nat.add_0_r.
    repeat split; try reflexivity; [now destruct (processingProgress s) | contradiction | auto].
  - destruct (processImage_run media quality image s)
      as (s1 & R1 & Z1 & P1 & S1 & B1 & E1 & L1).
    destruct (IH s1) as (s2 & R2 & Z2 & P2 & S2 & B2 & L2 & M2).
    exists s2. simpl forEach. unfold bind at 1. rewrite R1, R2.
    split; [reflexivity |]. simpl flat_map. rewrite Z2, Z1, P2, P1, S2, S1, B2, B1.
    simpl. rewrite <- app_assoc, Nat.add_succ_r.
    repeat split; try reflexivity.
    + intros image' e [<- | Hin] Ho; [apply M2; eapply L1; exact Ho | eapply L2; eauto].
    + intros line Hin. apply M2.
      clear - R1 Hin. revert R1. unfold processImage.
      destruct (RESIZE_DEFINITIONS media (type image)) as [targetSize|].
      * unfold croppedCanvasFor, getAutoCroppedCanvas, getCroppedCanvas, getAutoCropRegion.
        js_unfold.
        repeat break_match; simpl;
          repeat match goal with H : (_, _) = (_, _) |- _ => inversion H; clear H; subst end;
          try discriminate; intros R; inversion R; subst; simpl;
          repeat (apply in_or_app; left); exact Hin.
      * js_unfold. intros R; inversion R; subst; simpl. exact Hin.
Qed.

(** The whole of [handleProcess] when the archive library is loaded. *)
Lemma handleProcess_run media quality images s :
  exists s',
    handleProcess decode true detector modelStatus images media quality s = (Ok tt, s')
    /\ zip s' = flat_map
                  (fun image => entriesOf
                     (outcomeOf decode detector modelStatus media quality image))
                  images
    /\ zipBlob s' = Some (zip s')
    /\ processingProgress s' = (List.length images, List.length images)
    /\ screen s' = Download
    /\ (forall image e,
          In image images ->
          outcomeOf decode detector modelStatus media quality image = Failed e ->
          In (ProcessingFailed (fileName image)) (console s')).
Proof.
  unfold handleProcess. simpl negb. cbv iota.
  set (s0 := mkWorld Processing (0%nat, List.length images) [] (zipBlob s)
                     (errors s) (console s) (estimated s)).
  destruct (forEach_processImage_run media quality images s0)
    as (s1 & R & Z & P & S & B & L & _).
  exists (mkWorld Download (processingProgress s1) (zip s1) (Some (zip s1))
                  (errors s1) (console s1) (estimated s1)).
  split.
  - js_unfold. simpl. fold s0. rewrite R. reflexivity.
  - simpl. rewrite Z, P. simpl. repeat split; try reflexivity. exact L.
Qed.

End AppFacts.

(** ** Batch export *)

(** With the archive library loaded, [handleProcess] ends
    normally on every batch: each image is counted as processed,
    [zip.file] is called exactly for the images that succeeded, in input
    order, once each, and an image whose cropping throws is reported on
    the console and changes nothing else: the calls are those of the
    batch without that image. *)
Lemma handleProcess_calls
    decode detector modelStatus media quality (images : list ImageItem) s :
  let run := handleProcess decode true detector modelStatus in
  let out := outcomeOf decode detector modelStatus media quality in
  let s' := snd (run images media quality s) in
  fst (run images media quality s) = Ok tt
  /\ zip s' = flat_map (fun image => entriesOf (out image)) images
  /\ List.length (zip s')
     = List.length (filter (fun image => isSuccess (out image)) images)
  /\ zipBlob s' = Some (zip s')
  /\ processingProgress s' = (List.length images, List.length images)
  /\ screen s' = Download
  /\ (forall before bad after e,
        images = (before ++ bad :: after)%list -> out bad = Failed e ->
        zip s' = zip (snd (run (before ++ after)%list media quality s))
        /\ In (ProcessingFailed (fileName bad)) (console s')).
Proof.
  intros run out s'. subst run s'.
  destruct (handleProcess_run decode detector modelStatus media quality images s)
    as (s1 & R & Z & B & P & S & L).
  rewrite R. simpl. fold out in Z, L.
  split; [reflexivity |]. split; [exact Z |].
  split; [| split; [exact B | split; [exact P | split; [exact S |]]]].
  - rewrite Z. clear. induction images as [|image images IH]; [reflexivity |].
    simpl. rewrite length_app, IH.
    destruct (out image); reflexivity.
  - intros before bad after e Himages Hbad. split.
    + destruct (handleProcess_run decode detector modelStatus media quality
                  (before ++ after) s) as (s2 & R2 & Z2 & _).
      rewrite R2. simpl. rewrite Z, Z2. subst images.
      rewrite !flat_map_app. simpl. fold out. rewrite Hbad. reflexivity.
    + apply (L bad e); [subst images; apply in_elt | exact Hbad].
Qed.

(** Claim C3.  An image with a manual crop is drawn from exactly that
    rectangle, whatever its category and whether or not a pose detector
    is ready: the detector is not run and the state is left as it was. *)
Theorem manual_crop_takes_precedence
    decode detector modelStatus image crop targetSize decoded s :
  cropData image = Some crop ->
  decode (originalUrl image) = Some decoded ->
  exists canvas,
    croppedCanvasFor decode detector modelStatus image targetSize s = (Ok canvas, s)
    /\ drawnFrom canvas = Some crop
    /\ canvas = Canvas (canvasSide (Size.w targetSize)) (canvasSide (Size.h targetSize))
                       SmoothLow (Img decoded) crop (wholeTarget targetSize)
    /\ estimated (snd (croppedCanvasFor decode detector modelStatus image targetSize s))
       = estimated s.
Proof.
  intros Hc Hd. unfold croppedCanvasFor, wantsAutoCrop, getCroppedCanvas. js_unfold.
  rewrite Hc, Hd. destruct crop as [cx cy cw ch].
  destruct (type image); simpl; eexists; repeat split; reflexivity.
Qed.

(** Claim C4.  For a [Staff] image without manual crop, when the detector
    throws, returns no pose, or returns a first pose in which one of
    nose, left_shoulder and right_shoulder is missing, the pose estimate
    returns nothing without throwing, and the canvas exported is the one
    [getCroppedCanvas] gives without crop data: the centred cover crop. *)
Theorem unusable_pose_falls_back
    decode d image targetSize decoded s :
  type image = Staff ->
  cropData image = None ->
  decode (originalUrl image) = Some decoded ->
  PoseUnusable (estimatePoses d decoded) ->
  (exists s1, getAutoCropRegion decoded targetSize (Some d) s = (Ok None, s1))
  /\ fst (croppedCanvasFor decode (Some d) ModelReady image targetSize s)
     = fst (getCroppedCanvas decode (originalUrl image) None targetSize s)
  /\ fst (croppedCanvasFor decode (Some d) ModelReady image targetSize s)
     = Ok (Canvas (canvasSide (Size.w targetSize)) (canvasSide (Size.h targetSize))
                  SmoothLow (Img decoded)
                  (coverCropRect decoded targetSize) (wholeTarget targetSize)).
Proof.
  intros Ht Hc Hd Hu.
  assert (A : exists s1,
             getAutoCropRegion decoded targetSize (Some d) s = (Ok None, s1)).
  { unfold getAutoCropRegion. js_unfold.
    destruct Hu as [E | [E | [E | (pose & poses & E & K)]]]; rewrite E;
      try (eexists; reflexivity).
    destruct K as [K | (ks & K & F)]; rewrite K; simpl; [eexists; reflexivity |].
    destruct F as [F | [F | F]]; rewrite F;
      repeat match goal with
             | |- context [findKeypoint ?k ?n] => destruct (findKeypoint k n)
             end; eexists; reflexivity. }
  split; [exact A |].
  destruct A as (s1 & A).
  assert (B : forall s2,
             getAutoCropRegion decoded targetSize (Some d) s2
             = (Ok None, snd (getAutoCropRegion decoded targetSize (Some d) s2))).
  { intros s2.
    revert A. unfold getAutoCropRegion. js_unfold.
    repeat break_match; simpl; intros A; inversion A; subst; try reflexivity;
      repeat match goal with H : (_, _) = (_, _) |- _ => inversion H; clear H; subst end;
      try discriminate; reflexivity. }
  unfold croppedCanvasFor, wantsAutoCrop, getAutoCroppedCanvas, getCroppedCanvas.
  rewrite Ht, Hc. js_unfold. rewrite Hd.
  rewrite B. simpl. split; reflexivity.
Qed.

Lemma manual_crop_takes_precedence_witness :
  wantsAutoCrop (Some Sample.personDetector) ModelReady Sample.staff = true
  /\ exists canvas,
       croppedCanvasFor Sample.decode (Some Sample.personDetector) ModelReady
         Sample.cropped (Size.make 150 174) freshWorld = (Ok canvas, freshWorld)
       /\ drawnFrom canvas = Some Sample.portrait.
Proof.
  split; [reflexivity |].
  destruct (manual_crop_takes_precedence Sample.decode (Some Sample.personDetector)
              ModelReady Sample.cropped Sample.portrait (Size.make 150 174)
              (Sample.picture "blob:cropped") freshWorld eq_refl eq_refl)
    as (canvas & R & D & _).
  exists canvas. split; [exact R | exact D].
Defined.

Lemma unusable_pose_falls_back_witness :
  PoseUnusable (estimatePoses Sample.faceDetector (Sample.picture "blob:staff"))
  /\ fst (croppedCanvasFor Sample.decode (Some Sample.faceDetector) ModelReady
            Sample.staff (Size.make 150 174) freshWorld)
     = fst (getCroppedCanvas Sample.decode "blob:staff" None (Size.make 150 174)
              freshWorld).
Proof.
  assert (U : PoseUnusable
                (estimatePoses Sample.faceDetector (Sample.picture "blob:staff"))).
  { right. right. right. eexists. eexists. split; [reflexivity |].
    right. eexists. split; [reflexivity |]. right. left. reflexivity. }
  split; [exact U |].
  exact (proj1 (proj2 (unusable_pose_falls_back Sample.decode Sample.faceDetector
                         Sample.staff (Size.make 150 174) (Sample.picture "blob:staff")
                         freshWorld eq_refl eq_refl eq_refl U))).
Defined.

(** ** The profile table *)

(** Claim C6.  [RESIZE_DEFINITIONS] holds the sizes of the profile table,
    with no size for a logo under PeakManager.  A logo that decodes is
    therefore exported under EPARK as one archive entry whose canvas is
    330 by 220, and skipped under PeakManager: no archive entry, no
    failure, and the image counted as processed. *)
Theorem logo_export_by_profile
    decode detector modelStatus quality image decoded s :
  type image = Logo ->
  decode (originalUrl image) = Some decoded ->
  RESIZE_DEFINITIONS EPARK Photo = Some (Size.make 660 440)
  /\ RESIZE_DEFINITIONS EPARK Staff = Some (Size.make 150 174)
  /\ RESIZE_DEFINITIONS EPARK Logo = Some (Size.make 330 220)
  /\ RESIZE_DEFINITIONS PeakManager Logo = None
  /\ (exists canvas,
        outcomeOf decode detector modelStatus EPARK quality image
        = Success (zipEntryName (fileName image), Build_Blob canvas quality)
        /\ canvasWidth canvas = 330%Z /\ canvasHeight canvas = 220%Z
        /\ zip (snd (handleProcess decode true detector modelStatus [image]
                       EPARK quality s))
           = [(zipEntryName (fileName image), Build_Blob canvas quality)])
  /\ outcomeOf decode detector modelStatus PeakManager quality image = Skipped
  /\ handleProcess decode true detector modelStatus [image] PeakManager quality s
     = (Ok tt, mkWorld Download (1%nat, 1%nat) [] (Some []) (errors s) (console s)
                       (estimated s)).
Proof.
  intros Ht Hd.
  repeat (split; [reflexivity |]).
  set (size := Size.make 330 220).
  set (canvas := Canvas 330 220 SmoothLow (Img decoded)
                        (sourceRect decoded (cropData image) size) (wholeTarget size)).
  assert (O : outcomeOf decode detector modelStatus EPARK quality image
              = Success (zipEntryName (fileName image), Build_Blob canvas quality)).
  { unfold outcomeOf, croppedCanvasFor, wantsAutoCrop, getCroppedCanvas.
    rewrite Ht. simpl RESIZE_DEFINITIONS. cbv iota.
    js_unfold. rewrite Hd. reflexivity. }
  assert (K : outcomeOf decode detector modelStatus PeakManager quality image = Skipped).
  { unfold outcomeOf. rewrite Ht. reflexivity. }
  split; [| split; [exact K |]].
  - exists canvas. repeat split; try reflexivity; [exact O |].
    destruct (handleProcess_run decode detector modelStatus EPARK quality [image] s)
      as (s1 & R & Z & _).
    rewrite R. simpl. rewrite Z. simpl. rewrite O. reflexivity.
  - unfold handleProcess, forEach, processImage. rewrite Ht.
    js_unfold. reflexivity.
Qed.

Lemma logo_export_by_profile_witness :
  type Sample.logo = Logo
  /\ Sample.decode (originalUrl Sample.logo) = Some (Sample.picture "blob:logo")
  /\ outcomeOf Sample.decode None ModelLoading PeakManager Sample.quality Sample.logo
     = Skipped.
Proof.
  split; [reflexivity | split; [reflexivity |]].
  exact (proj1 (proj2 (proj2 (proj2 (proj2 (proj2
           (logo_export_by_profile Sample.decode None ModelLoading Sample.quality
              Sample.logo (Sample.picture "blob:logo") freshWorld
              eq_refl eq_refl))))))).
Defined.

(** ** Geometry of the crop rectangles *)

Lemma Qgt_bool_iff (a b : Q) : Qgt_bool a b = true <-> b < a.
Proof.
  unfold Qgt_bool. rewrite negb_true_iff.
  destruct (Qle_bool a b) eqn:E.
  - apply Qle_bool_iff in E. split; [discriminate | lra].
  - split; [intros _ | reflexivity].
    destruct (Qlt_le_dec b a) as [L | L]; [exact L |].
    apply Qle_bool_iff in L. congruence.
Qed.

Lemma Qgt_bool_false (a b : Q) : Qgt_bool a b = false <-> a <= b.
Proof.
  unfold Qgt_bool. rewrite negb_false_iff. apply Qle_bool_iff.
Qed.

Lemma Qlt_bool_iff (a b : Q) : Qlt_bool a b = true <-> a < b.
Proof. apply Qgt_bool_iff. Qed.

Lemma Qlt_bool_false (a b : Q) : Qlt_bool a b = false <-> b <= a.
Proof. apply Qgt_bool_false. Qed.



Lemma inject_Z_positive (z : Z) : (0 < z)%Z -> 0 < inject_Z z.
Proof. intros H. rewrite Zlt_Qlt in H. exact H. Qed.

Lemma aspect_positive (targetSize : Size.t) :
  (0 < Size.pixelW targetSize)%Z -> (0 < Size.pixelH targetSize)%Z ->
  0 < Size.w targetSize / Size.h targetSize.
Proof.
  intros Hw Hh. unfold Size.w, Size.h.
  apply inject_Z_positive in Hw, Hh. apply Qlt_shift_div_l; [exact Hh | lra].
Qed.


(** ** The crop rectangle of an exported image *)

Lemma rect_eta (r : Rect.t) :
  Rect.make (Rect.x r) (Rect.y r) (Rect.width r) (Rect.height r) = r.
Proof. destruct r; reflexivity. Qed.

(** A portrait crop saved under EPARK and exported under PeakManager is
    used as it is, and does not have the aspect ratio of the square
    target: the invariant of claim C1 fails for a manual crop. *)
Lemma manual_crop_breaks_invariant :
  RESIZE_DEFINITIONS EPARK (type Sample.cropped) = Some (Size.make 150 174)
  /\ RESIZE_DEFINITIONS PeakManager (type Sample.cropped) = Some (Size.make 400 400)
  /\ exists canvas,
       croppedCanvasFor Sample.decode (Some Sample.personDetector) ModelReady
         Sample.cropped (Size.make 400 400) freshWorld = (Ok canvas, freshWorld)
       /\ drawnFrom canvas = Some Sample.portrait
       /\ ~ CropInvariant (Sample.picture "blob:cropped") (Size.make 400 400)
            Sample.portrait.
Proof.
  split; [reflexivity | split; [reflexivity |]].
  eexists. split; [reflexivity |]. split; [reflexivity |].
  intros [_ H]. apply Qabs_Qle_condition in H. destruct H as [H _].
  revert H. unfold Qle. vm_compute. intros H. apply H. reflexivity.
Qed.

(** ** Progressive resampling *)

Module ProgressiveFacts.
Import Progressive.

Lemma canvasSide_inject_Z (z : Z) : canvasSide (inject_Z z) = z.
Proof. unfold canvasSide. simpl. apply Z.quot_1_r. Qed.

Lemma floor_ge (z : Z) (q : Q) : inject_Z z <= q -> inject_Z z <= Math_floor q.
Proof.
  intros H. unfold Math_floor. rewrite <- Zle_Qle.
  rewrite <- (Qfloor_Z z). apply Qfloor_resp_le. exact H.
Qed.

Lemma floor_le (q : Q) : Math_floor q <= q.
Proof. apply Qfloor_le. Qed.

Lemma floor_gt (z : Z) (q : Q) : inject_Z z < q -> inject_Z z <= Math_floor q.
Proof. intros H. apply floor_ge. lra. Qed.

(** Halving a rounded number and rounding gives what halving the number
    and rounding gives. *)
Lemma floor_half_floor (q : Q) :
  Math_floor (Math_floor q / 2) == Math_floor (q / 2).
Proof.
  unfold Math_floor. apply inject_Z_injective.
  pose proof (Qfloor_le q) as A. pose proof (Qlt_floor q) as B.
  pose proof (Qfloor_le (q / 2)) as C. pose proof (Qlt_floor (q / 2)) as D.
  pose proof (Qfloor_le (inject_Z (Qfloor q) / 2)) as E.
  pose proof (Qlt_floor (inject_Z (Qfloor q) / 2)) as F.
  set (n := Qfloor q) in *. set (m := Qfloor (q / 2)) in *.
  set (k := Qfloor (inject_Z n / 2)) in *.
  rewrite inject_Z_plus in B, D, F. change (inject_Z 1) with 1 in *.
  assert (Q2 : forall x : Q, x / 2 == x * (1 # 2)) by (intros; field).
  rewrite Q2 in C, D, E, F.
  assert (L1 : inject_Z (2 * m) <= q) by (rewrite inject_Z_mult; change (inject_Z 2) with 2; lra).
  assert (L2 : q < inject_Z (2 * m + 2))
    by (rewrite inject_Z_plus, inject_Z_mult; change (inject_Z 2) with 2; lra).
  assert (L3 : inject_Z (2 * k) <= inject_Z n)
    by (rewrite inject_Z_mult; change (inject_Z 2) with 2; lra).
  assert (L4 : inject_Z n < inject_Z (2 * k + 2))
    by (rewrite inject_Z_plus, inject_Z_mult; change (inject_Z 2) with 2; lra).
  assert (M1 : inject_Z (2 * m) < inject_Z (n + 1))
    by (rewrite (inject_Z_plus n); change (inject_Z 1) with 1; lra).
  assert (M2 : inject_Z n < inject_Z (2 * m + 2)) by lra.
  rewrite <- Zle_Qle in L3. rewrite <- Zlt_Qlt in L4, M1, M2. lia.
Qed.

(** When the loop takes a turn, and what the turn does. *)
Lemma halveStep_Some (targetSize : Size.t) (s s' : LoopState) :
  halveStep targetSize s = Some s' <->
  (Size.w targetSize * 2 < currentWidth s
   /\ Size.h targetSize * 2 < currentHeight s
   /\ Size.w targetSize * (3 # 2) <= Math_floor (currentWidth s / 2))
  /\ s' = mkLoop
            (Canvas (canvasSide (Math_floor (currentWidth s / 2)))
                    (canvasSide (Math_floor (currentHeight s / 2))) SmoothMedium
                    (currentCanvas s)
                    (Rect.make 0 0 (currentWidth s) (currentHeight s))
                    (Rect.make 0 0 (Math_floor (currentWidth s / 2))
                               (Math_floor (currentHeight s / 2))))
            (Math_floor (currentWidth s / 2)) (Math_floor (currentHeight s / 2)).
Proof.
  unfold halveStep.
  destruct (Qgt_bool (currentWidth s) (Size.w targetSize * 2)) eqn:A;
    destruct (Qgt_bool (currentHeight s) (Size.h targetSize * 2)) eqn:B; simpl;
    try (destruct (Qlt_bool (Math_floor (currentWidth s / 2))
                            (Size.w targetSize * (3 # 2))) eqn:C);
    rewrite ?Qgt_bool_iff, ?Qgt_bool_false, ?Qlt_bool_iff, ?Qlt_bool_false in *;
    split; try discriminate; try (intros [(? & ? & ?) _]; lra).
  - intros E. injection E as <-. repeat split; assumption.
  - intros [_ ->]. reflexivity.
Qed.

Lemma halveStep_None (targetSize : Size.t) (s : LoopState) :
  halveStep targetSize s = None <->
  ~ (Size.w targetSize * 2 < currentWidth s
     /\ Size.h targetSize * 2 < currentHeight s
     /\ Size.w targetSize * (3 # 2) <= Math_floor (currentWidth s / 2)).
Proof.
  destruct (halveStep targetSize s) as [s'|] eqn:E.
  - apply halveStep_Some in E. destruct E as [C _].
    split; [discriminate | intros N; contradiction].
  - split; [| reflexivity]. intros _ C.
    assert (X : halveStep targetSize s <> None).
    { intros _. 
      pose proof (proj2 (halveStep_Some targetSize s _) (conj C eq_refl)) as Y.
      congruence. }
    contradiction.
Qed.

(** A turn of the loop makes the rounded width smaller, for a target of
    positive width. *)
Lemma halveStep_decreases (targetSize : Size.t) (s s' : LoopState) :
  (0 < Size.pixelW targetSize)%Z ->
  halveStep targetSize s = Some s' ->
  (Z.to_nat (Qfloor (currentWidth s')) < Z.to_nat (Qfloor (currentWidth s)))%nat.
Proof.
  intros Hw E. apply halveStep_Some in E. destruct E as [(A & _ & C) ->].
  simpl currentWidth. unfold Math_floor in *. rewrite Qfloor_Z.
  apply inject_Z_positive in Hw. fold (Size.w targetSize) in Hw.
  set (k := Qfloor (currentWidth s / 2)) in *.
  assert (K : (0 < k)%Z) by (rewrite Zlt_Qlt; change (inject_Z 0) with 0; lra).
  pose proof (Qfloor_le (currentWidth s / 2)) as L. fold k in L.
  assert (Q2 : currentWidth s / 2 == currentWidth s * (1 # 2)) by field.
  rewrite Q2 in L.
  assert (M : (2 * k <= Qfloor (currentWidth s))%Z).
  { rewrite <- (Qfloor_Z (2 * k)). apply Qfloor_resp_le.
    rewrite inject_Z_mult. change (inject_Z 2) with 2. lra. }
  lia.
Qed.

(** The loop ends: with enough turns allowed it stops in a state from
    which no turn is taken. *)
Lemma halving_terminates (targetSize : Size.t) :
  (0 < Size.pixelW targetSize)%Z ->
  forall (fuel : nat) (s : LoopState),
    (Z.to_nat (Qfloor (currentWidth s)) < fuel)%nat ->
    exists last,
      halving fuel targetSize s = Some last /\ halveStep targetSize last = None.
Proof.
  intros Hw fuel. induction fuel as [|fuel IH]; intros s Hm; [lia |].
  simpl. destruct (halveStep targetSize s) as [s'|] eqn:E.
  - apply IH. pose proof (halveStep_decreases targetSize s s' Hw E). lia.
  - exists s. split; [reflexivity | exact E].
Qed.

Lemma halving_more_fuel (targetSize : Size.t) (fuel : nat) :
  forall (s last : LoopState) (more : nat),
    halving fuel targetSize s = Some last -> (fuel <= more)%nat ->
    halving more targetSize s = Some last.
Proof.
  induction fuel as [|fuel IH]; intros s last more H L; [discriminate |].
  destruct more as [|more]; [lia |].
  simpl in *. destruct (halveStep targetSize s) as [s'|]; [| exact H].
  apply (IH s' last more H). lia.
Qed.

Lemma trace_head (targetSize : Size.t) (fuel : nat) (s : LoopState) :
  trace fuel targetSize s = s :: tl (trace fuel targetSize s).
Proof.
  destruct fuel; simpl; [reflexivity |].
  destruct (halveStep targetSize s); reflexivity.
Qed.

(** What holds after every turn holds of every intermediate state. *)
Lemma intermediates_invariant (targetSize : Size.t) (P Q : LoopState -> Prop) :
  (forall s s', P s -> halveStep targetSize s = Some s' -> P s' /\ Q s') ->
  forall (fuel : nat) (s s' : LoopState),
    P s -> In s' (intermediates fuel targetSize s) -> Q s'.
Proof.
  intros Step fuel. unfold intermediates.
  induction fuel as [|fuel IH]; intros s s' Hs Hin; [contradiction |].
  simpl in Hin. destruct (halveStep targetSize s) as [s1|] eqn:E; [| contradiction].
  simpl in Hin. destruct (Step s s1 Hs E) as [P1 Q1].
  rewrite trace_head in Hin. destruct Hin as [<- | Hin]; [exact Q1 |].
  exact (IH s1 s' P1 Hin).
Qed.

(** The width of a state reached by a turn is at least 1.5 times the
    target width, and its height at least the target height. *)
Lemma halveStep_bounds (targetSize : Size.t) (s s' : LoopState) :
  halveStep targetSize s = Some s' ->
  Size.w targetSize * (3 # 2) <= currentWidth s'
  /\ Size.h targetSize <= currentHeight s'.
Proof.
  intros E. apply halveStep_Some in E. destruct E as [(A & B & C) ->]. simpl.
  split; [exact C |].
  unfold Size.h in *. apply floor_gt.
  assert (Q2 : currentHeight s / 2 == currentHeight s * (1 # 2)) by field.
  rewrite Q2. lra.
Qed.

Lemma Math_floor_comp (a b : Q) : a == b -> Math_floor a == Math_floor b.
Proof. intros E. unfold Math_floor. now rewrite (Qfloor_comp a b E). Qed.

Lemma halveStep_keeps_aspect (targetSize : Size.t) (s s' : LoopState) :
  (0 < Size.pixelW targetSize)%Z ->
  (0 < Size.pixelH targetSize)%Z ->
  Z.even (Size.pixelH targetSize) = true ->
  KeepsAspect targetSize s ->
  halveStep targetSize s = Some s' ->
  KeepsAspect targetSize s'
  /\ Size.h targetSize * (3 # 2) <= currentHeight s'.
Proof.
  intros Hw Hh Hev (cw & ch & R & W & H) E.
  apply halveStep_Some in E. destruct E as [(A & B & C) ->]. simpl.
  assert (EW : Math_floor (currentWidth s / 2) == Math_floor (cw / 2)).
  { destruct W as [W | W].
    - apply Math_floor_comp. now rewrite W.
    - rewrite <- (floor_half_floor cw). apply Math_floor_comp. now rewrite W. }
  assert (EH : Math_floor (currentHeight s / 2) == Math_floor (ch / 2)).
  { destruct H as [H | H].
    - apply Math_floor_comp. now rewrite H.
    - rewrite <- (floor_half_floor ch). apply Math_floor_comp. now rewrite H. }
  split.
  - exists (cw / 2), (ch / 2). repeat split.
    + assert (X : ch / 2 * Size.w targetSize == ch * Size.w targetSize * (1 # 2)) by field.
      assert (Y : cw / 2 * Size.h targetSize == cw * Size.h targetSize * (1 # 2)) by field.
      rewrite X, Y, R. reflexivity.
    + right. exact EW.
    + right. exact EH.
  - rewrite EH. rewrite EW in C.
    pose proof (floor_le (cw / 2)) as L.
    apply inject_Z_positive in Hw. fold (Size.w targetSize) in Hw.
    assert (G : Size.h targetSize * (3 # 2) <= ch / 2).
    { assert (T : Size.w targetSize * (3 # 2) <= cw / 2) by lra.
      assert (U : Size.h targetSize * (3 # 2) * Size.w targetSize
                  <= ch / 2 * Size.w targetSize).
      { assert (X : ch / 2 * Size.w targetSize == cw / 2 * Size.h targetSize).
        { assert (X1 : ch / 2 * Size.w targetSize
                       == ch * Size.w targetSize * (1 # 2)) by field.
          rewrite X1, R. field. }
        rewrite X.
        apply inject_Z_positive in Hh. fold (Size.h targetSize) in Hh.
        assert (V : Size.w targetSize * (3 # 2) * Size.h targetSize
                    <= cw / 2 * Size.h targetSize)
          by (apply Qmult_le_compat_r; [assumption | lra]).
        lra. }
      apply Qmult_lt_0_le_reg_r in U; assumption. }
    destruct (Z.even_spec (Size.pixelH targetSize)) as [Ev _].
    destruct (Ev Hev) as [k Ek].
    assert (I : Size.h targetSize * (3 # 2) == inject_Z (3 * k)).
    { unfold Size.h. rewrite Ek, !inject_Z_mult.
      change (inject_Z 2) with 2. change (inject_Z 3) with 3. ring. }
    rewrite I in *. apply floor_ge. exact G.
Qed.

End ProgressiveFacts.

(** Claim C2, as the code has it.  For a target of positive size, the
    loop halves both sizes, rounding down, exactly when both exceed twice
    the target and the halved width is at least 1.5 times the target
    width.  Every intermediate canvas has a width of at least 1.5 times
    the target width and a height of at least the target height; its
    height is at least 1.5 times the target height too when the crop has
    exactly the target aspect ratio and the target height is even.  The
    loop ends, in a state where the condition for halving fails. *)
Theorem halving_rule (targetSize : Size.t) (s0 : Progressive.LoopState) :
  (0 < Size.pixelW targetSize)%Z -> (0 < Size.pixelH targetSize)%Z ->
  let halves (s : Progressive.LoopState) :=
    Size.w targetSize * 2 < Progressive.currentWidth s
    /\ Size.h targetSize * 2 < Progressive.currentHeight s
    /\ Size.w targetSize * (3 # 2)
       <= Math_floor (Progressive.currentWidth s / 2) in
  (forall s, Progressive.halveStep targetSize s <> None <-> halves s)
  /\ (forall s s',
        Progressive.halveStep targetSize s = Some s' ->
        Progressive.currentWidth s' == Math_floor (Progressive.currentWidth s / 2)
        /\ Progressive.currentHeight s' == Math_floor (Progressive.currentHeight s / 2)
        /\ canvasWidth (Progressive.currentCanvas s')
           = Qfloor (Progressive.currentWidth s / 2)
        /\ canvasHeight (Progressive.currentCanvas s')
           = Qfloor (Progressive.currentHeight s / 2))
  /\ (forall fuel s',
        In s' (Progressive.intermediates fuel targetSize s0) ->
        Size.w targetSize * (3 # 2) <= Progressive.currentWidth s'
        /\ Size.h targetSize <= Progressive.currentHeight s')
  /\ (Progressive.currentHeight s0 * Size.w targetSize
      == Progressive.currentWidth s0 * Size.h targetSize ->
      Z.even (Size.pixelH targetSize) = true ->
      forall fuel s',
        In s' (Progressive.intermediates fuel targetSize s0) ->
        Size.h targetSize * (3 # 2) <= Progressive.currentHeight s')
  /\ exists fuel last,
       (forall more, (fuel <= more)%nat ->
                     Progressive.halving more targetSize s0 = Some last)
       /\ ~ halves last.
Proof.
  intros Hw Hh halves.
  split; [| split; [| split; [| split]]].
  - intros s. split.
    + intros N. destruct (Progressive.halveStep targetSize s) as [s'|] eqn:E;
        [| congruence].
      apply ProgressiveFacts.halveStep_Some in E. apply E.
    + intros C E. apply ProgressiveFacts.halveStep_None in E. contradiction.
  - intros s s' E. apply ProgressiveFacts.halveStep_Some in E.
    destruct E as [_ ->].
    cbn [Progressive.currentWidth Progressive.currentHeight
         Progressive.currentCanvas canvasWidth canvasHeight].
    unfold Math_floor. rewrite !ProgressiveFacts.canvasSide_inject_Z.
    split; [reflexivity | split; [reflexivity | split; reflexivity]].
  - intros fuel s'.
    apply (ProgressiveFacts.intermediates_invariant targetSize
             (fun _ => True)
             (fun s' => Size.w targetSize * (3 # 2) <= Progressive.currentWidth s'
                        /\ Size.h targetSize <= Progressive.currentHeight s'));
      [| exact I].
    intros s s1 _ E. split; [exact I |].
    apply (ProgressiveFacts.halveStep_bounds targetSize s s1 E).
  - intros R Ev fuel s'.
    apply (ProgressiveFacts.intermediates_invariant targetSize
             (Progressive.KeepsAspect targetSize)
             (fun s' => Size.h targetSize * (3 # 2) <= Progressive.currentHeight s')).
    + intros s s1 K E.
      apply (ProgressiveFacts.halveStep_keeps_aspect targetSize s s1 Hw Hh Ev K E).
    + exists (Progressive.currentWidth s0), (Progressive.currentHeight s0).
      split; [exact R | split; left; reflexivity].
  - destruct (ProgressiveFacts.halving_terminates targetSize Hw
                (S (Z.to_nat (Qfloor (Progressive.currentWidth s0)))) s0
                (Nat.lt_succ_diag_r _)) as (last & T & N).
    exists (S (Z.to_nat (Qfloor (Progressive.currentWidth s0)))), last.
    split.
    + intros more L. exact (ProgressiveFacts.halving_more_fuel _ _ _ _ _ T L).
    + apply ProgressiveFacts.halveStep_None. exact N.
Qed.

Lemma halving_rule_witness :
  let targetSize := Size.make 150 174 in
  let s0 := Progressive.mkLoop (Img (Sample.picture "blob:staff")) 1200 1392 in
  (Progressive.currentHeight s0 * Size.w targetSize
   == Progressive.currentWidth s0 * Size.h targetSize)
  /\ Z.even (Size.pixelH targetSize) = true
  /\ forall fuel s',
       In s' (Progressive.intermediates fuel targetSize s0) ->
       Size.h targetSize * (3 # 2) <= Progressive.currentHeight s'.
Proof.
  intros targetSize s0.
  assert (R : Progressive.currentHeight s0 * Size.w targetSize
              == Progressive.currentWidth s0 * Size.h targetSize) by reflexivity.
  split; [exact R | split; [reflexivity |]].
  exact (proj1 (proj2 (proj2 (proj2
           (halving_rule targetSize s0 eq_refl eq_refl)))) R eq_refl).
Defined.

(** Claim C2 fails as it is stated.  For the target 150 by 174, a crop of
    400 by 464 has the target aspect ratio and exceeds 1.5 times the
    target in both axes, yet it is not halved: the final canvas is drawn
    from the crop itself.  And a square crop of 460 by 460 is halved to
    230 by 230, an intermediate lower than 1.5 times the target height. *)
Lemma halving_counterexample :
  let targetSize := Size.make 150 174 in
  let picture := Sample.picture "blob:staff" in
  let fits := Rect.make 0 0 400 464 in
  let square := Rect.make 0 0 460 460 in
  let cropCanvas r :=
    Canvas (canvasSide (Rect.width r)) (canvasSide (Rect.height r)) SmoothLow
           (Img picture) r (Rect.make 0 0 (Rect.width r) (Rect.height r)) in
  let start r := Progressive.mkLoop (cropCanvas r) (Rect.width r) (Rect.height r) in
  (Size.w targetSize * (3 # 2) < Rect.width fits
   /\ Size.h targetSize * (3 # 2) < Rect.height fits
   /\ Rect.width fits / Rect.height fits == Size.w targetSize / Size.h targetSize
   /\ Progressive.halveStep targetSize (start fits) = None
   /\ Progressive.intermediates 10 targetSize (start fits) = []
   /\ Progressive.getCroppedCanvas Sample.decode 10 "blob:staff" (Some fits) targetSize
      = Some (Ok (Canvas 150 174 SmoothHigh (cropCanvas fits)
                         (Rect.make 0 0 400 464) (wholeTarget targetSize))))
  /\ (exists s',
        Progressive.intermediates 10 targetSize (start square) = [s']
        /\ canvasHeight (Progressive.currentCanvas s') = 230%Z
        /\ Progressive.currentHeight s' == 230
        /\ Progressive.currentHeight s' < Size.h targetSize * (3 # 2)).
Proof.
  cbv zeta. split.
  - repeat split; reflexivity.
  - eexists. split; [reflexivity |]. repeat split; reflexivity.
Qed.

(** ** The size of the exported canvas *)




(** ** Archive entry names *)

(** Claim C10.  The archive entry of a file is named after the complete
    file name when the name has no '.' or has its only '.' in front, and
    after the part before the last '.' otherwise, with ".jpg" appended in
    both cases; every name falls in one of the three cases, and the part
    before ".jpg" is never empty for a file that has a name.  This is the
    name of the entry [handleProcess] adds to the archive for the file. *)
Theorem zipEntryName_cases (name : string) :
  (JsString.Free "." name ->
   zipEntryName name = name ++ ".jpg")
  /\ (forall rest, name = String "." rest -> JsString.Free "." rest ->
      zipEntryName name = name ++ ".jpg")
  /\ (forall stem ext, name = stem ++ String "." ext -> stem <> "" ->
      JsString.Free "." ext ->
      zipEntryName name = stem ++ ".jpg")
  /\ (JsString.Free "." name
      \/ (exists rest, name = String "." rest /\ JsString.Free "." rest)
      \/ (exists stem ext, name = stem ++ String "." ext /\ stem <> ""
                           /\ JsString.Free "." ext))
  /\ (name <> "" ->
      exists stem, stem <> "" /\ zipEntryName name = stem ++ ".jpg")
  /\ (forall decode detector modelStatus media quality image s entry,
        fileName image = name ->
        In entry (zip (snd (processImage decode detector modelStatus media quality
                              image s))) ->
        In entry (zip s) \/ fst entry = zipEntryName name).
Proof.
  assert (A : JsString.Free "." name -> zipEntryName name = name ++ ".jpg").
  { intros F. unfold zipEntryName.
    apply JsStringFacts.lastIndexOf_Free in F. rewrite F.
    rewrite JsStringFacts.substring_empty by lia. reflexivity. }
  assert (B : forall stem ext, name = stem ++ String "." ext ->
                JsString.Free "." ext ->
                zipEntryName name = JsString.or_else stem name ++ ".jpg").
  { intros stem ext -> F. unfold zipEntryName.
    rewrite JsStringFacts.lastIndexOf_split by exact F.
    now rewrite JsStringFacts.substring_head. }
  assert (D : JsString.Free "." name
      \/ (exists rest, name = String "." rest /\ JsString.Free "." rest)
      \/ (exists stem ext, name = stem ++ String "." ext /\ stem <> ""
                           /\ JsString.Free "." ext)).
  { destruct (JsStringFacts.split_last "." name) as [F | [p [q [E F]]]].
    - left. exact F.
    - right. destruct p as [|a p].
      + left. exists q. split; assumption.
      + right. exists (String a p), q. repeat split; [exact E | discriminate | exact F]. }
  split; [exact A |]. split; [| split; [| split; [exact D | split]]].
  - intros rest E F. rewrite (B "" rest E F). reflexivity.
  - intros stem ext E Hne F. rewrite (B stem ext E F).
    destruct stem; [congruence | reflexivity].
  - intros Hne. destruct D as [F | [[rest [E F]] | [stem [ext [E [Hs F]]]]]].
    + exists name. split; [exact Hne | exact (A F)].
    + exists name. split; [exact Hne |]. rewrite (B "" rest E F). reflexivity.
    + exists stem. split; [exact Hs |]. rewrite (B stem ext E F).
      destruct stem; [congruence | reflexivity].
  - intros decode detector modelStatus media quality image s entry Hname Hin.
    destruct (processImage_run decode detector modelStatus media quality image s)
      as (s' & R & Z & _).
    rewrite R in Hin. simpl in Hin. rewrite Z in Hin.
    apply in_app_or in Hin. destruct Hin as [Hin | Hin]; [left; exact Hin | right].
    unfold outcomeOf in Hin.
    destruct (RESIZE_DEFINITIONS media (type image)); [| contradiction].
    destruct (fst (croppedCanvasFor decode detector modelStatus image t freshWorld));
      [| contradiction].
    destruct Hin as [<- | []]. simpl. now rewrite Hname.
Qed.

Lemma zipEntryName_cases_witness :
  JsString.Free "." "photo"
  /\ zipEntryName "photo" = "photo.jpg"
  /\ zipEntryName ".env" = ".env.jpg"
  /\ zipEntryName "shop.top.png" = "shop.top.jpg".
Proof.
  assert (F : forall s, JsString.lastIndexOf s "." = (-1)%Z -> JsString.Free "." s)
    by (intros s; apply JsStringFacts.lastIndexOf_Free).
  split; [apply F; reflexivity | split; [| split]].
  - apply (zipEntryName_cases "photo"). apply F. reflexivity.
  - apply (proj1 (proj2 (zipEntryName_cases ".env")) "env"); [reflexivity |].
    apply F. reflexivity.
  - apply (proj1 (proj2 (proj2 (zipEntryName_cases "shop.top.png"))) "shop.top" "png").
    + reflexivity.
    + discriminate.
    + apply F. reflexivity.
Defined.

(** * Further properties of the code *)

(** ** Previews *)

Lemma canvasSide_floor (q : Q) : 0 <= q -> canvasSide q = Qfloor q.
Proof.
  intros H. unfold canvasSide. destruct q as [n d]. simpl.
  apply Z.quot_div_nonneg; [| reflexivity].
  unfold Qle in H. simpl in H. lia.
Qed.

Lemma canvasSide_bounds (q : Q) (m : Z) :
  0 <= q -> q <= inject_Z m -> (0 <= canvasSide q <= m)%Z.
Proof.
  intros H0 Hm. rewrite (canvasSide_floor q H0). split.
  - change 0%Z with (Qfloor 0). apply Qfloor_resp_le. exact H0.
  - rewrite <- (Qfloor_Z m). apply Qfloor_resp_le. exact Hm.
Qed.





Lemma getAutoCropRegion_result image targetSize det s1 s2 :
  fst (getAutoCropRegion image targetSize det s1)
  = fst (getAutoCropRegion image targetSize det s2).
Proof.
  unfold getAutoCropRegion. js_unfold.
  repeat break_match; simpl;
    repeat match goal with H : (_, _) = (_, _) |- _ => inversion H; clear H; subst end;
    try discriminate; reflexivity.
Qed.




Lemma getAutoCropRegion_autoRegion image targetSize det s :
  exists s',
    getAutoCropRegion image targetSize det s
    = (Ok (autoRegion image targetSize det), s').
Proof.
  destruct (getAutoCropRegion_run image targetSize det s) as (region & s' & R & _).
  exists s'. rewrite R. unfold autoRegion.
  rewrite (getAutoCropRegion_result image targetSize det freshWorld s), R.
  reflexivity.
Qed.

Ltac run_estimate :=
  match goal with
  | |- context [getAutoCropRegion ?i ?t ?d ?w] =>
      let s := fresh "s" in
      let E := fresh "E" in
      destruct (getAutoCropRegion_autoRegion i t d w) as (s & E); rewrite E
  end.

(** The preview of the last revision, as a function of the rectangle it
    is drawn from. *)
Lemma createOrUpdateThumbnail_run
    decode imageUrl targetSize cropData imageType detector image s :
  decode imageUrl = Some image ->
  let r := chosenRect image targetSize cropData
             (previewTriesPose imageType detector) detector in
  exists s',
    Thumbnails.createOrUpdateThumbnail decode imageUrl targetSize cropData imageType
      detector s
    = (Ok (DataUrl None
             (Canvas (canvasSide (fst (Thumbnails.previewSize r)))
                     (canvasSide (snd (Thumbnails.previewSize r))) SmoothLow
                     (Img image) r
                     (Rect.make 0 0 (fst (Thumbnails.previewSize r))
                                (snd (Thumbnails.previewSize r))))
             (85 # 100)), s').
Proof.
  intros Hd r. subst r.
  unfold Thumbnails.createOrUpdateThumbnail, chosenRect, previewTriesPose. rewrite Hd.
  destruct cropData as [crop|].
  - unfold bind, ret. rewrite rect_eta.
    destruct (Thumbnails.previewSize crop). eexists. reflexivity.
  - destruct imageType; try destruct detector as [d|]; unfold bind, ret;
      try (destruct (Thumbnails.previewSize (coverCropRect image targetSize));
           eexists; reflexivity).
    run_estimate.
    destruct (autoRegion image targetSize (Some d)) as [region|].
    + rewrite rect_eta. destruct (Thumbnails.previewSize region).
      eexists. reflexivity.
    + destruct (Thumbnails.previewSize (coverCropRect image targetSize)).
      eexists. reflexivity.
Qed.

(** The canvas exported, as a function of the rectangle it is drawn
    from. *)
Lemma croppedCanvasFor_chosen
    decode detector modelStatus (image : ImageItem) targetSize decoded s :
  decode (originalUrl image) = Some decoded ->
  exists s',
    croppedCanvasFor decode detector modelStatus image targetSize s
    = (Ok (Canvas (canvasSide (Size.w targetSize)) (canvasSide (Size.h targetSize))
                  SmoothLow (Img decoded)
                  (chosenRect decoded targetSize (cropData image)
                     (wantsAutoCrop detector modelStatus image) detector)
                  (wholeTarget targetSize)), s').
Proof.
  intros Hd. unfold croppedCanvasFor.
  destruct (wantsAutoCrop detector modelStatus image) eqn:Wa.
  - assert (Hc : cropData image = None).
    { unfold wantsAutoCrop in Wa. destruct (type image), (cropData image);
        try discriminate; reflexivity. }
    rewrite Hc. unfold chosenRect, getAutoCroppedCanvas, getCroppedCanvas.
    js_unfold. rewrite Hd. run_estimate.
    destruct (autoRegion decoded targetSize detector) as [region|].
    + rewrite rect_eta. eexists. reflexivity.
    + eexists. reflexivity.
  - unfold getCroppedCanvas, chosenRect, sourceRect. js_unfold. rewrite Hd.
    destruct (cropData image) as [crop|]; [rewrite rect_eta |]; eexists; reflexivity.
Qed.

(** The preview shows what is exported: for a picture that loads, with
    the detector either absent or ready, the preview of an image and the
    canvas [handleProcess] exports for it are drawn from the same
    rectangle of the same picture, whether that is the manual crop, the
    pose estimate or the centred cover crop. *)
Theorem preview_shows_export
    decode detector modelStatus (image : ImageItem) targetSize decoded s1 s2 :
  decode (originalUrl image) = Some decoded ->
  detector = None \/ modelStatus = ModelReady ->
  exists preview exported r w1 w2,
    Thumbnails.createOrUpdateThumbnail decode (originalUrl image) targetSize
      (cropData image) (type image) detector s1
    = (Ok (DataUrl None preview (85 # 100)), w1)
    /\ croppedCanvasFor decode detector modelStatus image targetSize s2
       = (Ok exported, w2)
    /\ drawnFrom preview = Some r /\ drawnFrom exported = Some r
    /\ exists pw ph,
         preview = Canvas (canvasSide pw) (canvasSide ph) SmoothLow (Img decoded) r
                          (Rect.make 0 0 pw ph)
         /\ exported = Canvas (canvasSide (Size.w targetSize))
                              (canvasSide (Size.h targetSize)) SmoothLow
                              (Img decoded) r (wholeTarget targetSize).
Proof.
  intros Hd Hm.
  destruct (createOrUpdateThumbnail_run decode (originalUrl image) targetSize
              (cropData image) (type image) detector decoded s1 Hd) as (w1 & R1).
  destruct (croppedCanvasFor_chosen decode detector modelStatus image targetSize
              decoded s2 Hd) as (w2 & R2).
  assert (Same : chosenRect decoded targetSize (cropData image)
                   (previewTriesPose (type image) detector) detector
                 = chosenRect decoded targetSize (cropData image)
                     (wantsAutoCrop detector modelStatus image) detector).
  { unfold chosenRect, wantsAutoCrop, previewTriesPose.
    destruct (cropData image); [reflexivity |].
    destruct (type image); try reflexivity.
    destruct detector as [d|]; [| reflexivity].
    destruct Hm as [Hm | ->]; [discriminate | reflexivity]. }
  cbv zeta in R1. rewrite <- Same in R2.
  eexists. eexists. eexists. exists w1, w2.
  split; [exact R1 |]. split; [exact R2 |].
  split; [reflexivity |]. split; [reflexivity |].
  eexists. eexists. split; reflexivity.
Qed.

Lemma preview_shows_export_witness :
  Sample.decode (originalUrl Sample.staff) = Some (Sample.picture "blob:staff")
  /\ exists preview exported r w1 w2,
       Thumbnails.createOrUpdateThumbnail Sample.decode "blob:staff"
         (Size.make 150 174) None Staff (Some Sample.personDetector) freshWorld
       = (Ok (DataUrl None preview (85 # 100)), w1)
       /\ croppedCanvasFor Sample.decode (Some Sample.personDetector) ModelReady
            Sample.staff (Size.make 150 174) freshWorld = (Ok exported, w2)
       /\ drawnFrom preview = Some r /\ drawnFrom exported = Some r.
Proof.
  split; [reflexivity |].
  destruct (preview_shows_export Sample.decode (Some Sample.personDetector) ModelReady
              Sample.staff (Size.make 150 174) (Sample.picture "blob:staff")
              freshWorld freshWorld eq_refl (or_intror eq_refl))
    as (preview & exported & r & w1 & w2 & R1 & R2 & D1 & D2 & _).
  exists preview, exported, r, w1, w2.
  split; [exact R1 | split; [exact R2 | split; [exact D1 | exact D2]]].
Defined.

(** ** The edit screen *)

Lemma outcomeOf_Skipped decode detector modelStatus media quality image :
  outcomeOf decode detector modelStatus media quality image = Skipped
  <-> RESIZE_DEFINITIONS media (type image) = None.
Proof.
  unfold outcomeOf. destruct (RESIZE_DEFINITIONS media (type image)) as [t|].
  - destruct (fst (croppedCanvasFor decode detector modelStatus image t freshWorld));
      split; discriminate.
  - split; reflexivity.
Qed.

Lemma entriesOf_quality decode detector modelStatus media quality image entry :
  In entry (entriesOf (outcomeOf decode detector modelStatus media quality image)) ->
  blobQuality (snd entry) = quality /\ fst entry = zipEntryName (fileName image).
Proof.
  unfold outcomeOf. destruct (RESIZE_DEFINITIONS media (type image)) as [t|];
    [| contradiction].
  destruct (fst (croppedCanvasFor decode detector modelStatus image t freshWorld));
    [| contradiction].
  intros [<- | []]. split; reflexivity.
Qed.

(** The button that starts the export hands over the images that have a
    size under the chosen profile, in order, and only those; with none it
    starts nothing.  The batch then ends normally with no image skipped,
    its archive is the one the whole list would give, the progress counts
    the images handed over, and every entry is encoded at a tenth of the
    slider position. *)
Theorem handleProcessClick_batch
    decode detector modelStatus media (images : list Card.t) quality s :
  let click :=
    EditScreen.handleProcessClick decode true detector modelStatus media images
      quality s in
  let out := outcomeOf decode detector modelStatus media (quality / 10) in
  let batch := filter (EditScreen.hasTarget media) images in
  (click = EditScreen.NothingToProcess <->
   forall img, In img images ->
               RESIZE_DEFINITIONS media (type (Card.item img)) = None)
  /\ (forall r,
        click = EditScreen.Processed r ->
        r = handleProcess decode true detector modelStatus (map Card.item batch)
              media (quality / 10) s
        /\ fst r = Ok tt
        /\ (forall img, In img batch -> out (Card.item img) <> Skipped)
        /\ zip (snd r) = flat_map (fun img => entriesOf (out (Card.item img))) images
        /\ processingProgress (snd r) = (List.length batch, List.length batch)
        /\ (forall entry, In entry (zip (snd r)) ->
                          blobQuality (snd entry) = quality / 10)).
Proof.
  intros click out batch. split.
  - subst click. unfold EditScreen.handleProcessClick. fold batch. split.
    + intros E img Hin.
      destruct (RESIZE_DEFINITIONS media (type (Card.item img))) as [t|] eqn:T;
        [| reflexivity].
      assert (B : In img batch).
      { apply filter_In. split; [exact Hin |].
        unfold EditScreen.hasTarget. now rewrite T. }
      destruct batch; [contradiction | discriminate].
    + intros A. destruct batch as [|img rest] eqn:B; [reflexivity |].
      assert (Hin : In img (filter (EditScreen.hasTarget media) images))
        by (fold batch; rewrite B; left; reflexivity).
      apply filter_In in Hin. destruct Hin as [Hin T].
      unfold EditScreen.hasTarget in T. rewrite (A img Hin) in T. discriminate.
  - intros r E. subst click. unfold EditScreen.handleProcessClick in E. fold batch in E.
    assert (R : r = handleProcess decode true detector modelStatus
                      (map Card.item batch) media (quality / 10) s).
    { destruct batch; [discriminate | injection E as <-; reflexivity]. }
    split; [exact R |].
    destruct (handleProcess_run decode detector modelStatus media (quality / 10)
                (map Card.item batch) s) as (s' & Run & Z & _ & P & _).
    rewrite Run in R. subst r. simpl fst. simpl snd. fold out in Z.
    assert (F : flat_map (fun image => entriesOf (out image)) (map Card.item batch)
                = flat_map (fun img => entriesOf (out (Card.item img))) images).
    { subst batch. clear. induction images as [|img images IH]; [reflexivity |].
      simpl. unfold EditScreen.hasTarget at 1.
      destruct (RESIZE_DEFINITIONS media (type (Card.item img))) as [t|] eqn:T.
      - simpl. now rewrite IH.
      - rewrite IH.
        assert (O : out (Card.item img) = Skipped)
          by (apply outcomeOf_Skipped; exact T).
        now rewrite O. }
    split; [reflexivity |]. split; [| split; [| split]].
    + intros img Hin O. apply outcomeOf_Skipped in O.
      apply filter_In in Hin. destruct Hin as [_ T].
      unfold EditScreen.hasTarget in T. rewrite O in T. discriminate.
    + rewrite Z. exact F.
    + rewrite P, length_map. reflexivity.
    + intros entry Hin. rewrite Z in Hin. apply in_flat_map in Hin.
      destruct Hin as (image & _ & Hin).
      apply (entriesOf_quality decode detector modelStatus media (quality / 10)
               image entry Hin).
Qed.

Lemma handleProcessClick_batch_witness :
  exists r,
    EditScreen.handleProcessClick Sample.decode true None ModelLoading PeakManager
      [SampleCards.shop; SampleCards.logo] SampleCards.slider freshWorld
    = EditScreen.Processed r
    /\ processingProgress (snd r) = (1%nat, 1%nat).
Proof.
  eexists. split; [reflexivity |].
  pose proof (handleProcessClick_batch Sample.decode None ModelLoading PeakManager
                [SampleCards.shop; SampleCards.logo] SampleCards.slider freshWorld) as T.
  cbv zeta in T. destruct T as [_ T].
  destruct (T _ eq_refl) as (_ & _ & _ & _ & P & _). exact P.
Defined.

Lemma findCard_Some images id img :
  EditScreen.findCard images id = Some img -> In img images /\ Card.id img = id.
Proof.
  unfold EditScreen.findCard. intros F. apply find_some in F.
  destruct F as [Hin E]. apply String.eqb_eq in E. split; assumption.
Qed.

Lemma findCard_None images id :
  EditScreen.findCard images id = None <->
  forall img, In img images -> Card.id img <> id.
Proof.
  unfold EditScreen.findCard. split.
  - intros F img Hin E. pose proof (find_none _ _ F img Hin) as N. simpl in N.
    apply String.eqb_neq in N. contradiction.
  - intros A. destruct (find _ images) as [img|] eqn:F; [| reflexivity].
    apply find_some in F. destruct F as [Hin E]. apply String.eqb_eq in E.
    exfalso. exact (A img Hin E).
Qed.

(** What replacing the cards of one identifier does to the list. *)
Lemma map_by_id (f : Card.t -> Card.t) (images : list Card.t) (id : string) :
  (forall img, Card.id (f img) = Card.id img) ->
  let images' := map (fun img => if String.eqb (Card.id img) id then f img else img)
                     images in
  map Card.id images' = map Card.id images
  /\ (forall img', In img' images' ->
        (Card.id img' <> id /\ In img' images)
        \/ (Card.id img' = id /\ exists img, In img images /\ Card.id img = id
                                              /\ img' = f img))
  /\ (forall img, In img images -> Card.id img <> id -> In img images').
Proof.
  intros Hf images'. subst images'. split; [| split].
  - rewrite map_map. apply map_ext. intros img.
    destruct (String.eqb (Card.id img) id); [apply Hf | reflexivity].
  - intros img' Hin. apply in_map_iff in Hin. destruct Hin as (img & E & Hin).
    destruct (String.eqb_spec (Card.id img) id) as [Eid | Nid].
    + right. subst img'. rewrite Hf. split; [exact Eid |].
      exists img. repeat split; assumption.
    + left. subst img'. split; assumption.
  - intros img Hin Nid. apply in_map_iff. exists img. split; [| exact Hin].
    apply String.eqb_neq in Nid. now rewrite Nid.
Qed.

(** Changing the category of an image drops its manual crop.  When the
    change goes through, the cards keep their order and identifiers, the
    cards of other identifiers are untouched, and the cards changed have
    the new category and no manual crop, so that what is exported for
    them, the category not being Staff, is drawn from the centred cover
    crop again.  An unknown identifier changes nothing; a picture that
    does not load rejects, and nothing is set. *)
Theorem handleTypeChange_drops_crop
    decode detector modelStatus media (images : list Card.t) id newType s :
  (EditScreen.findCard images id = None ->
   EditScreen.handleTypeChange decode detector media images id newType s
   = (Ok images, s))
  /\ (forall img targetSize,
        EditScreen.findCard images id = Some img ->
        RESIZE_DEFINITIONS media newType = Some targetSize ->
        decode (originalUrl (Card.item img)) = None ->
        EditScreen.handleTypeChange decode detector media images id newType s
        = (Raise (LoadError (originalUrl (Card.item img))), s))
  /\ (forall images' s',
        EditScreen.handleTypeChange decode detector media images id newType s
        = (Ok images', s') ->
        map Card.id images' = map Card.id images
        /\ (forall img, In img images -> Card.id img <> id -> In img images')
        /\ (forall img', In img' images' ->
              (Card.id img' <> id /\ In img' images)
              \/ (Card.id img' = id
                  /\ type (Card.item img') = newType
                  /\ cropData (Card.item img') = None
                  /\ (exists img, In img images
                                  /\ fileName (Card.item img') = fileName (Card.item img)
                                  /\ originalUrl (Card.item img')
                                     = originalUrl (Card.item img))
                  /\ (forall targetSize decoded w,
                        newType <> Staff ->
                        decode (originalUrl (Card.item img')) = Some decoded ->
                        exists canvas w',
                          croppedCanvasFor decode detector modelStatus
                            (Card.item img') targetSize w = (Ok canvas, w')
                          /\ drawnFrom canvas
                             = Some (coverCropRect decoded targetSize))))).
Proof.
  split; [| split].
  - intros F. unfold EditScreen.handleTypeChange. now rewrite F.
  - intros img targetSize F T D. unfold EditScreen.handleTypeChange.
    rewrite F, T. unfold Thumbnails.createOrUpdateThumbnail. rewrite D.
    reflexivity.
  - intros images' s' R. unfold EditScreen.handleTypeChange in R.
    destruct (EditScreen.findCard images id) as [found|] eqn:Found.
    + unfold bind in R.
      destruct (match RESIZE_DEFINITIONS media newType with
                | Some targetSize =>
                    Thumbnails.createOrUpdateThumbnail decode
                      (originalUrl (Card.item found)) targetSize None newType detector
                | None => ret (Card.thumbnailUrl found)
                end s) as [[thumbnail|e] s1]; [| discriminate].
      unfold ret in R. injection R as <- _.
      destruct (map_by_id (EditScreen.withType newType thumbnail) images id
                  (fun img => eq_refl)) as (Ids & Cases & Kept).
      split; [exact Ids |]. split; [exact Kept |].
      intros img' Hin. destruct (Cases img' Hin) as [L | (Eid & img & Hi & _ & ->)];
        [left; exact L | right].
      split; [exact Eid |]. split; [reflexivity |]. split; [reflexivity |].
      split; [exists img; repeat split; assumption |].
      intros targetSize decoded w Ns Hd.
      destruct (croppedCanvasFor_chosen decode detector modelStatus
                  (Card.item (EditScreen.withType newType thumbnail img)) targetSize
                  decoded w Hd) as (w' & Run).
      eexists. exists w'. split; [exact Run |].
      simpl. unfold chosenRect, wantsAutoCrop. simpl.
      destruct newType; try reflexivity. contradiction.
    + unfold ret in R. injection R as <- _.
      split; [reflexivity |]. split; [intros img Hin _; exact Hin |].
      intros img' Hin. left. split; [| exact Hin].
      apply (proj1 (findCard_None images id) Found img' Hin).
Qed.

Lemma handleTypeChange_drops_crop_witness :
  exists images' s',
    EditScreen.handleTypeChange Sample.decode None EPARK
      [SampleCards.shop; SampleCards.cropped] "staff-3" Photo freshWorld
    = (Ok images', s')
    /\ map Card.id images' = ["shop-1"; "staff-3"]
    /\ In SampleCards.shop images'.
Proof.
  eexists. eexists. split; [reflexivity |].
  destruct (proj2 (proj2 (handleTypeChange_drops_crop Sample.decode None ModelLoading
                            EPARK [SampleCards.shop; SampleCards.cropped] "staff-3"
                            Photo freshWorld)) _ _ eq_refl) as (Ids & Kept & _).
  split; [exact Ids |].
  apply Kept; [left; reflexivity | discriminate].
Defined.

Lemma createOrUpdateThumbnail_manual
    decode imageUrl targetSize crop imageType detector image s :
  decode imageUrl = Some image ->
  Thumbnails.createOrUpdateThumbnail decode imageUrl targetSize (Some crop) imageType
    detector s
  = (Ok (DataUrl None
           (Canvas (canvasSide (fst (Thumbnails.previewSize crop)))
                   (canvasSide (snd (Thumbnails.previewSize crop))) SmoothLow
                   (Img image) crop
                   (Rect.make 0 0 (fst (Thumbnails.previewSize crop))
                              (snd (Thumbnails.previewSize crop))))
           (85 # 100)), s).
Proof.
  intros Hd. unfold Thumbnails.createOrUpdateThumbnail. rewrite Hd.
  unfold bind, ret. rewrite rect_eta.
  destruct (Thumbnails.previewSize crop). reflexivity.
Qed.

(** Saving a manual crop never throws and leaves the state of the
    application alone.  It is ignored for an unknown identifier and for a
    category the profile excludes; when the picture does not load, the
    failure is reported and the images stay as they are; otherwise the
    cards of that identifier, and only they, get the crop, and what is
    then exported for them is drawn from exactly that crop. *)
Theorem handleCropSave_round_trip
    decode detector media (images : list Card.t) id crop s :
  exists r,
    EditScreen.handleCropSave decode detector media images id crop s = (Ok r, s)
    /\ (r = EditScreen.CropIgnored <->
        EditScreen.findCard images id = None
        \/ exists img, EditScreen.findCard images id = Some img
                       /\ RESIZE_DEFINITIONS media (type (Card.item img)) = None)
    /\ (forall e,
          r = EditScreen.CropPreviewFailed e ->
          exists img, EditScreen.findCard images id = Some img
                      /\ decode (originalUrl (Card.item img)) = None
                      /\ e = LoadError (originalUrl (Card.item img)))
    /\ (forall images',
          r = EditScreen.CropSaved images' ->
          map Card.id images' = map Card.id images
          /\ (forall img, In img images -> Card.id img <> id -> In img images')
          /\ (forall img', In img' images' ->
                (Card.id img' <> id /\ In img' images)
                \/ (Card.id img' = id
                    /\ cropData (Card.item img') = Some crop
                    /\ (exists img, In img images
                                    /\ type (Card.item img') = type (Card.item img)
                                    /\ fileName (Card.item img') = fileName (Card.item img)
                                    /\ originalUrl (Card.item img')
                                       = originalUrl (Card.item img))
                    /\ (forall detector' modelStatus targetSize decoded w,
                          decode (originalUrl (Card.item img')) = Some decoded ->
                          exists canvas,
                            croppedCanvasFor decode detector' modelStatus
                              (Card.item img') targetSize w = (Ok canvas, w)
                            /\ drawnFrom canvas = Some crop)))).
Proof.
  unfold EditScreen.handleCropSave.
  destruct (EditScreen.findCard images id) as [found|] eqn:Found.
  - destruct (RESIZE_DEFINITIONS media (type (Card.item found))) as [targetSize|] eqn:T.
    + unfold try_catch, bind.
      destruct (decode (originalUrl (Card.item found))) as [decoded|] eqn:D.
      * rewrite (createOrUpdateThumbnail_manual decode _ targetSize crop _ detector
                   decoded s D).
        unfold ret.
        eexists. split; [reflexivity |].
        split; [split; [discriminate |] |].
        { intros [N | (img & E & N)]; [discriminate |].
          injection E as <-. rewrite T in N. discriminate. }
        split; [discriminate |].
        intros images' E. injection E as <-.
        match goal with
        | |- context [EditScreen.withCrop crop ?t] =>
            destruct (map_by_id (EditScreen.withCrop crop t) images id
                        (fun img => eq_refl)) as (Ids & Cases & Kept)
        end.
        split; [exact Ids |]. split; [exact Kept |].
        intros img' Hin.
        destruct (Cases img' Hin) as [L | (Eid & img & Hi & _ & ->)];
          [left; exact L | right].
        split; [exact Eid |]. split; [reflexivity |].
        split; [exists img; repeat split; assumption |].
        intros detector' modelStatus targetSize' decoded' w Hd.
        unfold croppedCanvasFor, wantsAutoCrop, getCroppedCanvas. js_unfold.
        simpl in Hd. simpl. rewrite Hd.
        destruct (type (Card.item img)); simpl; rewrite rect_eta;
          eexists; split; reflexivity.
      * unfold Thumbnails.createOrUpdateThumbnail. rewrite D.
        unfold throw, ret. eexists. split; [reflexivity |].
        split; [split; [discriminate |] |].
        { intros [N | (img & E & N)]; [discriminate |].
          injection E as <-. rewrite T in N. discriminate. }
        split; [| discriminate].
        intros e E. injection E as <-. exists found. repeat split. exact D.
    + unfold ret. eexists. split; [reflexivity |].
      split; [split; [intros _ | reflexivity] |].
      { right. exists found. split; [reflexivity | exact T]. }
      split; discriminate.
  - unfold ret. eexists. split; [reflexivity |].
    split; [split; [intros _; left; reflexivity | reflexivity] |].
    split; discriminate.
Qed.

Lemma handleCropSave_round_trip_witness :
  exists images' canvas,
    EditScreen.handleCropSave Sample.decode (Some Sample.personDetector) EPARK
      [SampleCards.shop; SampleCards.staff] "staff-2" Sample.portrait freshWorld
    = (Ok (EditScreen.CropSaved images'), freshWorld)
    /\ In SampleCards.shop images'
    /\ croppedCanvasFor Sample.decode (Some Sample.personDetector) ModelReady
         (mkItem "staff_02.jpg" "blob:staff" Staff (Some Sample.portrait))
         (Size.make 150 174) freshWorld = (Ok canvas, freshWorld)
    /\ drawnFrom canvas = Some Sample.portrait.
Proof.
  destruct (handleCropSave_round_trip Sample.decode (Some Sample.personDetector) EPARK
              [SampleCards.shop; SampleCards.staff] "staff-2" Sample.portrait
              freshWorld) as (r & Run & _ & _ & Saved).
  assert (E : exists images', r = EditScreen.CropSaved images').
  { revert Run. vm_compute. intros Run. injection Run as <-. eexists. reflexivity. }
  destruct E as (images' & ->).
  destruct (Saved images' eq_refl) as (_ & Kept & Cases).
  assert (Hin : In (EditScreen.withCrop Sample.portrait
                      (DataUrl None
                         (Canvas (canvasSide (fst (Thumbnails.previewSize Sample.portrait)))
                                 (canvasSide (snd (Thumbnails.previewSize Sample.portrait)))
                                 SmoothLow (Img (Sample.picture "blob:staff"))
                                 Sample.portrait
                                 (Rect.make 0 0
                                    (fst (Thumbnails.previewSize Sample.portrait))
                                    (snd (Thumbnails.previewSize Sample.portrait))))
                         (85 # 100)) SampleCards.staff) images').
  { revert Run. vm_compute. intros Run. injection Run as <-.
    right. left. reflexivity. }
  destruct (Cases _ Hin) as [[N _] | (_ & _ & _ & Export)];
    [exfalso; apply N; reflexivity |].
  destruct (Export (Some Sample.personDetector) ModelReady (Size.make 150 174)
              (Sample.picture "blob:staff") freshWorld eq_refl) as (canvas & R & D).
  exists images', canvas.
  split; [exact Run |].
  split; [apply Kept; [left; reflexivity | discriminate] |].
  split; [exact R | exact D].
Defined.

(** ** Taking files in *)

Lemma rejectionErrors_In (rejection : UploadScreen.Rejection)
    (e : UploadScreen.UploadError) :
  In e (UploadScreen.rejectionErrors rejection) <->
  (e = UploadScreen.FileTooLarge (File.name (UploadScreen.file rejection))
   /\ In "file-too-large" (UploadScreen.errors rejection))
  \/ (e = UploadScreen.InvalidFileType (File.name (UploadScreen.file rejection))
      /\ In "file-invalid-type" (UploadScreen.errors rejection)).
Proof.
  unfold UploadScreen.rejectionErrors.
  induction (UploadScreen.errors rejection) as [|code codes IH]; simpl.
  - split; [intros [] | intros [[_ []] | [_ []]]].
  - rewrite !in_app_iff, IH. clear IH.
    destruct (String.eqb_spec code "file-too-large") as [E1 | N1];
      destruct (String.eqb_spec code "file-invalid-type") as [E2 | N2];
      simpl; subst; try discriminate; intuition (try congruence).
Qed.

Lemma rejectionErrors_nil (rejection : UploadScreen.Rejection) :
  UploadScreen.rejectionErrors rejection = [] <->
  forall code, In code (UploadScreen.errors rejection) ->
               code <> "file-too-large" /\ code <> "file-invalid-type".
Proof.
  split.
  - intros E code Hc. split; intros ->.
    + assert (X : In (UploadScreen.FileTooLarge (File.name (UploadScreen.file rejection)))
                     (UploadScreen.rejectionErrors rejection))
        by (apply rejectionErrors_In; left; split; [reflexivity | exact Hc]).
      rewrite E in X. contradiction.
    + assert (X : In (UploadScreen.InvalidFileType
                        (File.name (UploadScreen.file rejection)))
                     (UploadScreen.rejectionErrors rejection))
        by (apply rejectionErrors_In; right; split; [reflexivity | exact Hc]).
      rewrite E in X. contradiction.
  - intros A. destruct (UploadScreen.rejectionErrors rejection) as [|e es] eqn:E;
      [reflexivity |].
    assert (X : In e (UploadScreen.rejectionErrors rejection))
      by (rewrite E; left; reflexivity).
    apply rejectionErrors_In in X.
    destruct X as [[_ Hc] | [_ Hc]]; apply A in Hc; destruct Hc; congruence.
Qed.

(** The drop zone hands files over only when the drop holds at most 30
    files and no file was rejected for its size or its type: then all the
    accepted files go on, unchanged and in order.  One file too many, too
    large or of a wrong type blocks the whole drop, and the messages name
    exactly the files rejected for their size or their type. *)
Theorem onDrop_guard (acceptedFiles : list File.t)
    (fileRejections : list UploadScreen.Rejection) :
  let total := (List.length acceptedFiles + List.length fileRejections)%nat in
  let clean :=
    forall rejection code,
      In rejection fileRejections -> In code (UploadScreen.errors rejection) ->
      code <> "file-too-large" /\ code <> "file-invalid-type" in
  (forall files,
      UploadScreen.onDrop acceptedFiles fileRejections = UploadScreen.DropAccepted files
      <-> files = acceptedFiles /\ acceptedFiles <> [] /\ (total <= 30)%nat /\ clean)
  /\ (UploadScreen.onDrop acceptedFiles fileRejections = UploadScreen.DropNothing
      <-> acceptedFiles = [] /\ (total <= 30)%nat /\ clean)
  /\ (forall currentErrors,
        UploadScreen.onDrop acceptedFiles fileRejections
        = UploadScreen.DropErrors currentErrors ->
        currentErrors <> []
        /\ (In UploadScreen.TooManyFiles currentErrors <-> (30 < total)%nat)
        /\ (forall name,
              In (UploadScreen.FileTooLarge name) currentErrors <->
              exists rejection,
                In rejection fileRejections
                /\ File.name (UploadScreen.file rejection) = name
                /\ In "file-too-large" (UploadScreen.errors rejection))
        /\ (forall name,
              In (UploadScreen.InvalidFileType name) currentErrors <->
              exists rejection,
                In rejection fileRejections
                /\ File.name (UploadScreen.file rejection) = name
                /\ In "file-invalid-type" (UploadScreen.errors rejection))).
Proof.
  intros total clean.
  assert (C : flat_map UploadScreen.rejectionErrors fileRejections = [] <-> clean).
  { subst clean. induction fileRejections as [|r rs IH]; simpl.
    - split; [intros _ r code [] | reflexivity].
    - split.
      + intros E. apply app_eq_nil in E. destruct E as [E1 E2].
        intros r' code [Er | Hin] Hc.
        * subst r'. apply (proj1 (rejectionErrors_nil r) E1 code Hc).
        * apply (proj1 IH E2 r' code Hin Hc).
      + intros A. 
        assert (E1 : UploadScreen.rejectionErrors r = []).
        { apply rejectionErrors_nil. intros code Hc.
          apply (A r code (or_introl eq_refl) Hc). }
        rewrite E1. simpl. apply IH. intros r' code Hin Hc.
        apply (A r' code (or_intror Hin) Hc). }
  unfold UploadScreen.onDrop. fold total.
  destruct (Nat.ltb_spec 30 total) as [L | L].
  - split; [| split].
    + intros files. split; [discriminate | intros (_ & _ & T & _); lia].
    + split; [discriminate | intros (_ & T & _); lia].
    + intros currentErrors E. simpl in E. injection E as <-.
      split; [discriminate |]. split; [split; [intros _; exact L | intros _; left; reflexivity] |].
      split; intros name; simpl; rewrite in_flat_map; split.
      * intros [N | (r & Hin & He)]; [discriminate |].
        apply rejectionErrors_In in He. destruct He as [[E Hc] | [E _]]; [| discriminate].
        injection E as ->. exists r. repeat split; assumption.
      * intros (r & Hin & <- & Hc). right. exists r. split; [exact Hin |].
        apply rejectionErrors_In. left. split; [reflexivity | exact Hc].
      * intros [N | (r & Hin & He)]; [discriminate |].
        apply rejectionErrors_In in He. destruct He as [[E _] | [E Hc]]; [discriminate |].
        injection E as ->. exists r. repeat split; assumption.
      * intros (r & Hin & <- & Hc). right. exists r. split; [exact Hin |].
        apply rejectionErrors_In. right. split; [reflexivity | exact Hc].
  - simpl app.
    destruct (flat_map UploadScreen.rejectionErrors fileRejections) as [|e es] eqn:F.
    + assert (Cl : clean) by (apply C; reflexivity).
      destruct acceptedFiles as [|f fs].
      * split; [| split].
        -- intros files. split; [discriminate | intros (_ & N & _); congruence].
        -- split; [intros _; split; [reflexivity | split; [exact L | exact Cl]]
                  | reflexivity].
        -- intros currentErrors E. discriminate.
      * split; [| split].
        -- intros files. split.
           ++ intros E. injection E as <-.
              split; [reflexivity | split; [discriminate | split; [exact L | exact Cl]]].
           ++ intros (-> & _). reflexivity.
        -- split; [discriminate | intros (N & _); discriminate].
        -- intros currentErrors E. discriminate.
    + assert (NCl : ~ clean) by (intros Cl; apply C in Cl; discriminate).
      split; [| split].
      * intros files. split; [discriminate | intros (_ & _ & _ & Cl); contradiction].
      * split; [discriminate | intros (_ & _ & Cl); contradiction].
      * intros currentErrors E. injection E as <-.
        split; [discriminate |].
        split.
        { split; [| intros T; lia]. rewrite <- F. intros Hin.
          apply in_flat_map in Hin. destruct Hin as (r & _ & He).
          apply rejectionErrors_In in He.
          destruct He as [[E _] | [E _]]; discriminate. }
        rewrite <- F.
        split; intros name; rewrite in_flat_map; split.
        -- intros (r & Hin & He).
           apply rejectionErrors_In in He. destruct He as [[E Hc] | [E _]]; [| discriminate].
           injection E as ->. exists r. repeat split; assumption.
        -- intros (r & Hin & <- & Hc). exists r. split; [exact Hin |].
           apply rejectionErrors_In. left. split; [reflexivity | exact Hc].
        -- intros (r & Hin & He).
           apply rejectionErrors_In in He. destruct He as [[E _] | [E Hc]]; [discriminate |].
           injection E as ->. exists r. repeat split; assumption.
        -- intros (r & Hin & <- & Hc). exists r. split; [exact Hin |].
           apply rejectionErrors_In. right. split; [reflexivity | exact Hc].
Qed.

Lemma onDrop_guard_witness :
  exists currentErrors,
    UploadScreen.onDrop [SampleFiles.shop] [SampleFiles.tooLarge; SampleFiles.wrongType]
    = UploadScreen.DropErrors currentErrors
    /\ ~ In UploadScreen.TooManyFiles currentErrors
    /\ In (UploadScreen.FileTooLarge "huge_photo.png") currentErrors.
Proof.
  eexists. split; [reflexivity |].
  pose proof (onDrop_guard [SampleFiles.shop]
                [SampleFiles.tooLarge; SampleFiles.wrongType]) as T.
  cbv zeta in T. destruct T as (_ & _ & T).
  destruct (T _ eq_refl) as (_ & Many & Large & _).
  split.
  - intros Hin. apply Many in Hin. simpl in Hin. lia.
  - apply Large. exists SampleFiles.tooLarge.
    split; [left; reflexivity | split; [reflexivity | left; reflexivity]].
Defined.

(** The [try] block for one file gives an entry exactly when the
    picture of the file can be shown. *)
Lemma takeFile_run decode heic2any detector stamp file k s :
  exists r s',
    Intake.takeFile decode heic2any detector stamp file k s = (Ok r, s')
    /\ match r with
       | Some card =>
           Card.id card = File.name file ++ "-" ++ stamp k
           /\ fileName (Card.item card) = File.name file
           /\ type (Card.item card) = detectImageType (File.name file)
           /\ cropData (Card.item card) = None
           /\ Intake.pictureUrl heic2any file = Some (originalUrl (Card.item card))
           /\ exists decoded, decode (originalUrl (Card.item card)) = Some decoded
       | None =>
           Intake.pictureUrl heic2any file = None
           \/ exists url, Intake.pictureUrl heic2any file = Some url
                          /\ decode url = None
       end.
Proof.
  unfold Intake.takeFile.
  destruct (Intake.pictureUrl heic2any file) as [url|] eqn:P.
  - assert (T : exists targetSize,
               RESIZE_DEFINITIONS EPARK (detectImageType (File.name file))
               = Some targetSize).
    { destruct (detectImageType (File.name file)); eexists; reflexivity. }
    destruct T as (targetSize & T). rewrite T.
    unfold try_catch, bind.
    destruct (decode url) as [decoded|] eqn:D.
    + destruct (createOrUpdateThumbnail_run decode url targetSize None
                  (detectImageType (File.name file)) detector decoded s D)
        as (s' & Run).
      rewrite Run. unfold ret. eexists. exists s'. split; [reflexivity |].
      simpl. repeat split; try reflexivity. exists decoded. exact D.
    + unfold Thumbnails.createOrUpdateThumbnail. rewrite D. unfold throw, ret.
      eexists. exists s. split; [reflexivity |].
      right. exists url. split; [reflexivity | exact D].
  - unfold ret. eexists. exists s. split; [reflexivity |]. left. reflexivity.
Qed.

Lemma takeFiles_run decode heic2any detector stamp files :
  forall k acc s,
  exists result s',
    Intake.takeFiles decode heic2any detector stamp files k acc s = (Ok result, s')
    /\ map (fun card => fileName (Card.item card)) (Intake.images result)
       = (map (fun card => fileName (Card.item card)) (Intake.images acc)
          ++ map File.name (filter (Intake.loads decode heic2any) files))%list
    /\ Intake.reported result
       = (Intake.reported acc
          ++ map File.name
               (filter (fun file => negb (Intake.loads decode heic2any file)) files))%list
    /\ Intake.loadingProgress result
       = ((fst (Intake.loadingProgress acc) + List.length files)%nat,
          snd (Intake.loadingProgress acc))
    /\ (forall card, In card (Intake.images result) ->
          In card (Intake.images acc)
          \/ (cropData (Card.item card) = None
              /\ type (Card.item card) = detectImageType (fileName (Card.item card))
              /\ (exists file, In file files
                               /\ fileName (Card.item card) = File.name file
                               /\ Intake.pictureUrl heic2any file
                                  = Some (originalUrl (Card.item card)))
              /\ exists decoded, decode (originalUrl (Card.item card)) = Some decoded)).
Proof.
  induction files as [|file rest IH]; intros k acc s.
  - exists acc, s. simpl. rewrite !app_nil_r, Nat.add_0_r.
    repeat split; try reflexivity.
    + now destruct (Intake.loadingProgress acc).
    + intros card Hin. left. exact Hin.
  - simpl Intake.takeFiles. unfold bind at 1.
    destruct (takeFile_run decode heic2any detector stamp file k s)
      as (r & s1 & Run & Facts).
    rewrite Run.
    destruct r as [card|].
    + destruct Facts as (_ & Fn & Ft & Fc & Fu & decoded & Fd).
      assert (L : Intake.loads decode heic2any file = true).
      { unfold Intake.loads. now rewrite Fu, Fd. }
      destruct (IH (S k)
                  (Intake.mkResult (Intake.images acc ++ [card])
                     (S (fst (Intake.loadingProgress acc)),
                      snd (Intake.loadingProgress acc))
                     (Intake.reported acc)) s1)
        as (result & s' & Run' & Names & Rep & Prog & Cards).
      exists result, s'. split; [exact Run' |]. simpl in *. rewrite L. simpl.
      split; [rewrite Names, map_app, <- app_assoc; simpl; now rewrite Fn |].
      split; [exact Rep |].
      split; [rewrite Prog; f_equal; lia |].
      intros card' Hin. destruct (Cards card' Hin) as [Old | New].
      * apply in_app_or in Old. destruct Old as [Old | [<- | []]]; [left; exact Old |].
        right. split; [exact Fc |]. split; [now rewrite Ft, Fn |].
        split; [exists file; split; [left; reflexivity | split; [exact Fn | exact Fu]] |].
        exists decoded. exact Fd.
      * right. destruct New as (A & B & (f & Hf & C) & D).
        split; [exact A |]. split; [exact B |].
        split; [exists f; split; [right; exact Hf | exact C] | exact D].
    + assert (L : Intake.loads decode heic2any file = false).
      { unfold Intake.loads. destruct Facts as [N | (url & N & D)]; rewrite N;
          [reflexivity | now rewrite D]. }
      destruct (IH (S k)
                  (Intake.mkResult (Intake.images acc)
                     (S (fst (Intake.loadingProgress acc)),
                      snd (Intake.loadingProgress acc))
                     (Intake.reported acc ++ [File.name file])) s1)
        as (result & s' & Run' & Names & Rep & Prog & Cards).
      exists result, s'. split; [exact Run' |]. simpl in *. rewrite L. simpl.
      split; [exact Names |].
      split; [rewrite Rep, <- app_assoc; reflexivity |].
      split; [rewrite Prog; f_equal; lia |].
      intros card' Hin. destruct (Cards card' Hin) as [Old | New]; [left; exact Old |].
      right. destruct New as (A & B & (f & Hf & C) & D).
      split; [exact A |]. split; [exact B |].
      split; [exists f; split; [right; exact Hf | exact C] | exact D].
Qed.

(** Taking files in never fails as a whole.  The images are the files
    whose picture can be shown, in the order of the files; the other
    files are reported, in order, and left out; every file is counted.
    Each image has the category its file name gives, no manual crop, and
    a picture that decodes. *)
Theorem handleFilesAccepted_keeps_what_loads
    decode heic2any detector stamp (files : list File.t) s :
  exists result s',
    Intake.handleFilesAccepted decode heic2any detector stamp files s = (Ok result, s')
    /\ screen s' = Edit
    /\ map (fun card => fileName (Card.item card)) (Intake.images result)
       = map File.name (filter (Intake.loads decode heic2any) files)
    /\ Intake.reported result
       = map File.name
           (filter (fun file => negb (Intake.loads decode heic2any file)) files)
    /\ (List.length (Intake.images result) + List.length (Intake.reported result)
        = List.length files)%nat
    /\ Intake.loadingProgress result = (List.length files, List.length files)
    /\ (forall card, In card (Intake.images result) ->
          cropData (Card.item card) = None
          /\ type (Card.item card) = detectImageType (fileName (Card.item card))
          /\ (exists file, In file files
                           /\ fileName (Card.item card) = File.name file
                           /\ Intake.pictureUrl heic2any file
                              = Some (originalUrl (Card.item card)))
          /\ exists decoded, decode (originalUrl (Card.item card)) = Some decoded).
Proof.
  unfold Intake.handleFilesAccepted.
  set (s0 := mkWorld Loading (processingProgress s) (zip s) (zipBlob s) (errors s)
                     (console s) (estimated s)).
  destruct (takeFiles_run decode heic2any detector stamp files 0
              (Intake.mkResult [] (0%nat, List.length files) []) s0)
    as (result & s1 & Run & Names & Rep & Prog & Cards).
  exists result. eexists. split.
  - unfold bind, setScreen, modify, ret. fold s0. rewrite Run. reflexivity.
  - simpl in *. split; [reflexivity |]. split; [exact Names |]. split; [exact Rep |].
    split; [| split; [exact Prog |]].
    + assert (E : List.length (Intake.images result)
                  = List.length (filter (Intake.loads decode heic2any) files)).
      { rewrite <- (length_map (fun card => fileName (Card.item card))), Names.
        apply length_map. }
      rewrite E, Rep, length_map. clear.
      induction files as [|f fs IH]; [reflexivity |].
      simpl. destruct (Intake.loads decode heic2any f); simpl; lia.
    + intros card Hin. destruct (Cards card Hin) as [[] | New]. exact New.
Qed.

Lemma handleFilesAccepted_keeps_what_loads_witness :
  exists result s',
    Intake.handleFilesAccepted Sample.decode None None SampleFiles.stamp
      [SampleFiles.broken; SampleFiles.shop] freshWorld = (Ok result, s')
    /\ Intake.reported result = ["staff_01.jpg"]
    /\ map (fun card => fileName (Card.item card)) (Intake.images result)
       = ["shop_top.png"].
Proof.
  destruct (handleFilesAccepted_keeps_what_loads Sample.decode None None
              SampleFiles.stamp [SampleFiles.broken; SampleFiles.shop] freshWorld)
    as (result & s' & Run & _ & Names & Rep & _).
  exists result, s'. split; [exact Run | split; [exact Rep | exact Names]].
Defined.

(** ** The second revision *)

Module SecondRevisionFacts.
Import SecondRevision.

Lemma Media_eqb_refl (m : Media) : Media_eqb m m = true.
Proof. destruct m; reflexivity. Qed.

Lemma refresh_settled decode media image :
  needsUpdate media (refresh decode media image) = false.
Proof.
  unfold refresh, needsUpdate.
  destruct (RESIZE_DEFINITIONS media (Entry.type image)) as [t|];
    [destruct (Thumbnails.createFinalThumbnail decode (Entry.originalUrl image) t) |];
    simpl; now rewrite Media_eqb_refl.
Qed.

Lemma refresh_keeps decode media image :
  Entry.id (refresh decode media image) = Entry.id image
  /\ Entry.fileName (refresh decode media image) = Entry.fileName image
  /\ Entry.originalUrl (refresh decode media image) = Entry.originalUrl image
  /\ Entry.type (refresh decode media image) = Entry.type image
  /\ Entry.cropData (refresh decode media image) = None
  /\ Entry.isProcessed (refresh decode media image) = true
  /\ Entry.processedMedia (refresh decode media image) = Some media.
Proof.
  unfold refresh.
  destruct (RESIZE_DEFINITIONS media (Entry.type image)) as [t|];
    [destruct (Thumbnails.createFinalThumbnail decode (Entry.originalUrl image) t) |];
    simpl; repeat split; reflexivity.
Qed.

Lemma shares_id_self (img : Entry.t) (l : list Entry.t) :
  In img l -> existsb (fun u => String.eqb (Entry.id u) (Entry.id img)) l = true.
Proof.
  intros Hin. apply existsb_exists. exists img. split; [exact Hin |].
  apply String.eqb_refl.
Qed.

End SecondRevisionFacts.

(** The thumbnail effect of the second revision settles: it sets a new
    list only when some image is unprocessed or was processed for another
    profile; in the list it sets, order and identifiers are kept, every
    image is processed for the current profile, every image that was due
    has lost its manual crop, and every image that was not due and shares
    no identifier with one that was is unchanged; run again on that list,
    the effect sets nothing, so the effect does not loop. *)
Theorem processThumbnails_settles
    (decode : Url -> option Image.t) (media : Media) (images : list Entry.t) :
  (SecondRevision.processThumbnails decode media images = None <->
   forall img, In img images -> SecondRevision.needsUpdate media img = false)
  /\ (forall updated,
        SecondRevision.processThumbnails decode media images = Some updated ->
        map Entry.id updated = map Entry.id images
        /\ map Entry.type updated = map Entry.type images
        /\ (forall img, In img updated ->
              Entry.isProcessed img = true
              /\ Entry.processedMedia img = Some media)
        /\ (forall old, In old images ->
              SecondRevision.needsUpdate media old = true ->
              In (SecondRevision.refresh decode media old) updated
              /\ Entry.cropData (SecondRevision.refresh decode media old) = None)
        /\ (forall img, In img updated ->
              In img images \/ Entry.cropData img = None)
        /\ (forall old, In old images ->
              (forall due, In due images ->
                           SecondRevision.needsUpdate media due = true ->
                           Entry.id due <> Entry.id old) ->
              In old updated)
        /\ SecondRevision.processThumbnails decode media updated = None).
Proof.
  unfold SecondRevision.processThumbnails.
  set (due := filter (SecondRevision.needsUpdate media) images).
  assert (Empty : due = [] <->
                  forall img, In img images ->
                              SecondRevision.needsUpdate media img = false).
  { subst due. split.
    - intros E img Hin.
      destruct (SecondRevision.needsUpdate media img) eqn:N; [| reflexivity].
      assert (X : In img (filter (SecondRevision.needsUpdate media) images))
        by (apply filter_In; split; assumption).
      rewrite E in X. contradiction.
    - intros A. destruct (filter _ images) as [|img rest] eqn:F; [reflexivity |].
      assert (X : In img (filter (SecondRevision.needsUpdate media) images))
        by (rewrite F; left; reflexivity).
      apply filter_In in X. destruct X as [Hin N]. rewrite (A img Hin) in N.
      discriminate. }
  split.
  - destruct due as [|d rest]; [split; [intros _; apply Empty; reflexivity | reflexivity] |].
    split; [discriminate |]. intros A. apply Empty in A. discriminate.
  - intros updated E.
    set (step := fun image : Entry.t =>
                   if existsb (fun u => String.eqb (Entry.id u) (Entry.id image)) due
                   then SecondRevision.refresh decode media image else image).
    assert (U : updated = map step images).
    { destruct due; [discriminate | injection E as <-; reflexivity]. }
    clear E. subst updated.
    assert (Settled : forall img, In img images ->
                                  SecondRevision.needsUpdate media (step img) = false).
    { intros img Hin. unfold step.
      destruct (existsb _ due) eqn:X; [apply SecondRevisionFacts.refresh_settled |].
      destruct (SecondRevision.needsUpdate media img) eqn:N; [| reflexivity].
      assert (D : In img due) by (apply filter_In; split; assumption).
      rewrite (SecondRevisionFacts.shares_id_self img due D) in X. discriminate. }
    split; [| split; [| split; [| split; [| split; [| split]]]]].
    + rewrite map_map. apply map_ext. intros img. unfold step.
      destruct (existsb _ due); [apply SecondRevisionFacts.refresh_keeps | reflexivity].
    + rewrite map_map. apply map_ext. intros img. unfold step.
      destruct (existsb _ due); [apply SecondRevisionFacts.refresh_keeps | reflexivity].
    + intros img Hin. apply in_map_iff in Hin. destruct Hin as (old & <- & Hin).
      pose proof (Settled old Hin) as S. unfold SecondRevision.needsUpdate in S.
      apply orb_false_iff in S. destruct S as [S1 S2].
      apply negb_false_iff in S1, S2. split; [exact S1 |].
      destruct (Entry.processedMedia (step old)) as [m|]; [| discriminate].
      destruct m, media; try discriminate; reflexivity.
    + intros old Hin N.
      assert (D : In old due) by (apply filter_In; split; assumption).
      split; [| apply SecondRevisionFacts.refresh_keeps].
      apply in_map_iff. exists old. split; [| exact Hin]. unfold step.
      now rewrite (SecondRevisionFacts.shares_id_self old due D).
    + intros img Hin. apply in_map_iff in Hin. destruct Hin as (old & <- & Hin).
      unfold step. destruct (existsb _ due);
        [right; apply SecondRevisionFacts.refresh_keeps | left; exact Hin].
    + intros old Hin A. apply in_map_iff. exists old. split; [| exact Hin].
      unfold step. destruct (existsb _ due) eqn:X; [| reflexivity].
      apply existsb_exists in X. destruct X as (u & D & Eid).
      apply filter_In in D. destruct D as [Hu Nu]. apply String.eqb_eq in Eid.
      exfalso. exact (A u Hu Nu Eid).
    + destruct (filter (SecondRevision.needsUpdate media) (map step images))
        as [|img rest] eqn:F; [reflexivity |].
      assert (X : In img (filter (SecondRevision.needsUpdate media) (map step images)))
        by (rewrite F; left; reflexivity).
      apply filter_In in X. destruct X as [Hin N].
      apply in_map_iff in Hin. destruct Hin as (old & <- & Hin).
      rewrite (Settled old Hin) in N. discriminate.
Qed.

Lemma processThumbnails_settles_witness :
  exists updated,
    SecondRevision.processThumbnails Sample.decode PeakManager SampleEntries.all
    = Some updated
    /\ map Entry.id updated = ["shop-0"; "staff-1"; "logo-2"]
    /\ SecondRevision.processThumbnails Sample.decode PeakManager updated = None.
Proof.
  eexists. split; [reflexivity |].
  destruct (proj2 (processThumbnails_settles Sample.decode PeakManager
                     SampleEntries.all) _ eq_refl)
    as (Ids & _ & _ & _ & _ & _ & Again).
  split; [exact Ids | exact Again].
Defined.

(** Changing the category of the selected images touches them only: they
    get the category, lose their manual crop and become due for a new
    preview under every profile, while the others stay as they are.  The
    thumbnail effect that follows then gives each of them the preview of
    the new category. *)
Theorem handleBulkTypeChange_refreshes
    (decode : Url -> option Image.t) (media : Media) (selectedImageIds : list string)
    (newType : ImageType) (images : list Entry.t) :
  let changed :=
    SecondRevision.handleBulkTypeChange selectedImageIds newType images in
  map Entry.id changed = map Entry.id images
  /\ (forall img, In img images ->
        includesId selectedImageIds (Entry.id img) = false -> In img changed)
  /\ (forall img, In img changed ->
        includesId selectedImageIds (Entry.id img) = false -> In img images)
  /\ (forall img, In img changed ->
        includesId selectedImageIds (Entry.id img) = true ->
        Entry.type img = newType /\ Entry.cropData img = None
        /\ forall m, SecondRevision.needsUpdate m img = true)
  /\ ((exists img, In img images
                   /\ includesId selectedImageIds (Entry.id img) = true) ->
      exists updated,
        SecondRevision.processThumbnails decode media changed = Some updated
        /\ forall img, In img updated ->
             includesId selectedImageIds (Entry.id img) = true ->
             Entry.type img = newType /\ Entry.cropData img = None
             /\ (RESIZE_DEFINITIONS media newType = None ->
                 Entry.thumbnailUrl img = ObjectUrl (Entry.originalUrl img))
             /\ (forall targetSize thumbnail,
                   RESIZE_DEFINITIONS media newType = Some targetSize ->
                   Thumbnails.createFinalThumbnail decode (Entry.originalUrl img)
                     targetSize = Ok thumbnail ->
                   Entry.thumbnailUrl img = thumbnail)).
Proof.
  intros changed. subst changed. unfold SecondRevision.handleBulkTypeChange.
  set (f := fun img : Entry.t =>
              if includesId selectedImageIds (Entry.id img)
              then SecondRevision.retyped newType img else img).
  assert (Fid : forall img, Entry.id (f img) = Entry.id img).
  { intros img. unfold f. destruct (includesId _ _); reflexivity. }
  assert (Sel : forall img, includesId selectedImageIds (Entry.id img) = true ->
                            f img = SecondRevision.retyped newType img).
  { intros img E. unfold f. now rewrite E. }
  assert (Uns : forall img, includesId selectedImageIds (Entry.id img) = false ->
                            f img = img).
  { intros img E. unfold f. now rewrite E. }
  assert (Due : forall img m, includesId selectedImageIds (Entry.id img) = true ->
                              SecondRevision.needsUpdate m (f img) = true).
  { intros img m E. rewrite (Sel img E). reflexivity. }
  split; [| split; [| split; [| split]]].
  - rewrite map_map. apply map_ext. exact Fid.
  - intros img Hin E. apply in_map_iff. exists img. split; [apply Uns; exact E | exact Hin].
  - intros img Hin E. apply in_map_iff in Hin. destruct Hin as (old & <- & Hin).
    rewrite Fid in E. now rewrite (Uns old E).
  - intros img Hin E. apply in_map_iff in Hin. destruct Hin as (old & <- & Hin).
    rewrite Fid in E. rewrite (Sel old E).
    split; [reflexivity | split; [reflexivity | intros m; reflexivity]].
  - intros (sel & Hsel & Esel).
    unfold SecondRevision.processThumbnails.
    set (due := filter (SecondRevision.needsUpdate media) (map f images)).
    assert (D : In (f sel) due).
    { apply filter_In. split; [apply in_map; exact Hsel | apply Due; exact Esel]. }
    destruct due as [|d rest] eqn:Ed; [contradiction |]. rewrite <- Ed in *.
    eexists. split; [reflexivity |].
    intros img Hin E. apply in_map_iff in Hin. destruct Hin as (c & <- & Hin).
    apply in_map_iff in Hin. destruct Hin as (old & <- & Hin).
    assert (Eold : includesId selectedImageIds (Entry.id old) = true).
    { destruct (existsb _ due) in E;
        [rewrite (proj1 (SecondRevisionFacts.refresh_keeps decode media (f old))) in E |];
        rewrite Fid in E; exact E. }
    assert (Dold : In (f old) due).
    { apply filter_In. split; [apply in_map; exact Hin | apply Due; exact Eold]. }
    rewrite (SecondRevisionFacts.shares_id_self (f old) due Dold).
    rewrite (Sel old Eold).
    unfold SecondRevision.refresh, SecondRevision.retyped. simpl.
    destruct (RESIZE_DEFINITIONS media newType) as [t|].
    + destruct (Thumbnails.createFinalThumbnail decode (Entry.originalUrl old) t)
        as [thumb|e] eqn:Th; simpl.
      * split; [reflexivity | split; [reflexivity | split; [discriminate |]]].
        intros targetSize thumbnail Et. injection Et as <-. rewrite Th.
        intros Ok'. now injection Ok' as <-.
      * split; [reflexivity | split; [reflexivity | split; [discriminate |]]].
        intros targetSize thumbnail Et. injection Et as <-. rewrite Th. discriminate.
    + simpl. split; [reflexivity | split; [reflexivity | split; [reflexivity |]]].
      intros targetSize thumbnail Et. discriminate.
Qed.

Lemma handleBulkTypeChange_refreshes_witness :
  exists updated,
    SecondRevision.processThumbnails Sample.decode EPARK
      (SecondRevision.handleBulkTypeChange ["staff-1"] Logo SampleEntries.all)
    = Some updated
    /\ forall img, In img updated -> includesId ["staff-1"] (Entry.id img) = true ->
                   Entry.type img = Logo /\ Entry.cropData img = None.
Proof.
  pose proof (handleBulkTypeChange_refreshes Sample.decode EPARK ["staff-1"] Logo
                SampleEntries.all) as T.
  cbv zeta in T. destruct T as (_ & _ & _ & _ & T).
  destruct T as (updated & Run & Facts).
  - exists SampleEntries.staff. split; [right; left; reflexivity | reflexivity].
  - exists updated. split; [exact Run |].
    intros img Hin E. destruct (Facts img Hin E) as (A & B & _).
    split; [exact A | exact B].
Defined.

Module SelectionFacts.
Import SecondRevision.

Lemma includesId_In (ids : list string) (id : string) :
  includesId ids id = true <-> In id ids.
Proof.
  unfold includesId. rewrite existsb_exists. split.
  - intros (x & Hin & E). apply String.eqb_eq in E. now subst.
  - intros Hin. exists id. split; [exact Hin | apply String.eqb_refl].
Qed.

Lemma includesId_not_In (ids : list string) (id : string) :
  includesId ids id = false <-> ~ In id ids.
Proof.
  rewrite <- includesId_In. destruct (includesId ids id); split; congruence.
Qed.

Lemma uniqueFrom_In (ids seen : list string) (x : string) :
  In x (uniqueFrom seen ids) <-> In x ids /\ ~ In x seen.
Proof.
  revert seen. induction ids as [|id rest IH]; intros seen; simpl.
  - tauto.
  - destruct (includesId seen id) eqn:E.
    + apply includesId_In in E. rewrite IH. split.
      * intros [A B]. split; [right; exact A | exact B].
      * intros [[-> | A] B]; [contradiction | split; assumption].
    + apply includesId_not_In in E. simpl. rewrite IH. simpl. split.
      * intros [<- | [A B]]; [split; [left; reflexivity | exact E] |].
        split; [right; exact A | tauto].
      * intros [[-> | A] B]; [left; reflexivity |].
        destruct (string_dec id x) as [-> | N]; [left; reflexivity |].
        right. split; [exact A | intros [C | C]; [exact (N C) | exact (B C)]].
Qed.

Lemma uniqueFrom_NoDup (ids seen : list string) : NoDup (uniqueFrom seen ids).
Proof.
  revert seen. induction ids as [|id rest IH]; intros seen; simpl.
  - constructor.
  - destruct (includesId seen id); [apply IH |].
    constructor; [| apply IH].
    intros Hin. apply uniqueFrom_In in Hin. destruct Hin as [_ N].
    apply N. left. reflexivity.
Qed.

Lemma unique_In (ids : list string) (x : string) : In x (unique ids) <-> In x ids.
Proof. unfold unique. rewrite uniqueFrom_In. simpl. tauto. Qed.

Lemma unique_NoDup (ids : list string) : NoDup (unique ids).
Proof. apply uniqueFrom_NoDup. Qed.

(** A duplicate-free list is its own set. *)
Lemma uniqueFrom_id (ids seen : list string) :
  NoDup ids -> (forall x, In x ids -> ~ In x seen) -> uniqueFrom seen ids = ids.
Proof.
  revert seen. induction ids as [|id rest IH]; intros seen ND Fresh; [reflexivity |].
  simpl. inversion ND as [|? ? Nin ND']; subst.
  assert (E : includesId seen id = false).
  { apply includesId_not_In. apply Fresh. left. reflexivity. }
  rewrite E. f_equal. apply IH; [exact ND' |].
  intros x Hin [<- | Hs]; [contradiction |].
  apply (Fresh x); [right; exact Hin | exact Hs].
Qed.

Lemma findIndex_range (images : list Entry.t) (id : string) :
  (-1 <= findIndex images id < Z.of_nat (List.length images))%Z.
Proof.
  induction images as [|img rest IH]; simpl findIndex; simpl List.length; [lia |].
  destruct (String.eqb (Entry.id img) id); [lia |].
  destruct (findIndex rest id <? 0)%Z eqn:E; [lia |]. apply Z.ltb_ge in E. lia.
Qed.

Lemma findIndex_found (images : list Entry.t) (id : string) :
  (0 <= findIndex images id)%Z ->
  exists img, nth_error images (Z.to_nat (findIndex images id)) = Some img
              /\ Entry.id img = id.
Proof.
  induction images as [|img rest IH]; simpl findIndex; [lia |].
  destruct (String.eqb_spec (Entry.id img) id) as [E | N].
  - intros _. exists img. split; [reflexivity | exact E].
  - destruct (findIndex rest id <? 0)%Z eqn:L; [lia |]. apply Z.ltb_ge in L.
    intros _. destruct (IH L) as (found & Nth & Eid). exists found.
    split; [| exact Eid].
    replace (Z.to_nat (findIndex rest id + 1)) with (S (Z.to_nat (findIndex rest id)))
      by lia.
    exact Nth.
Qed.

Lemma findIndex_In (images : list Entry.t) (id : string) :
  In id (map Entry.id images) <-> (0 <= findIndex images id)%Z.
Proof.
  induction images as [|img rest IH]; simpl.
  - split; [contradiction | lia].
  - destruct (String.eqb_spec (Entry.id img) id) as [E | N].
    + split; [lia | intros _; left; exact E].
    + pose proof (findIndex_range rest id) as R.
      destruct (findIndex rest id <? 0)%Z eqn:L.
      * apply Z.ltb_lt in L. split; [| lia].
        intros [E | Hin]; [contradiction | apply IH in Hin; lia].
      * apply Z.ltb_ge in L. split; [lia |]. intros _. right. apply IH. exact L.
Qed.

(** The first position of an identifier is where it is, when the
    identifiers are all different. *)
Lemma findIndex_nth (images : list Entry.t) (k : nat) (img : Entry.t) :
  NoDup (map Entry.id images) -> nth_error images k = Some img ->
  findIndex images (Entry.id img) = Z.of_nat k.
Proof.
  revert k. induction images as [|first rest IH]; intros k ND Nth.
  - destruct k; discriminate.
  - simpl in ND. inversion ND as [|? ? Nin ND']; subst. destruct k as [|k]; simpl in *.
    + injection Nth as <-. now rewrite String.eqb_refl.
    + destruct (String.eqb_spec (Entry.id first) (Entry.id img)) as [E | N].
      * exfalso. apply Nin. rewrite E. apply in_map. eapply nth_error_In. exact Nth.
      * rewrite (IH k ND' Nth).
        destruct (Z.of_nat k <? 0)%Z eqn:L; [apply Z.ltb_lt in L; lia | lia].
Qed.

(** A slice between two positions of the list holds what is at the
    positions from the first to the one before the second. *)
Lemma slice_In {A : Type} (l : list A) (a b : Z) (x : A) :
  (0 <= a <= b)%Z -> (b <= Z.of_nat (List.length l))%Z ->
  In x (slice l a b) <->
  exists k, (Z.to_nat a <= k < Z.to_nat b)%nat /\ nth_error l k = Some x.
Proof.
  intros Hab Hb. unfold slice.
  destruct (a <? 0)%Z eqn:Ea; [apply Z.ltb_lt in Ea; lia |].
  destruct (b <? 0)%Z eqn:Eb; [apply Z.ltb_lt in Eb; lia |].
  replace (Z.min a (Z.of_nat (List.length l))) with a by lia.
  replace (Z.min b (Z.of_nat (List.length l))) with b by lia.
  replace (Z.to_nat (Z.max (b - a) 0)) with (Z.to_nat b - Z.to_nat a)%nat by lia.
  split.
  - intros Hin. apply In_nth_error in Hin. destruct Hin as (i & Nth).
    assert (Li : (i < Z.to_nat b - Z.to_nat a)%nat).
    { assert (X : nth_error (firstn (Z.to_nat b - Z.to_nat a) (skipn (Z.to_nat a) l)) i
                  <> None) by congruence.
      apply nth_error_Some in X. rewrite length_firstn in X. lia. }
    rewrite nth_error_firstn in Nth.
    destruct (i <? Z.to_nat b - Z.to_nat a)%nat eqn:T;
      [| apply Nat.ltb_ge in T; lia].
    rewrite nth_error_skipn in Nth.
    exists (Z.to_nat a + i)%nat. split; [lia | exact Nth].
  - intros (k & Hk & Nth).
    apply (nth_error_In _ (k - Z.to_nat a)).
    rewrite nth_error_firstn.
    destruct (k - Z.to_nat a <? Z.to_nat b - Z.to_nat a)%nat eqn:T;
      [| apply Nat.ltb_ge in T; lia].
    rewrite nth_error_skipn.
    replace (Z.to_nat a + (k - Z.to_nat a))%nat with k by lia. exact Nth.
Qed.

End SelectionFacts.

Module NavigationFacts.
Import SecondRevision SelectionFacts.

Lemma currentIndex_at (images : list Entry.t) (k : nat) (img : Entry.t) :
  NoDup (map Entry.id images) -> ~ In ""%string (map Entry.id images) ->
  nth_error images k = Some img ->
  currentIndex images (Some (Entry.id img)) = Z.of_nat k.
Proof.
  intros ND NE Nth. unfold currentIndex.
  destruct (String.eqb_spec (Entry.id img) "") as [E | _].
  - exfalso. apply NE. rewrite <- E. apply in_map. eapply nth_error_In. exact Nth.
  - apply findIndex_nth; assumption.
Qed.

Lemma currentIndex_absent (images : list Entry.t) (id : string) :
  ~ In id (map Entry.id images) -> currentIndex images (Some id) = (-1)%Z.
Proof.
  intros Nin. unfold currentIndex. destruct (String.eqb id ""); [reflexivity |].
  pose proof (findIndex_range images id) as R.
  pose proof (findIndex_In images id) as I.
  destruct (Z_lt_le_dec (findIndex images id) 0) as [L | L]; [lia |].
  exfalso. apply Nin. apply I. exact L.
Qed.

Lemma handleNavigate_at (images : list Entry.t) (k : nat) (img : Entry.t)
    (direction : Z) :
  NoDup (map Entry.id images) -> ~ In ""%string (map Entry.id images) ->
  nth_error images k = Some img ->
  handleNavigate images (Some (Entry.id img)) direction =
  if ((0 <=? Z.of_nat k + direction)
      && (Z.of_nat k + direction <? Z.of_nat (List.length images)))%Z
  then match nth_error images (Z.to_nat (Z.of_nat k + direction)) with
       | Some found => Some (Entry.id found)
       | None => Some (Entry.id img)
       end
  else Some (Entry.id img).
Proof.
  intros ND NE Nth. unfold handleNavigate.
  rewrite (currentIndex_at images k img ND NE Nth).
  destruct (Z.of_nat k =? -1)%Z eqn:E; [apply Z.eqb_eq in E; lia | reflexivity].
Qed.

End NavigationFacts.

(** In the crop dialogue of the second revision, with the identifiers
    of the images all different and none empty, the arrows move by
    one image and stay in the list: from the image at position [k]
    [handleNavigate] goes to the image at position [k + direction]
    when there is one and stays where it is otherwise,
    [canNavigatePrev] and [canNavigateNext] say exactly when the step
    by [-1] and by [1] moves, a step forward and a step back return to
    the same image, and nothing moves when the identifier is the one
    of no image. *)
Theorem handleNavigate_stays_in_list (images : list Entry.t) (k : nat) (img : Entry.t) :
  NoDup (map Entry.id images) -> ~ In ""%string (map Entry.id images) ->
  nth_error images k = Some img ->
  let here := Some (Entry.id img) in
  let prev := SecondRevision.handleNavigate images here (-1) in
  let next := SecondRevision.handleNavigate images here 1 in
  (forall direction found,
     (0 <= Z.of_nat k + direction)%Z ->
     nth_error images (Z.to_nat (Z.of_nat k + direction)) = Some found ->
     SecondRevision.handleNavigate images here direction = Some (Entry.id found))
  /\ (forall direction,
        (Z.of_nat k + direction < 0
         \/ Z.of_nat (List.length images) <= Z.of_nat k + direction)%Z ->
        SecondRevision.handleNavigate images here direction = here)
  /\ (SecondRevision.canNavigatePrev images here = true <-> (0 < k)%nat)
  /\ (SecondRevision.canNavigateNext images here = true
      <-> (S k < List.length images)%nat)
  /\ (SecondRevision.canNavigatePrev images here = false -> prev = here)
  /\ (SecondRevision.canNavigateNext images here = false -> next = here)
  /\ (SecondRevision.canNavigatePrev images here = true ->
      prev <> here /\ SecondRevision.handleNavigate images prev 1 = here)
  /\ (SecondRevision.canNavigateNext images here = true ->
      next <> here /\ SecondRevision.handleNavigate images next (-1) = here)
  /\ (forall other direction,
        ~ In other (map Entry.id images) ->
        SecondRevision.handleNavigate images (Some other) direction = Some other)
  /\ (forall direction, SecondRevision.handleNavigate images None direction = None).
Proof.
  intros ND NE Nth here prev next.
  assert (Len : (k < List.length images)%nat).
  { apply nth_error_Some. congruence. }
  assert (At : forall direction,
             SecondRevision.handleNavigate images here direction =
             if ((0 <=? Z.of_nat k + direction)
                 && (Z.of_nat k + direction <? Z.of_nat (List.length images)))%Z
             then match nth_error images (Z.to_nat (Z.of_nat k + direction)) with
                  | Some found => Some (Entry.id found)
                  | None => Some (Entry.id img)
                  end
             else Some (Entry.id img)).
  { intros direction. apply NavigationFacts.handleNavigate_at; assumption. }
  assert (Cur : SecondRevision.currentIndex images here = Z.of_nat k).
  { apply NavigationFacts.currentIndex_at; assumption. }
  assert (Prev : SecondRevision.canNavigatePrev images here = true <-> (0 < k)%nat).
  { unfold SecondRevision.canNavigatePrev. rewrite Cur. rewrite Z.ltb_lt. lia. }
  assert (Next : SecondRevision.canNavigateNext images here = true
                 <-> (S k < List.length images)%nat).
  { unfold SecondRevision.canNavigateNext. rewrite Cur.
    rewrite andb_true_iff, !Z.ltb_lt. lia. }
  assert (Differ : forall j found, nth_error images j = Some found -> j <> k ->
                                   Some (Entry.id found) <> here).
  { intros j found Nj Njk E. injection E as E. apply Njk.
    assert (Ij : SecondRevision.findIndex images (Entry.id found) = Z.of_nat j)
      by (apply SelectionFacts.findIndex_nth; assumption).
    assert (Ik : SecondRevision.findIndex images (Entry.id img) = Z.of_nat k)
      by (apply SelectionFacts.findIndex_nth; assumption).
    rewrite E in Ij. lia. }
  split; [| split; [| split; [exact Prev | split; [exact Next |
          split; [| split; [| split; [| split; [| split]]]]]]]].
  - intros direction found Pos Nf. rewrite At, Nf.
    assert (Lf : (Z.to_nat (Z.of_nat k + direction) < List.length images)%nat).
    { apply nth_error_Some. congruence. }
    destruct (0 <=? Z.of_nat k + direction)%Z eqn:A; [| apply Z.leb_gt in A; lia].
    destruct (Z.of_nat k + direction <? Z.of_nat (List.length images))%Z eqn:B;
      [reflexivity | apply Z.ltb_ge in B; lia].
  - intros direction Out. rewrite At.
    destruct (0 <=? Z.of_nat k + direction)%Z eqn:A; [| reflexivity].
    destruct (Z.of_nat k + direction <? Z.of_nat (List.length images))%Z eqn:B;
      [| reflexivity].
    apply Z.leb_le in A. apply Z.ltb_lt in B. lia.
  - intros No. unfold prev. rewrite At.
    destruct (0 <=? Z.of_nat k + -1)%Z eqn:A; [| reflexivity].
    apply Z.leb_le in A. assert (P : (0 < k)%nat) by lia.
    apply Prev in P. congruence.
  - intros No. unfold next. rewrite At.
    destruct (Z.of_nat k + 1 <? Z.of_nat (List.length images))%Z eqn:B;
      [| now rewrite andb_false_r].
    apply Z.ltb_lt in B. assert (P : (S k < List.length images)%nat) by lia.
    apply Next in P. congruence.
  - intros Yes. apply Prev in Yes.
    destruct (nth_error images (k - 1)) as [found |] eqn:Nf;
      [| apply nth_error_None in Nf; lia].
    assert (E : prev = Some (Entry.id found)).
    { unfold prev. rewrite At.
      replace (Z.to_nat (Z.of_nat k + -1)) with (k - 1)%nat by lia. rewrite Nf.
      destruct (0 <=? Z.of_nat k + -1)%Z eqn:A; [| apply Z.leb_gt in A; lia].
      destruct (Z.of_nat k + -1 <? Z.of_nat (List.length images))%Z eqn:B;
        [reflexivity | apply Z.ltb_ge in B; lia]. }
    rewrite E. split; [apply (Differ (k - 1)%nat); [exact Nf | lia] |].
    rewrite (NavigationFacts.handleNavigate_at images (k - 1) found 1 ND NE Nf).
    replace (Z.to_nat (Z.of_nat (k - 1) + 1)) with k by lia. rewrite Nth.
    destruct (0 <=? Z.of_nat (k - 1) + 1)%Z eqn:A; [| apply Z.leb_gt in A; lia].
    destruct (Z.of_nat (k - 1) + 1 <? Z.of_nat (List.length images))%Z eqn:B;
      [reflexivity | apply Z.ltb_ge in B; lia].
  - intros Yes. apply Next in Yes.
    destruct (nth_error images (S k)) as [found |] eqn:Nf;
      [| apply nth_error_None in Nf; lia].
    assert (E : next = Some (Entry.id found)).
    { unfold next. rewrite At.
      replace (Z.to_nat (Z.of_nat k + 1)) with (S k) by lia. rewrite Nf.
      destruct (0 <=? Z.of_nat k + 1)%Z eqn:A; [| apply Z.leb_gt in A; lia].
      destruct (Z.of_nat k + 1 <? Z.of_nat (List.length images))%Z eqn:B;
        [reflexivity | apply Z.ltb_ge in B; lia]. }
    rewrite E. split; [apply (Differ (S k)); [exact Nf | lia] |].
    rewrite (NavigationFacts.handleNavigate_at images (S k) found (-1) ND NE Nf).
    replace (Z.to_nat (Z.of_nat (S k) + -1)) with k by lia. rewrite Nth.
    destruct (0 <=? Z.of_nat (S k) + -1)%Z eqn:A; [| apply Z.leb_gt in A; lia].
    destruct (Z.of_nat (S k) + -1 <? Z.of_nat (List.length images))%Z eqn:B;
      [reflexivity | apply Z.ltb_ge in B; lia].
  - intros other direction Nin. unfold SecondRevision.handleNavigate.
    rewrite (NavigationFacts.currentIndex_absent images other Nin). reflexivity.
  - intros direction. reflexivity.
Qed.

Lemma handleNavigate_stays_in_list_witness :
  SecondRevision.handleNavigate SampleEntries.all (Some "staff-1"%string) 1
  = Some "logo-2"%string
  /\ SecondRevision.handleNavigate SampleEntries.all (Some "logo-2"%string) (-1)
     = Some "staff-1"%string
  /\ SecondRevision.handleNavigate SampleEntries.all (Some "staff-1"%string) 2
     = Some "staff-1"%string.
Proof.
  assert (ND : NoDup (map Entry.id SampleEntries.all)).
  { simpl. repeat constructor; simpl; intuition discriminate. }
  assert (NE : ~ In ""%string (map Entry.id SampleEntries.all)).
  { simpl. intuition discriminate. }
  pose proof (handleNavigate_stays_in_list SampleEntries.all 1 SampleEntries.staff
                ND NE eq_refl) as T.
  cbv zeta in T. destruct T as (Move & Stay & _ & Next & _ & _ & _ & Round & _).
  assert (N : SecondRevision.canNavigateNext SampleEntries.all
                (Some (Entry.id SampleEntries.staff)) = true).
  { apply Next. simpl. lia. }
  destruct (Round N) as [_ Back].
  split; [apply (Move 1%Z SampleEntries.logo); [simpl; lia | reflexivity] |].
  split; [| apply (Stay 2%Z); right; simpl; lia].
  rewrite (Move 1%Z SampleEntries.logo) in Back; [exact Back | simpl; lia | reflexivity].
Defined.

Module UniqueFacts.
Import SelectionFacts.

(** What was seen matters through its elements only. *)
Lemma uniqueFrom_seen (ids seen seen' : list string) :
  (forall x, In x seen <-> In x seen') -> uniqueFrom seen ids = uniqueFrom seen' ids.
Proof.
  revert seen seen'. induction ids as [|id rest IH]; intros seen seen' Same;
    [reflexivity |].
  simpl.
  assert (E : includesId seen id = includesId seen' id).
  { destruct (includesId seen' id) eqn:E'.
    - apply includesId_In. apply Same. apply includesId_In. exact E'.
    - apply includesId_not_In. intros Hin. apply Same in Hin.
      apply includesId_In in Hin. congruence. }
  rewrite E. destruct (includesId seen' id); [apply IH; exact Same |].
  f_equal. apply IH. intros x. simpl. rewrite Same. tauto.
Qed.

Lemma uniqueFrom_app (first second seen : list string) :
  uniqueFrom seen (first ++ second)
  = (uniqueFrom seen first ++ uniqueFrom (first ++ seen) second)%list.
Proof.
  revert seen. induction first as [|id rest IH]; intros seen; [reflexivity |].
  simpl. destruct (includesId seen id) eqn:E.
  - rewrite IH. f_equal. apply uniqueFrom_seen. intros x. simpl.
    rewrite !in_app_iff. apply includesId_In in E.
    split; [tauto |]. intros [<- | [A | B]]; tauto.
  - simpl. f_equal. rewrite IH. f_equal. apply uniqueFrom_seen. intros x.
    simpl. rewrite !in_app_iff. simpl. tauto.
Qed.

Lemma last_Some (before : list string) (lastId : string) :
  last (map Some (before ++ [lastId])) None = Some lastId.
Proof.
  rewrite map_app. simpl. apply last_last.
Qed.

Lemma filter_other (ids : list string) (id : string) :
  ~ In id ids -> filter (fun x => negb (String.eqb x id)) ids = ids.
Proof.
  induction ids as [|x rest IH]; intros Nin; [reflexivity |].
  simpl. destruct (String.eqb_spec x id) as [E | N].
  - exfalso. apply Nin. left. exact E.
  - simpl. f_equal. apply IH. intros Hin. apply Nin. right. exact Hin.
Qed.

End UniqueFacts.

(** A click without the shift key in the list of the second revision:
    without ctrl or meta it selects the clicked image alone; with one
    of them it toggles the clicked image and leaves the others as they
    are, so a selection without duplicates stays one, and a second
    such click on an image that was not selected gives the selection
    back.  With nothing selected, every click selects the clicked
    image alone, whatever keys are held. *)
Theorem handleSelectImage_toggles (images : list Entry.t) (selected : list string)
    (clicked : string) (e : SecondRevision.Click) :
  SecondRevision.shiftKey e = false ->
  let next := SecondRevision.handleSelectImage images selected clicked e in
  (SecondRevision.metaKey e || SecondRevision.ctrlKey e = false -> next = [clicked])
  /\ (SecondRevision.metaKey e || SecondRevision.ctrlKey e = true ->
      (forall id, In id next <->
                  (In id selected /\ id <> clicked)
                  \/ (id = clicked /\ ~ In clicked selected))
      /\ (NoDup selected -> NoDup next)
      /\ (In clicked selected -> ~ In clicked next)
      /\ (~ In clicked selected ->
          next = (selected ++ [clicked])%list
          /\ SecondRevision.handleSelectImage images next clicked e = selected))
  /\ (forall keys, SecondRevision.handleSelectImage images [] clicked keys = [clicked]).
Proof.
  intros Shift next.
  assert (Run : forall ids,
             SecondRevision.handleSelectImage images ids clicked e =
             if SecondRevision.metaKey e || SecondRevision.ctrlKey e
             then if includesId ids clicked
                  then filter (fun id => negb (String.eqb id clicked)) ids
                  else (ids ++ [clicked])%list
             else [clicked]).
  { intros ids. unfold SecondRevision.handleSelectImage. rewrite Shift.
    destruct (last (map Some ids) None); reflexivity. }
  split; [| split].
  - intros Plain. unfold next. rewrite Run, Plain. reflexivity.
  - intros Held.
    assert (E : next = if includesId selected clicked
                       then filter (fun id => negb (String.eqb id clicked)) selected
                       else (selected ++ [clicked])%list).
    { unfold next. rewrite Run, Held. reflexivity. }
    split; [| split; [| split]].
    + intros id. rewrite E. destruct (includesId selected clicked) eqn:I.
      * apply SelectionFacts.includesId_In in I. rewrite filter_In.
        destruct (String.eqb_spec id clicked) as [Eq | Ne]; simpl.
        -- split; [intros [_ F]; discriminate | intros [[_ N] | [_ N]]; contradiction].
        -- split; [intros [A _]; left; split; assumption |].
           intros [[A _] | [A _]]; [split; [exact A | reflexivity] | contradiction].
      * apply SelectionFacts.includesId_not_In in I. rewrite in_app_iff. simpl.
        split.
        -- intros [A | [A | []]].
           ++ left. split; [exact A | intros ->; contradiction].
           ++ right. split; [symmetry; exact A | exact I].
        -- intros [[A _] | [A _]]; [left; exact A | right; left; symmetry; exact A].
    + intros ND. rewrite E. destruct (includesId selected clicked) eqn:I.
      * apply NoDup_filter. exact ND.
      * apply SelectionFacts.includesId_not_In in I.
        apply NoDup_app; [exact ND | repeat constructor; simpl; tauto |].
        intros x A [<- | []]. contradiction.
    + intros Was. rewrite E. apply SelectionFacts.includesId_In in Was. rewrite Was.
      rewrite filter_In. rewrite String.eqb_refl. simpl. intros [_ F]. discriminate.
    + intros Nin. pose proof Nin as I. apply SelectionFacts.includesId_not_In in I.
      rewrite E, I. split; [reflexivity |]. rewrite Run, Held.
      assert (Now : includesId (selected ++ [clicked]) clicked = true).
      { apply SelectionFacts.includesId_In. apply in_app_iff. right. left. reflexivity. }
      rewrite Now. rewrite filter_app. simpl. rewrite String.eqb_refl. simpl.
      rewrite app_nil_r. apply UniqueFacts.filter_other. exact Nin.
  - intros keys. unfold SecondRevision.handleSelectImage. simpl.
    destruct (SecondRevision.metaKey keys || SecondRevision.ctrlKey keys); reflexivity.
Qed.

Lemma handleSelectImage_toggles_witness :
  SecondRevision.handleSelectImage SampleEntries.all ["shop-0"; "staff-1"]%string
    "logo-2" (SecondRevision.mkClick false true false)
  = ["shop-0"; "staff-1"; "logo-2"]%string
  /\ SecondRevision.handleSelectImage SampleEntries.all
       ["shop-0"; "staff-1"; "logo-2"]%string "logo-2"
       (SecondRevision.mkClick false true false)
     = ["shop-0"; "staff-1"]%string.
Proof.
  pose proof (handleSelectImage_toggles SampleEntries.all ["shop-0"; "staff-1"]%string
                "logo-2" (SecondRevision.mkClick false true false) eq_refl) as T.
  cbv zeta in T. destruct T as (_ & Held & _).
  destruct (Held eq_refl) as (_ & _ & _ & Twice).
  assert (Nin : ~ In "logo-2"%string ["shop-0"; "staff-1"]%string).
  { simpl. intuition discriminate. }
  destruct (Twice Nin) as [First Second].
  split; [exact First | rewrite First in Second; exact Second].
Defined.

(** A click with the shift key, when the last selected image and the
    clicked one are in the list (identifiers all different): the new
    selection has no duplicate and holds exactly what was selected and
    the images between the two, both included; a selection without
    duplicates is kept in its order, with the new images after it. *)
Theorem handleSelectImage_range (images : list Entry.t) (before : list string)
    (e : SecondRevision.Click) (i j : nat) (a b : Entry.t) :
  SecondRevision.shiftKey e = true ->
  Entry.id a <> ""%string ->
  NoDup (map Entry.id images) ->
  nth_error images i = Some a ->
  nth_error images j = Some b ->
  let selected := (before ++ [Entry.id a])%list in
  let next := SecondRevision.handleSelectImage images selected (Entry.id b) e in
  (forall id, In id next <->
              In id selected
              \/ exists k img, (Nat.min i j <= k <= Nat.max i j)%nat
                               /\ nth_error images k = Some img
                               /\ Entry.id img = id)
  /\ NoDup next
  /\ In (Entry.id b) next
  /\ (NoDup selected ->
      exists added, next = (selected ++ added)%list
                    /\ forall id, In id added -> ~ In id selected).
Proof.
  intros Shift NE ND Ni Nj selected next.
  assert (Li : (i < List.length images)%nat) by (apply nth_error_Some; congruence).
  assert (Lj : (j < List.length images)%nat) by (apply nth_error_Some; congruence).
  set (range := map Entry.id
                  (SecondRevision.slice images (Z.min (Z.of_nat i) (Z.of_nat j))
                     (Z.max (Z.of_nat i) (Z.of_nat j) + 1))).
  assert (E : next = unique (selected ++ range)).
  { unfold next, SecondRevision.handleSelectImage, selected.
    rewrite UniqueFacts.last_Some, Shift.
    destruct (String.eqb_spec (Entry.id a) "") as [F | _]; [contradiction |].
    simpl.
    rewrite (SelectionFacts.findIndex_nth images i a ND Ni).
    rewrite (SelectionFacts.findIndex_nth images j b ND Nj). reflexivity. }
  assert (R : forall id, In id range <->
                         exists k img, (Nat.min i j <= k <= Nat.max i j)%nat
                                       /\ nth_error images k = Some img
                                       /\ Entry.id img = id).
  { intros id. unfold range. rewrite in_map_iff. split.
    - intros (img & Eid & Hin). apply SelectionFacts.slice_In in Hin; [| lia | lia].
      destruct Hin as (k & Hk & Nk). exists k, img.
      split; [lia | split; assumption].
    - intros (k & img & Hk & Nk & Eid). exists img. split; [exact Eid |].
      apply SelectionFacts.slice_In; [lia | lia |]. exists k. split; [lia | exact Nk]. }
  assert (M : forall id, In id next <-> In id selected \/ In id range).
  { intros id. rewrite E, SelectionFacts.unique_In, in_app_iff. reflexivity. }
  split; [| split; [| split]].
  - intros id. rewrite M, R. reflexivity.
  - rewrite E. apply SelectionFacts.unique_NoDup.
  - apply M. right. apply R. exists j, b. split; [lia | split; [exact Nj | reflexivity]].
  - intros NS. exists (uniqueFrom (selected ++ []) range). split.
    + rewrite E. unfold unique. rewrite UniqueFacts.uniqueFrom_app. f_equal.
      apply SelectionFacts.uniqueFrom_id; [exact NS | intros x _ []].
    + intros id Hin. apply SelectionFacts.uniqueFrom_In in Hin.
      rewrite app_nil_r in Hin. tauto.
Qed.

Lemma handleSelectImage_range_witness :
  let next :=
    SecondRevision.handleSelectImage SampleEntries.all ["shop-0"]%string "logo-2"
      (SecondRevision.mkClick false false true) in
  NoDup next /\ In "staff-1"%string next.
Proof.
  assert (ND : NoDup (map Entry.id SampleEntries.all)).
  { simpl. repeat constructor; simpl; intuition discriminate. }
  assert (NE : Entry.id SampleEntries.shop <> ""%string) by discriminate.
  pose proof (handleSelectImage_range SampleEntries.all []
                (SecondRevision.mkClick false false true) 0 2
                SampleEntries.shop SampleEntries.logo eq_refl NE ND eq_refl eq_refl) as T.
  cbv zeta in T. destruct T as (Mem & NoD & _ & _).
  split; [exact NoD |].
  apply Mem. right. exists 1%nat, SampleEntries.staff.
  split; [simpl; lia | split; reflexivity].
Defined.

Module NoticesFacts.
Import Notices SelectionFacts.

Lemma hasType_true (type : string) (n : Notification.t) :
  hasType type n = true <-> Notification.type n = type.
Proof. unfold hasType. apply String.eqb_eq. Qed.

Lemma unseenOf_In (seenNotifications : list string) (ns : list Notification.t)
    (n : Notification.t) :
  In n (unseenOf seenNotifications ns) <->
  In n ns /\ Notification.type n <> "welcome"%string
  /\ ~ In (Notification.id n) seenNotifications.
Proof.
  unfold unseenOf. rewrite filter_In, andb_true_iff, !negb_true_iff.
  rewrite includesId_not_In. unfold hasType.
  destruct (String.eqb_spec (Notification.type n) "welcome"); split;
    intros (A & B & C); try discriminate; try contradiction; repeat split; assumption.
Qed.

Section Check.
Variable sortByDate : list Notification.t -> list Notification.t.

Lemma checkNotifications_storage (response : Fetched) (st : State) :
  storage (checkNotifications sortByDate response st) = storage st.
Proof.
  destruct response as [| | ns]; try reflexivity.
  unfold checkNotifications. cbn [storage setAllNotifications].
  destruct (firstVisit (storage st)).
  - destruct (find (hasType "welcome") ns); reflexivity.
  - destruct (filter (hasType "agreement") (unseenOf (seen (storage st)) ns));
      destruct (filter (hasType "update") (unseenOf (seen (storage st)) ns));
      reflexivity.
Qed.

Lemma checkNotifications_first (ns : list Notification.t) (st : State) :
  firstVisit (storage st) = true ->
  checkNotifications sortByDate (FetchOk ns) st =
  match find (hasType "welcome") ns with
  | Some welcomeNotification =>
      setNotificationQueue [welcomeNotification] (setAllNotifications ns st)
  | None => setAllNotifications ns st
  end.
Proof.
  intros F. unfold checkNotifications. cbn [storage setAllNotifications].
  rewrite F. reflexivity.
Qed.

Lemma checkNotifications_queue (ns : list Notification.t) (st : State) :
  firstVisit (storage st) = false ->
  notificationQueue (checkNotifications sortByDate (FetchOk ns) st) =
  match filter (hasType "agreement") (unseenOf (seen (storage st)) ns) with
  | [] => notificationQueue st
  | agreements => agreements
  end.
Proof.
  intros F. unfold checkNotifications. cbn [storage setAllNotifications].
  rewrite F.
  destruct (filter (hasType "agreement") (unseenOf (seen (storage st)) ns));
    destruct (filter (hasType "update") (unseenOf (seen (storage st)) ns));
    reflexivity.
Qed.

Lemma checkNotifications_banner (ns : list Notification.t) (st : State) :
  firstVisit (storage st) = false ->
  updateBannerNotifications (checkNotifications sortByDate (FetchOk ns) st) =
  match filter (hasType "update") (unseenOf (seen (storage st)) ns) with
  | [] => updateBannerNotifications st
  | updates => sortByDate updates
  end.
Proof.
  intros F. unfold checkNotifications. cbn [storage setAllNotifications].
  rewrite F.
  destruct (filter (hasType "agreement") (unseenOf (seen (storage st)) ns));
    destruct (filter (hasType "update") (unseenOf (seen (storage st)) ns));
    reflexivity.
Qed.

End Check.

(** No update is left to show when all of them are seen. *)
Lemma updates_all_seen (seenNotifications : list string) (ns : list Notification.t) :
  (forall n, In n ns -> Notification.type n = "update"%string ->
             In (Notification.id n) seenNotifications) ->
  filter (hasType "update") (unseenOf seenNotifications ns) = [].
Proof.
  intros All.
  destruct (filter (hasType "update") (unseenOf seenNotifications ns)) as [|n rest] eqn:E;
    [reflexivity |].
  assert (Hin : In n (filter (hasType "update") (unseenOf seenNotifications ns))).
  { rewrite E. left. reflexivity. }
  apply filter_In in Hin. destruct Hin as [U T]. apply hasType_true in T.
  apply unseenOf_In in U. destruct U as (A & _ & C).
  exfalso. apply C. apply All; assumption.
Qed.

Lemma handleCloseModal_seen (confirmed : bool) (st : State)
    (current : Notification.t) (rest : list Notification.t) :
  notificationQueue st = current :: rest ->
  let st' := handleCloseModal confirmed st in
  notificationQueue st' = rest
  /\ allNotifications st' = allNotifications st
  /\ updateBannerNotifications st' = updateBannerNotifications st
  /\ seen (storage st') =
     (if hasType "welcome" current && confirmed then
        unique (seen (storage st) ++ [Notification.id current]
                ++ map Notification.id
                     (filter (hasType "update") (allNotifications st)))
      else if (if hasType "agreement" current && confirmed then true
               else negb (hasType "agreement" current))
              && negb (includesId (seen (storage st)) (Notification.id current))
           then seen (storage st) ++ [Notification.id current]
           else seen (storage st))%list
  /\ isFirstVisit (storage st') =
     if hasType "welcome" current && confirmed then Some false
     else isFirstVisit (storage st).
Proof.
  intros Q st'. unfold st', handleCloseModal. rewrite Q.
  cbn [notificationQueue allNotifications updateBannerNotifications storage
       setNotificationQueue setStorage].
  split; [reflexivity | split; [reflexivity | split; [reflexivity |]]].
  destruct (hasType "welcome" current && confirmed).
  - cbn [andb]. split; reflexivity.
  - destruct ((if hasType "agreement" current && confirmed then true
               else negb (hasType "agreement" current))
              && negb (includesId (seen (storage st)) (Notification.id current)));
      split; reflexivity.
Qed.

End NoticesFacts.

(** The identifiers kept in [seenNotifications] are never forgotten:
    checking the notifications, closing the dialogue (confirmed or
    not) and closing the update history keep every identifier that
    was seen, keep the list free of duplicates, and never turn a
    repeat visit back into a first visit. *)
Theorem seenNotifications_only_grow
    (sortByDate : list Notification.t -> list Notification.t)
    (response : Notices.Fetched) (confirmed : bool) (st st' : Notices.State) :
  In st' [Notices.checkNotifications sortByDate response st;
          Notices.handleCloseModal confirmed st;
          Notices.handleCloseUpdateModal st] ->
  (forall id, In id (Notices.seen (Notices.storage st)) ->
              In id (Notices.seen (Notices.storage st')))
  /\ (NoDup (Notices.seen (Notices.storage st)) ->
      NoDup (Notices.seen (Notices.storage st')))
  /\ (Notices.firstVisit (Notices.storage st) = false ->
      Notices.firstVisit (Notices.storage st') = false).
Proof.
  intros [<- | [<- | [<- | []]]].
  - rewrite NoticesFacts.checkNotifications_storage.
    split; [tauto | split; tauto].
  - destruct (Notices.notificationQueue st) as [|current rest] eqn:Q.
    + unfold Notices.handleCloseModal. rewrite Q. split; [tauto | split; tauto].
    + destruct (NoticesFacts.handleCloseModal_seen confirmed st current rest Q)
        as (_ & _ & _ & S & F).
      unfold Notices.firstVisit. rewrite S, F.
      destruct (Notices.hasType "welcome" current && confirmed).
      * split; [| split; [intros _; apply SelectionFacts.unique_NoDup | reflexivity]].
        intros id Hin. apply SelectionFacts.unique_In. apply in_app_iff. left. exact Hin.
      * destruct ((if Notices.hasType "agreement" current && confirmed then true
                   else negb (Notices.hasType "agreement" current))
                  && negb (includesId (Notices.seen (Notices.storage st))
                             (Notification.id current))) eqn:Push.
        -- apply andb_true_iff in Push. destruct Push as [_ Fresh].
           apply negb_true_iff, SelectionFacts.includesId_not_In in Fresh.
           split; [| split; [| tauto]].
           ++ intros id Hin. apply in_app_iff. left. exact Hin.
           ++ intros ND. apply NoDup_app; [exact ND | repeat constructor; simpl; tauto |].
              intros x A [<- | []]. contradiction.
        -- split; [tauto | split; tauto].
  - unfold Notices.handleCloseUpdateModal.
    cbn [Notices.storage Notices.setUpdateBannerNotifications
         Notices.setIsUpdateModalOpen Notices.setStorage].
    split; [| split].
    + intros id Hin. cbn [Notices.seen Notices.seenNotifications].
      apply SelectionFacts.unique_In. apply in_app_iff. left. exact Hin.
    + intros _. apply SelectionFacts.unique_NoDup.
    + intros F. exact F.
Qed.

Lemma seenNotifications_only_grow_witness :
  In "welcome-1"%string
     (Notices.seen (Notices.storage
        (Notices.handleCloseUpdateModal SampleNotices.returning))).
Proof.
  pose proof (seenNotifications_only_grow SampleNotices.sortByDate Notices.FetchNotOk
                true SampleNotices.returning
                (Notices.handleCloseUpdateModal SampleNotices.returning)) as T.
  destruct T as (Keeps & _ & _).
  - right. right. left. reflexivity.
  - apply Keeps. left. reflexivity.
Defined.

(** On a first visit the check queues the welcome notification alone
    and touches neither the update banner nor the storage.  Closing it
    with a confirmation ends the first visit, empties the queue and
    marks the welcome and every update of the list as seen, so a later
    check of the same list leaves the banner as it was and queues only
    agreements that were not seen.  Closing it without confirmation
    leaves the visit a first one, and the next check shows the welcome
    again. *)
Theorem welcome_confirmed_marks_updates_seen
    (sortByDate : list Notification.t -> list Notification.t)
    (ns : list Notification.t) (w : Notification.t) (st : Notices.State) :
  Notices.firstVisit (Notices.storage st) = true ->
  find (Notices.hasType "welcome") ns = Some w ->
  let checked := Notices.checkNotifications sortByDate (Notices.FetchOk ns) st in
  let confirmed := Notices.handleCloseModal true checked in
  let declined := Notices.handleCloseModal false checked in
  let again := Notices.checkNotifications sortByDate (Notices.FetchOk ns) confirmed in
  (Notices.notificationQueue checked = [w]
   /\ Notices.updateBannerNotifications checked = Notices.updateBannerNotifications st
   /\ Notices.storage checked = Notices.storage st)
  /\ (Notices.isFirstVisit (Notices.storage confirmed) = Some false
      /\ Notices.notificationQueue confirmed = []
      /\ In (Notification.id w) (Notices.seen (Notices.storage confirmed))
      /\ forall n, In n ns -> Notification.type n = "update"%string ->
                   In (Notification.id n) (Notices.seen (Notices.storage confirmed)))
  /\ (Notices.updateBannerNotifications again = Notices.updateBannerNotifications st
      /\ forall n, In n (Notices.notificationQueue again) ->
                   Notification.type n = "agreement"%string /\ In n ns
                   /\ ~ In (Notification.id n) (Notices.seen (Notices.storage st)))
  /\ (Notices.firstVisit (Notices.storage declined) = true
      /\ Notices.notificationQueue
           (Notices.checkNotifications sortByDate (Notices.FetchOk ns) declined) = [w]).
Proof.
  intros First Found checked confirmed declined again.
  assert (C : checked = Notices.setNotificationQueue [w]
                          (Notices.setAllNotifications ns st)).
  { unfold checked. rewrite NoticesFacts.checkNotifications_first by exact First.
    rewrite Found. reflexivity. }
  assert (W : Notices.hasType "welcome" w = true).
  { apply find_some in Found. apply Found. }
  assert (Q : Notices.notificationQueue checked = [w]) by (rewrite C; reflexivity).
  assert (St : Notices.storage checked = Notices.storage st) by (rewrite C; reflexivity).
  assert (All : Notices.allNotifications checked = ns) by (rewrite C; reflexivity).
  assert (B : Notices.updateBannerNotifications checked
              = Notices.updateBannerNotifications st) by (rewrite C; reflexivity).
  destruct (NoticesFacts.handleCloseModal_seen true checked w [] Q)
    as (Q1 & _ & B1 & S1 & F1).
  fold confirmed in Q1, B1, S1, F1. rewrite W in S1, F1. cbn [andb] in S1, F1.
  rewrite St, All in S1.
  assert (Seen : forall n, In n ns -> Notification.type n = "update"%string ->
                           In (Notification.id n)
                              (Notices.seen (Notices.storage confirmed))).
  { intros n Hin T. rewrite S1. apply SelectionFacts.unique_In.
    apply in_app_iff. right. right. apply in_map. apply filter_In.
    split; [exact Hin | apply NoticesFacts.hasType_true; exact T]. }
  assert (Repeat : Notices.firstVisit (Notices.storage confirmed) = false).
  { unfold Notices.firstVisit. rewrite F1. reflexivity. }
  split; [split; [exact Q | split; [exact B | exact St]] |].
  split; [split; [exact F1 | split; [exact Q1 | split; [| exact Seen]]] |].
  { rewrite S1. apply SelectionFacts.unique_In. apply in_app_iff. right. left.
    reflexivity. }
  split; [split |].
  - unfold again. rewrite NoticesFacts.checkNotifications_banner by exact Repeat.
    rewrite NoticesFacts.updates_all_seen by exact Seen. rewrite B1. exact B.
  - intros n Hin. unfold again in Hin.
    rewrite NoticesFacts.checkNotifications_queue in Hin by exact Repeat.
    destruct (filter (Notices.hasType "agreement")
                (Notices.unseenOf (Notices.seen (Notices.storage confirmed)) ns))
      as [|a rest] eqn:E.
    + rewrite Q1 in Hin. destruct Hin.
    + rewrite <- E in Hin. apply filter_In in Hin. destruct Hin as [U T].
      apply NoticesFacts.hasType_true in T.
      apply NoticesFacts.unseenOf_In in U. destruct U as (A & _ & N).
      split; [exact T | split; [exact A |]].
      intros Old. apply N. rewrite S1. apply SelectionFacts.unique_In.
      apply in_app_iff. left. exact Old.
  - destruct (NoticesFacts.handleCloseModal_seen false checked w [] Q)
      as (_ & _ & _ & _ & F2).
    fold declined in F2. rewrite andb_false_r in F2.
    assert (Still : Notices.firstVisit (Notices.storage declined) = true).
    { unfold Notices.firstVisit. rewrite F2, St. exact First. }
    split; [exact Still |].
    rewrite NoticesFacts.checkNotifications_first by exact Still.
    rewrite Found. reflexivity.
Qed.

Lemma welcome_confirmed_marks_updates_seen_witness :
  let checked :=
    Notices.checkNotifications SampleNotices.sortByDate
      (Notices.FetchOk SampleNotices.all) Notices.fresh in
  Notices.notificationQueue checked = [SampleNotices.welcome]
  /\ In "release-3"%string
        (Notices.seen (Notices.storage (Notices.handleCloseModal true checked))).
Proof.
  pose proof (welcome_confirmed_marks_updates_seen SampleNotices.sortByDate
                SampleNotices.all SampleNotices.welcome Notices.fresh
                eq_refl eq_refl) as T.
  cbv zeta in T. destruct T as ((Q & _) & (_ & _ & _ & Seen) & _).
  split; [exact Q |].
  apply (Seen SampleNotices.release); [right; right; left; reflexivity | reflexivity].
Defined.

(** An agreement at the head of the queue leaves the queue when the
    dialogue is closed, confirmed or not.  Confirmed, its identifier
    is marked as seen and a later check on a repeat visit queues no
    notification with that identifier; not confirmed, the storage is
    left as it is, and the next check on a repeat visit queues it
    again when it is in the list and was not seen. *)
Theorem agreement_declined_comes_back
    (sortByDate : list Notification.t -> list Notification.t)
    (ns : list Notification.t) (current : Notification.t)
    (rest : list Notification.t) (st : Notices.State) :
  Notices.notificationQueue st = current :: rest ->
  Notification.type current = "agreement"%string ->
  Notices.firstVisit (Notices.storage st) = false ->
  let confirmed := Notices.handleCloseModal true st in
  let declined := Notices.handleCloseModal false st in
  Notices.notificationQueue confirmed = rest
  /\ Notices.notificationQueue declined = rest
  /\ In (Notification.id current) (Notices.seen (Notices.storage confirmed))
  /\ Notices.storage declined = Notices.storage st
  /\ (forall n,
        In n (Notices.notificationQueue
                (Notices.checkNotifications sortByDate (Notices.FetchOk ns) confirmed)) ->
        In n rest \/ Notification.id n <> Notification.id current)
  /\ (In current ns ->
      ~ In (Notification.id current) (Notices.seen (Notices.storage st)) ->
      In current (Notices.notificationQueue
                    (Notices.checkNotifications sortByDate (Notices.FetchOk ns)
                       declined))).
Proof.
  intros Q T Repeat confirmed declined.
  assert (A : Notices.hasType "agreement" current = true)
    by (apply NoticesFacts.hasType_true; exact T).
  assert (W : Notices.hasType "welcome" current = false).
  { unfold Notices.hasType. rewrite T. reflexivity. }
  destruct (NoticesFacts.handleCloseModal_seen true st current rest Q)
    as (Q1 & _ & _ & S1 & F1).
  fold confirmed in Q1, S1, F1. rewrite W, A in S1. rewrite W in F1.
  cbn [andb negb] in S1, F1.
  assert (D : declined = Notices.setNotificationQueue rest
                           (Notices.setStorage (Notices.storage st) st)).
  { unfold declined, Notices.handleCloseModal. rewrite Q, W, A. reflexivity. }
  assert (Seen : In (Notification.id current)
                    (Notices.seen (Notices.storage confirmed))).
  { rewrite S1.
    destruct (includesId (Notices.seen (Notices.storage st)) (Notification.id current))
      eqn:I; cbn [negb].
    - apply SelectionFacts.includesId_In. exact I.
    - apply in_app_iff. right. left. reflexivity. }
  split; [exact Q1 | split; [rewrite D; reflexivity | split; [exact Seen |]]].
  split; [rewrite D; reflexivity | split].
  - intros n Hin.
    assert (R1 : Notices.firstVisit (Notices.storage confirmed) = false).
    { unfold Notices.firstVisit. rewrite F1. exact Repeat. }
    rewrite NoticesFacts.checkNotifications_queue in Hin by exact R1.
    destruct (filter (Notices.hasType "agreement")
                (Notices.unseenOf (Notices.seen (Notices.storage confirmed)) ns))
      as [|a more] eqn:E.
    + left. rewrite Q1 in Hin. exact Hin.
    + right. rewrite <- E in Hin. apply filter_In in Hin. destruct Hin as [U _].
      apply NoticesFacts.unseenOf_In in U. destruct U as (_ & _ & N).
      intros Same. apply N. rewrite Same. exact Seen.
  - intros Hin Fresh.
    assert (R2 : Notices.firstVisit (Notices.storage declined) = false).
    { rewrite D. exact Repeat. }
    rewrite NoticesFacts.checkNotifications_queue by exact R2.
    assert (In current
              (filter (Notices.hasType "agreement")
                 (Notices.unseenOf (Notices.seen (Notices.storage declined)) ns))) as X.
    { apply filter_In. split; [| exact A]. apply NoticesFacts.unseenOf_In.
      split; [exact Hin |]. split; [rewrite T; discriminate |].
      rewrite D. exact Fresh. }
    destruct (filter (Notices.hasType "agreement")
                (Notices.unseenOf (Notices.seen (Notices.storage declined)) ns));
      [destruct X | exact X].
Qed.

Lemma agreement_declined_comes_back_witness :
  let queued :=
    Notices.checkNotifications SampleNotices.sortByDate
      (Notices.FetchOk SampleNotices.all) SampleNotices.returning in
  Notices.notificationQueue (Notices.handleCloseModal false queued) = []
  /\ In SampleNotices.terms
        (Notices.notificationQueue
           (Notices.checkNotifications SampleNotices.sortByDate
              (Notices.FetchOk SampleNotices.all)
              (Notices.handleCloseModal false queued))).
Proof.
  pose proof (agreement_declined_comes_back SampleNotices.sortByDate
                SampleNotices.all SampleNotices.terms []
                (Notices.checkNotifications SampleNotices.sortByDate
                   (Notices.FetchOk SampleNotices.all) SampleNotices.returning)
                eq_refl eq_refl eq_refl) as T.
  cbv zeta in T. destruct T as (_ & Q & _ & _ & _ & Back).
  split; [exact Q |].
  apply Back; [right; left; reflexivity |].
  simpl. intuition discriminate.
Defined.

(** On a repeat visit, with a sort that returns a permutation of its
    argument: the banner after a check holds the updates of the list
    that were not seen, or is left as it was when there is none.
    Closing the update history empties the banner, closes the
    dialogue and marks every update of the banner as seen, so that
    the next check of the same list shows no banner. *)
Theorem handleCloseUpdateModal_clears_banner
    (sortByDate : list Notification.t -> list Notification.t)
    (ns : list Notification.t) (st : Notices.State) :
  (forall l, Permutation l (sortByDate l)) ->
  Notices.firstVisit (Notices.storage st) = false ->
  (forall n, In n (Notices.updateBannerNotifications st) ->
             In n ns /\ Notification.type n = "update"%string) ->
  let checked := Notices.checkNotifications sortByDate (Notices.FetchOk ns) st in
  let closed := Notices.handleCloseUpdateModal checked in
  let again := Notices.checkNotifications sortByDate (Notices.FetchOk ns) closed in
  (forall n, In n ns -> Notification.type n = "update"%string ->
             ~ In (Notification.id n) (Notices.seen (Notices.storage st)) ->
             In n (Notices.updateBannerNotifications checked))
  /\ (forall n, In n (Notices.updateBannerNotifications checked) ->
                In n ns /\ Notification.type n = "update"%string)
  /\ Notices.updateBannerNotifications closed = []
  /\ Notices.isUpdateModalOpen closed = false
  /\ Notices.notificationQueue closed = Notices.notificationQueue checked
  /\ (forall n, In n ns -> Notification.type n = "update"%string ->
                In (Notification.id n) (Notices.seen (Notices.storage closed)))
  /\ Notices.updateBannerNotifications again = [].
Proof.
  intros Perm Repeat Old checked closed again.
  assert (B : Notices.updateBannerNotifications checked =
              match filter (Notices.hasType "update")
                      (Notices.unseenOf (Notices.seen (Notices.storage st)) ns) with
              | [] => Notices.updateBannerNotifications st
              | updates => sortByDate updates
              end).
  { apply NoticesFacts.checkNotifications_banner. exact Repeat. }
  assert (St : Notices.storage checked = Notices.storage st)
    by apply NoticesFacts.checkNotifications_storage.
  assert (Shown : forall n, In n ns -> Notification.type n = "update"%string ->
                            ~ In (Notification.id n) (Notices.seen (Notices.storage st)) ->
                            In n (Notices.updateBannerNotifications checked)).
  { intros n Hin T Fresh.
    assert (X : In n (filter (Notices.hasType "update")
                        (Notices.unseenOf (Notices.seen (Notices.storage st)) ns))).
    { apply filter_In. split; [| apply NoticesFacts.hasType_true; exact T].
      apply NoticesFacts.unseenOf_In.
      split; [exact Hin | split; [rewrite T; discriminate | exact Fresh]]. }
    rewrite B.
    destruct (filter (Notices.hasType "update")
                (Notices.unseenOf (Notices.seen (Notices.storage st)) ns))
      as [|u more]; [destruct X |].
    apply (Permutation_in _ (Perm (u :: more))). exact X. }
  assert (Only : forall n, In n (Notices.updateBannerNotifications checked) ->
                           In n ns /\ Notification.type n = "update"%string).
  { intros n Hin. rewrite B in Hin.
    destruct (filter (Notices.hasType "update")
                (Notices.unseenOf (Notices.seen (Notices.storage st)) ns))
      as [|u more] eqn:E; [apply Old; exact Hin |].
    apply (Permutation_in _ (Permutation_sym (Perm (u :: more)))) in Hin.
    rewrite <- E in Hin. apply filter_In in Hin. destruct Hin as [U T].
    apply NoticesFacts.unseenOf_In in U.
    split; [apply U | apply NoticesFacts.hasType_true; exact T]. }
  assert (S2 : Notices.seen (Notices.storage closed) =
               unique (Notices.seen (Notices.storage st)
                       ++ map Notification.id
                            (Notices.updateBannerNotifications checked))).
  { unfold closed, Notices.handleCloseUpdateModal. rewrite St. reflexivity. }
  assert (Seen : forall n, In n ns -> Notification.type n = "update"%string ->
                           In (Notification.id n)
                              (Notices.seen (Notices.storage closed))).
  { intros n Hin T. rewrite S2. apply SelectionFacts.unique_In. apply in_app_iff.
    destruct (in_dec string_dec (Notification.id n)
                (Notices.seen (Notices.storage st))) as [Was | Fresh];
      [left; exact Was |].
    right. apply in_map. apply Shown; assumption. }
  assert (R2 : Notices.firstVisit (Notices.storage closed) = false).
  { unfold closed, Notices.handleCloseUpdateModal. rewrite St. exact Repeat. }
  split; [exact Shown | split; [exact Only |]].
  split; [reflexivity | split; [reflexivity | split; [reflexivity |]]].
  split; [exact Seen |].
  unfold again. rewrite NoticesFacts.checkNotifications_banner by exact R2.
  rewrite NoticesFacts.updates_all_seen by exact Seen. reflexivity.
Qed.

Lemma handleCloseUpdateModal_clears_banner_witness :
  let checked :=
    Notices.checkNotifications SampleNotices.sortByDate
      (Notices.FetchOk SampleNotices.all) SampleNotices.returning in
  In SampleNotices.release (Notices.updateBannerNotifications checked)
  /\ Notices.updateBannerNotifications
       (Notices.checkNotifications SampleNotices.sortByDate
          (Notices.FetchOk SampleNotices.all)
          (Notices.handleCloseUpdateModal checked)) = [].
Proof.
  assert (Perm : forall l, Permutation l (SampleNotices.sortByDate l)).
  { intros l. apply Permutation_refl. }
  assert (Old : forall n,
             In n (Notices.updateBannerNotifications SampleNotices.returning) ->
             In n SampleNotices.all /\ Notification.type n = "update"%string).
  { intros n []. }
  pose proof (handleCloseUpdateModal_clears_banner SampleNotices.sortByDate
                SampleNotices.all SampleNotices.returning Perm eq_refl Old) as T.
  cbv zeta in T. destruct T as (Shown & _ & _ & _ & _ & _ & Gone).
  split; [| exact Gone].
  apply Shown; [right; right; left; reflexivity | reflexivity |].
  simpl. intuition discriminate.
Defined.

(** * Binary64 arithmetic *)

Module Binary64Facts.
Import Binary64.

Lemma nearestEven_error (s : Q) : Qabs (inject_Z (nearestEven s) - s) <= 1 # 2.
Proof.
  unfold nearestEven.
  pose proof (Qfloor_le s) as L. pose proof (Qlt_floor s) as U.
  rewrite inject_Z_plus in U. change (inject_Z 1) with 1 in U.
  apply Qabs_Qle_condition.
  destruct (Qcompare_spec (s - inject_Z (Qfloor s)) (1 # 2)) as [E | E | E].
  - destruct (Z.even (Qfloor s)).
    + split; lra.
    + rewrite inject_Z_plus. change (inject_Z 1) with 1. split; lra.
  - split; lra.
  - rewrite inject_Z_plus. change (inject_Z 1) with 1. split; lra.
Qed.

Lemma two_power_pos (z : Z) : 0 < 2 ^ z.
Proof. apply Qpower_0_lt. reflexivity. Qed.

Lemma two_power_cancel (z : Z) : 2 ^ (- z) * 2 ^ z == 1.
Proof.
  rewrite <- Qpower_plus by discriminate.
  replace (- z + z)%Z with 0%Z by lia. reflexivity.
Qed.

(** The significand has 53 bits: scaled by its exponent, a rational
    other than zero lies between [2^52] and [2^53]. *)
Lemma exponent_scaled (q : Q) :
  ~ q == 0 ->
  2 ^ 52 <= Qabs q * 2 ^ (- exponent q) /\ Qabs q * 2 ^ (- exponent q) < 2 ^ 53.
Proof.
  intros NZ. unfold exponent.
  set (a := Z.log2 (Z.abs (Qnum q))). set (b := Z.log2 (Zpos (Qden q))).
  assert (Nn : (0 < Z.abs (Qnum q))%Z).
  { destruct q as [n d]. unfold Qeq in NZ. simpl in *. lia. }
  assert (A : (2 ^ a <= Z.abs (Qnum q) < 2 ^ Z.succ a)%Z)
    by (apply Z.log2_spec; exact Nn).
  assert (B : (2 ^ b <= Zpos (Qden q) < 2 ^ Z.succ b)%Z) by (apply Z.log2_spec; lia).
  assert (Ha : (0 <= a)%Z) by apply Z.log2_nonneg.
  assert (Hb : (0 <= b)%Z) by apply Z.log2_nonneg.
  assert (E : Qabs q == inject_Z (Z.abs (Qnum q)) / inject_Z (Zpos (Qden q))).
  { destruct q as [n d]. simpl. apply Qmake_Qdiv. }
  set (N := inject_Z (Z.abs (Qnum q))) in *.
  set (D := inject_Z (Zpos (Qden q))) in *.
  assert (HD : 0 < D) by (unfold D; change 0 with (inject_Z 0); rewrite <- Zlt_Qlt; lia).
  assert (P52 : 0 < 2 ^ 52) by apply two_power_pos.
  (* the two powers of two around the numerator and the denominator *)
  assert (Low : 2 ^ 52 <= Qabs q * (2 ^ (- (a - b - 52)) * 2)).
  { replace (- (a - b - 52))%Z with (b + (52 + - a))%Z by lia.
    rewrite Qpower_plus by discriminate. rewrite Qpower_plus by discriminate.
    rewrite Qpower_opp.
    rewrite <- (Zpower_Qpower 2 b) by lia. rewrite <- (Zpower_Qpower 2 a) by lia.
    rewrite E.
    set (P := inject_Z (2 ^ b)) in *. set (R := inject_Z (2 ^ a)) in *.
    assert (HR : 0 < R).
    { unfold R. change 0 with (inject_Z 0). rewrite <- Zlt_Qlt.
      apply Z.pow_pos_nonneg; lia. }
    assert (HRN : R <= N) by (unfold R, N; rewrite <- Zle_Qle; lia).
    assert (HDP : D <= P * 2).
    { unfold D, P. change 2 with (inject_Z 2). rewrite <- inject_Z_mult.
      rewrite <- Zle_Qle. rewrite Z.pow_succ_r in B by lia. lia. }
    assert (X : 1 <= N / R) by (apply Qle_shift_div_l; [exact HR | lra]).
    assert (Y : 1 <= P * 2 / D) by (apply Qle_shift_div_l; [exact HD | lra]).
    assert (F : N / D * (P * (2 ^ 52 * / R) * 2) == (N / R) * (P * 2 / D) * 2 ^ 52).
    { field. split; lra. }
    rewrite F.
    assert (Z1 : 1 <= N / R * (P * 2 / D)).
    { setoid_replace 1 with (1 * 1) at 1 by reflexivity.
      apply Qmult_le_compat_nonneg; split; lra. }
    setoid_replace (2 ^ 52) with (1 * 2 ^ 52) at 1 by ring.
    apply Qmult_le_compat_r; lra. }
  assert (High : Qabs q * 2 ^ (- (a - b - 52)) < 2 ^ 53).
  { replace (- (a - b - 52))%Z with (b + (52 + - a))%Z by lia.
    rewrite Qpower_plus by discriminate. rewrite Qpower_plus by discriminate.
    rewrite Qpower_opp.
    rewrite <- (Zpower_Qpower 2 b) by lia. rewrite <- (Zpower_Qpower 2 a) by lia.
    rewrite E.
    set (P := inject_Z (2 ^ b)) in *. set (R := inject_Z (2 ^ a)) in *.
    assert (HR : 0 < R).
    { unfold R. change 0 with (inject_Z 0). rewrite <- Zlt_Qlt.
      apply Z.pow_pos_nonneg; lia. }
    assert (HP : 0 < P).
    { unfold P. change 0 with (inject_Z 0). rewrite <- Zlt_Qlt.
      apply Z.pow_pos_nonneg; lia. }
    assert (HNR : N < R * 2).
    { unfold R, N. change 2 with (inject_Z 2). rewrite <- inject_Z_mult.
      rewrite <- Zlt_Qlt. rewrite Z.pow_succ_r in A by lia. lia. }
    assert (HPD : P <= D) by (unfold D, P; rewrite <- Zle_Qle; lia).
    assert (X : N / R < 2) by (apply Qlt_shift_div_r; [exact HR | lra]).
    assert (X0 : 0 <= N / R).
    { apply Qle_shift_div_l; [exact HR |]. unfold N.
      change 0 with (inject_Z 0) at 1. rewrite Qmult_0_l.
      change 0 with (inject_Z 0). rewrite <- Zle_Qle. lia. }
    assert (Y : P / D <= 1) by (apply Qle_shift_div_r; [exact HD | lra]).
    assert (Y0 : 0 < P / D) by (apply Qlt_shift_div_l; [exact HD | lra]).
    assert (F : N / D * (P * (2 ^ 52 * / R)) == (N / R) * (P / D) * 2 ^ 52).
    { field. split; lra. }
    rewrite F.
    assert (Z1 : N / R * (P / D) < 2).
    { apply Qle_lt_trans with (N / R * 1); [| lra].
      rewrite !(Qmult_comm (N / R)). apply Qmult_le_compat_r; lra. }
    change (2 ^ 53) with (2 * 2 ^ 52).
    apply Qmult_lt_compat_r; lra. }
  destruct (Qle_bool (2 ^ 52) (Qabs q * 2 ^ (- (a - b - 52)))) eqn:T.
  - apply Qle_bool_iff in T. split; [exact T | exact High].
  - assert (T' : Qabs q * 2 ^ (- (a - b - 52)) < 2 ^ 52).
    { apply Qnot_le_lt. intros L. apply Qle_bool_iff in L. congruence. }
    replace (- (a - b - 52 - 1))%Z with (- (a - b - 52) + 1)%Z by lia.
    rewrite Qpower_plus by discriminate. change (2 ^ 1) with 2.
    split; [exact Low |].
    change (2 ^ 53) with (2 ^ 52 * 2). rewrite Qmult_assoc.
    apply Qmult_lt_compat_r; [reflexivity | exact T'].
Qed.

(** Rounding moves a number by at most the part [2^-53] of its size. *)
Lemma fl_error (q : Q) : Qabs (fl q - q) <= u * Qabs q.
Proof.
  unfold fl. cbv zeta.
  assert (R : Qred q == q) by apply Qred_correct.
  destruct (Qeq_bool (Qred q) 0) eqn:Z0.
  - apply Qeq_bool_iff in Z0. rewrite R in Z0. rewrite Z0. vm_compute. discriminate.
  - assert (NZ : ~ Qred q == 0).
    { intros E. apply Qeq_bool_iff in E. congruence. }
    set (e := exponent (Qred q)).
    set (s := Qred q * 2 ^ (- e)).
    rewrite Qred_correct.
    pose proof (nearestEven_error s) as N.
    pose proof (proj1 (exponent_scaled (Qred q) NZ)) as S. fold e in S.
    pose proof (two_power_pos e) as Pe.
    pose proof (two_power_cancel e) as C.
    assert (Eq : q == s * 2 ^ e).
    { unfold s. rewrite <- Qmult_assoc, C, Qmult_1_r. symmetry. exact R. }
    assert (D : inject_Z (nearestEven s) * 2 ^ e - q
                == (inject_Z (nearestEven s) - s) * 2 ^ e).
    { rewrite Eq at 1. ring. }
    rewrite D, Qabs_Qmult. rewrite (Qabs_pos (2 ^ e)) by lra.
    assert (As : Qabs q == Qabs s * 2 ^ e).
    { rewrite Eq at 1. rewrite Qabs_Qmult. rewrite (Qabs_pos (2 ^ e)) by lra.
      reflexivity. }
    rewrite As.
    assert (Ss : 2 ^ 52 <= Qabs s).
    { unfold s. rewrite Qabs_Qmult. rewrite (Qabs_pos (2 ^ (- e))).
      - exact S.
      - apply Qlt_le_weak, two_power_pos. }
    rewrite Qmult_assoc. apply Qmult_le_compat_r; [| lra].
    assert (H52 : u * 2 ^ 52 == 1 # 2) by reflexivity.
    apply Qle_trans with (1 # 2); [exact N |].
    rewrite <- H52. apply Qmult_le_l; [reflexivity | exact Ss].
Qed.

Lemma fl_nonneg (q : Q) : 0 <= q -> q * (1 - u) <= fl q <= q * (1 + u).
Proof.
  intros P. pose proof (fl_error q) as E. rewrite (Qabs_pos q P) in E.
  apply Qabs_Qle_condition in E. unfold u in *. split; lra.
Qed.

Lemma fl_nonpos (q : Q) : q <= 0 -> q * (1 + u) <= fl q <= q * (1 - u).
Proof.
  intros P. pose proof (fl_error q) as E. rewrite (Qabs_neg q P) in E.
  apply Qabs_Qle_condition in E. unfold u in *. split; lra.
Qed.

Lemma fl_pos (q : Q) : 0 < q -> 0 < fl q.
Proof.
  intros P. destruct (fl_nonneg q) as [L _]; [lra |]. unfold u in *. lra.
Qed.

Lemma fl_neg (q : Q) : q < 0 -> fl q < 0.
Proof.
  intros P. destruct (fl_nonpos q) as [_ U]; [lra |]. unfold u in *. lra.
Qed.

Lemma fl_abs (q : Q) : Qabs q * (1 - u) <= Qabs (fl q) <= Qabs q * (1 + u).
Proof.
  destruct (Qlt_le_dec q 0) as [N | P].
  - destruct (fl_nonpos q) as [L U]; [lra |].
    assert (F : fl q <= 0) by (unfold u in *; lra).
    rewrite (Qabs_neg q) by lra. rewrite (Qabs_neg (fl q) F). split; lra.
  - destruct (fl_nonneg q P) as [L U].
    assert (F : 0 <= fl q) by (unfold u in *; lra).
    rewrite (Qabs_pos q P). rewrite (Qabs_pos (fl q) F). split; lra.
Qed.

(** Equal rationals have one rounding. *)
Lemma fl_eq (a b : Q) : a == b -> fl a = fl b.
Proof.
  intros E. unfold fl. rewrite (Qred_complete a b E). reflexivity.
Qed.

End Binary64Facts.

Module MachineFacts.
Import PrimFloat.

(** The operations of [Binary64] round as the machine does: on the
    computations that follow, every number it gives is the binary64
    number the processor gives. *)
Lemma fl_agrees_with_machine :
  Binary64.ofFloat (55 / 100)%float = Some (Binary64.literal (55 # 100))
  /\ Binary64.ofFloat (45 / 100)%float = Some (Binary64.literal (45 # 100))
  /\ Binary64.ofFloat (176 * (300 / 440))%float
     = Some (Binary64.mul 176 (Binary64.div 300 440))
  /\ Binary64.ofFloat ((464 - 400 / (150 / 174)) / 2)%float
     = Some (Binary64.div
               (Binary64.sub 464 (Binary64.div 400 (Binary64.div 150 174))) 2).
Proof. vm_compute. repeat split. Qed.

Lemma coverCropRect_agrees_with_machine :
  map Binary64.ofFloat (Machine.coverCropRect 400 464 150 174)%float
  = rectNumbers (Binary64.coverCropRect (Image.make "blob:picture" 400 464)
      (Size.make 150 174))
  /\ map Binary64.ofFloat (Machine.coverCropRect 25 29 150 174)%float
     = rectNumbers (Binary64.coverCropRect (Image.make "blob:picture" 25 29)
         (Size.make 150 174))
  /\ map Binary64.ofFloat (Machine.coverCropRect 50 58 150 174)%float
     = rectNumbers (Binary64.coverCropRect (Image.make "blob:picture" 50 58)
         (Size.make 150 174))
  /\ map Binary64.ofFloat (Machine.coverCropRect 100 116 150 174)%float
     = rectNumbers (Binary64.coverCropRect (Image.make "blob:picture" 100 116)
         (Size.make 150 174))
  /\ map Binary64.ofFloat (Machine.coverCropRect 200 232 150 174)%float
     = rectNumbers (Binary64.coverCropRect (Image.make "blob:picture" 200 232)
         (Size.make 150 174))
  /\ map Binary64.ofFloat (Machine.coverCropRect 425 493 150 174)%float
     = rectNumbers (Binary64.coverCropRect (Image.make "blob:picture" 425 493)
         (Size.make 150 174))
  /\ map Binary64.ofFloat (Machine.coverCropRect 1000 580 150 174)%float
     = rectNumbers (Binary64.coverCropRect (Image.make "blob:picture" 1000 580)
         (Size.make 150 174))
  /\ map Binary64.ofFloat (Machine.coverCropRect 1200 800 660 440)%float
     = rectNumbers (Binary64.coverCropRect (Image.make "blob:picture" 1200 800)
         (Size.make 660 440))
  /\ map Binary64.ofFloat (Machine.coverCropRect 800 1200 900 600)%float
     = rectNumbers (Binary64.coverCropRect (Image.make "blob:picture" 800 1200)
         (Size.make 900 600))
  /\ map Binary64.ofFloat (Machine.coverCropRect 4032 3024 400 400)%float
     = rectNumbers (Binary64.coverCropRect (Image.make "blob:picture" 4032 3024)
         (Size.make 400 400))
  /\ map Binary64.ofFloat (Machine.coverCropRect 1079 1919 330 220)%float
     = rectNumbers (Binary64.coverCropRect (Image.make "blob:picture" 1079 1919)
         (Size.make 330 220))
  /\ map Binary64.ofFloat (Machine.coverCropRect 4294967295 3 150 174)%float
     = rectNumbers (Binary64.coverCropRect (Image.make "blob:picture" 4294967295 3)
         (Size.make 150 174)).
Proof. vm_compute. repeat split. Qed.

Lemma autoCropRect_agrees_with_machine :
  map Binary64.ofFloat
    (Machine.autoCropRect 1200 160 150 174 100 100 150 200 150)%float
  = rectNumbers (Binary64.autoCropRect (Image.make "blob:picture" 1200 160)
      (Size.make 150 174)
                   Sample.nose Sample.leftShoulder Sample.rightShoulder)
  /\ map Binary64.ofFloat
       (Machine.autoCropRect 1200 800 150 174 100 100 150 200 150)%float
     = rectNumbers (Binary64.autoCropRect (Image.make "blob:picture" 1200 800)
         (Size.make 150 174)
                      Sample.nose Sample.leftShoulder Sample.rightShoulder)
  /\ map Binary64.ofFloat
       (Machine.autoCropRect 640 480 400 400 133 301 207 377 203)%float
     = rectNumbers (Binary64.autoCropRect (Image.make "blob:picture" 640 480)
         (Size.make 400 400)
                      (Keypoint.make "nose" 0 133 (9 # 10))
                      (Keypoint.make "left_shoulder" 301 207 (8 # 10))
                      (Keypoint.make "right_shoulder" 377 203 (8 # 10)))
  /\ map Binary64.ofFloat
       (Machine.autoCropRect 301 977 150 174 (1157 / 8) (513 / 4) (2049 / 16)
          (1283 / 8) (2051 / 16))%float
     = rectNumbers (Binary64.autoCropRect (Image.make "blob:picture" 301 977)
         (Size.make 150 174)
                      (Keypoint.make "nose" 0 (1157 # 8) (9 # 10))
                      (Keypoint.make "left_shoulder" (513 # 4) (2049 # 16) (8 # 10))
                      (Keypoint.make "right_shoulder" (1283 # 8) (2051 # 16) (8 # 10)))
  /\ map Binary64.ofFloat
       (Machine.autoCropRect 500 500 150 174 20 490 30 510 30)%float
     = rectNumbers (Binary64.autoCropRect (Image.make "blob:picture" 500 500)
         (Size.make 150 174)
                      (Keypoint.make "nose" 0 20 (9 # 10))
                      (Keypoint.make "left_shoulder" 490 30 (8 # 10))
                      (Keypoint.make "right_shoulder" 510 30 (8 # 10))).
Proof. vm_compute. repeat split. Qed.

Lemma thumbnailSize_agrees_with_machine :
  map Binary64.ofFloat (Machine.thumbnailSize 440 176)%float
  = pairNumbers (Thumbnails.thumbnailSize (Image.make "blob:picture" 440 176))
  /\ map Binary64.ofFloat (Machine.thumbnailSize 1200 800)%float
     = pairNumbers (Thumbnails.thumbnailSize (Image.make "blob:picture" 1200 800))
  /\ map Binary64.ofFloat (Machine.thumbnailSize 800 1200)%float
     = pairNumbers (Thumbnails.thumbnailSize (Image.make "blob:picture" 800 1200))
  /\ map Binary64.ofFloat (Machine.thumbnailSize 301 301)%float
     = pairNumbers (Thumbnails.thumbnailSize (Image.make "blob:picture" 301 301))
  /\ map Binary64.ofFloat (Machine.thumbnailSize 4032 3024)%float
     = pairNumbers (Thumbnails.thumbnailSize (Image.make "blob:picture" 4032 3024))
  /\ map Binary64.ofFloat (Machine.thumbnailSize 299 300)%float
     = pairNumbers (Thumbnails.thumbnailSize (Image.make "blob:picture" 299 300))
  /\ map Binary64.ofFloat (Machine.thumbnailSize 1 4294967295)%float
     = pairNumbers (Thumbnails.thumbnailSize (Image.make "blob:picture" 1 4294967295)).
Proof. vm_compute. repeat split. Qed.

End MachineFacts.

(** ** The crop rectangles in binary64 *)

Module Binary64Geometry.
Import Binary64 Binary64Facts.

Section Cover.

Variables W H w h : Q.
Hypothesis (PW : 0 < W) (PH : 0 < H) (Pw : 0 < w) (Ph : 0 < h).

(** The image is wider than the target: the crop has the height of the
    image. *)
Lemma wide_branch :
  fl (w / h) < fl (W / H) ->
  let sw := fl (H * fl (w / h)) in
  let x := fl (fl (W - sw) / 2) in
  0 < sw
  /\ - (eps * W) <= x
  /\ x + sw <= W * (1 + eps)
  /\ Qabs (sw / H - w / h) <= eps * (w / h).
Proof.
  intros Br sw x.
  set (a := w / h) in *. set (a' := fl a) in *.
  assert (Pa : 0 < a) by (unfold a; apply Qlt_shift_div_l; lra).
  assert (Pa' : 0 < a') by (apply fl_pos; exact Pa).
  destruct (fl_nonneg a) as [La Ua]; [lra |]. fold a' in La, Ua.
  assert (PA : 0 < W / H) by (apply Qlt_shift_div_l; lra).
  destruct (fl_nonneg (W / H)) as [LA UA]; [lra |].
  set (t := H * a') in *.
  assert (Pt : 0 < t) by (unfold t; apply Qmult_lt_0_compat; assumption).
  assert (T1 : t < W * (1 + u)).
  { assert (X : a' < W / H * (1 + u)) by lra.
    unfold t.
    setoid_replace (W * (1 + u)) with (H * (W / H * (1 + u))) by (field; lra).
    apply Qmult_lt_l; assumption. }
  destruct (fl_nonneg t) as [Ls Us]; [lra |]. fold sw in Ls, Us.
  assert (Ps : 0 < sw) by (apply fl_pos; exact Pt).
  split; [exact Ps |].
  assert (Bx : - (eps * W) <= x /\ x + sw <= W * (1 + eps)).
  { unfold x, eps.
    assert (Hf : fl (W - sw) / 2 == fl (W - sw) * (1 # 2)) by (field; lra).
    rewrite (fl_eq _ _ Hf). set (d := fl (W - sw)) in *. set (y := d * (1 # 2)).
    destruct (Qlt_le_dec (W - sw) 0) as [Neg | Pos].
    - destruct (fl_nonpos (W - sw)) as [L1 U1]; [lra |]. fold d in L1, U1.
      destruct (fl_nonpos y) as [L2 U2]; [unfold y, u in *; lra |].
      unfold y, u in *. split; lra.
    - destruct (fl_nonneg (W - sw)) as [L1 U1]; [lra |]. fold d in L1, U1.
      destruct (fl_nonneg y) as [L2 U2]; [unfold y, u in *; lra |].
      unfold y, u in *. split; lra. }
  split; [apply Bx | split; [apply Bx |]].
  apply Qabs_diff_Qle_condition.
  assert (Et : t / H == a') by (unfold t; field; lra).
  assert (D1 : t * (1 - u) / H <= sw / H).
  { apply Qmult_le_compat_r; [exact Ls | apply Qlt_le_weak, Qinv_lt_0_compat; exact PH]. }
  assert (D2 : sw / H <= t * (1 + u) / H).
  { apply Qmult_le_compat_r; [exact Us | apply Qlt_le_weak, Qinv_lt_0_compat; exact PH]. }
  assert (F1 : t * (1 - u) / H == a' * (1 - u)) by (rewrite <- Et; field; lra).
  assert (F2 : t * (1 + u) / H == a' * (1 + u)) by (rewrite <- Et; field; lra).
  rewrite F1 in D1. rewrite F2 in D2.
  unfold eps, u in *. split; lra.
Qed.

(** The image is not wider than the target: the crop has the width of
    the image. *)
Lemma tall_branch :
  fl (W / H) <= fl (w / h) ->
  let sh := fl (W / fl (w / h)) in
  let y := fl (fl (H - sh) / 2) in
  0 < sh
  /\ - (eps * H) <= y
  /\ y + sh <= H * (1 + eps)
  /\ Qabs (W / sh - w / h) <= eps * (w / h).
Proof.
  intros Br sh y.
  set (a := w / h) in *. set (a' := fl a) in *.
  assert (Pa : 0 < a) by (unfold a; apply Qlt_shift_div_l; lra).
  assert (Pa' : 0 < a') by (apply fl_pos; exact Pa).
  destruct (fl_nonneg a) as [La Ua]; [lra |]. fold a' in La, Ua.
  assert (PA : 0 < W / H) by (apply Qlt_shift_div_l; lra).
  destruct (fl_nonneg (W / H)) as [LA UA]; [lra |].
  set (q := W / a') in *.
  assert (Pq : 0 < q) by (unfold q; apply Qlt_shift_div_l; lra).
  assert (Eq : q * a' == W) by (unfold q; field; lra).
  assert (Q1 : q * (1 - u) <= H).
  { assert (X : W / H * (1 - u) <= a') by lra.
    assert (Y : W * (1 - u) <= a' * H).
    { setoid_replace (W * (1 - u)) with (W / H * (1 - u) * H) by (field; lra).
      apply Qmult_le_compat_r; lra. }
    setoid_replace (q * (1 - u)) with (W * (1 - u) / a') by (unfold q; field; lra).
    apply Qle_shift_div_r; [exact Pa' |]. rewrite (Qmult_comm H). exact Y. }
  destruct (fl_nonneg q) as [Ls Us]; [lra |]. fold sh in Ls, Us.
  assert (Ps : 0 < sh) by (apply fl_pos; exact Pq).
  split; [exact Ps |].
  assert (By : - (eps * H) <= y /\ y + sh <= H * (1 + eps)).
  { unfold y, eps.
    assert (Hf : fl (H - sh) / 2 == fl (H - sh) * (1 # 2)) by (field; lra).
    rewrite (fl_eq _ _ Hf). set (d := fl (H - sh)) in *. set (z := d * (1 # 2)).
    destruct (Qlt_le_dec (H - sh) 0) as [Neg | Pos].
    - destruct (fl_nonpos (H - sh)) as [L1 U1]; [lra |]. fold d in L1, U1.
      destruct (fl_nonpos z) as [L2 U2]; [unfold z, u in *; lra |].
      unfold z, u in *. split; lra.
    - destruct (fl_nonneg (H - sh)) as [L1 U1]; [lra |]. fold d in L1, U1.
      destruct (fl_nonneg z) as [L2 U2]; [unfold z, u in *; lra |].
      unfold z, u in *. split; lra. }
  split; [apply By | split; [apply By |]].
  apply Qabs_diff_Qle_condition.
  set (r := W / sh).
  assert (R1 : r * (1 - u) <= a').
  { setoid_replace (r * (1 - u)) with (W * (1 - u) / sh) by (unfold r; field; lra).
    apply Qle_shift_div_r; [exact Ps |].
    rewrite <- Eq.
    setoid_replace (q * a' * (1 - u)) with (a' * (q * (1 - u))) by ring.
    apply Qmult_le_l; assumption. }
  assert (R2 : a' <= r * (1 + u)).
  { setoid_replace (r * (1 + u)) with (W * (1 + u) / sh) by (unfold r; field; lra).
    apply Qle_shift_div_l; [exact Ps |].
    rewrite <- Eq.
    setoid_replace (q * a' * (1 + u)) with (a' * (q * (1 + u))) by ring.
    apply Qmult_le_l; assumption. }
  unfold eps, u in *. split; lra.
Qed.

End Cover.

End Binary64Geometry.

Module Binary64Crop.
Import Binary64 Binary64Facts.

(** The centred cover crop takes the image whole along one axis; along
    the other it is centred, inside the image up to rounding, and it has
    the aspect ratio of the target up to rounding. *)
Lemma coverCropRect_bounds (image : Image.t) (targetSize : Size.t) :
  (0 < Image.pixelWidth image)%Z -> (0 < Image.pixelHeight image)%Z ->
  (0 < Size.pixelW targetSize)%Z -> (0 < Size.pixelH targetSize)%Z ->
  let r := coverCropRect image targetSize in
  ((Rect.x r = 0 /\ Rect.width r = Image.width image)
   \/ (Rect.y r = 0 /\ Rect.height r = Image.height image))
  /\ InsideUpTo eps image r
  /\ 0 < Rect.width r /\ 0 < Rect.height r
  /\ Qabs (Rect.width r / Rect.height r - Size.w targetSize / Size.h targetSize)
     <= eps * (Size.w targetSize / Size.h targetSize).
Proof.
  intros HW HH Hw Hh.
  apply inject_Z_positive in HW, HH, Hw, Hh.
  fold (Image.width image) in HW. fold (Image.height image) in HH.
  fold (Size.w targetSize) in Hw. fold (Size.h targetSize) in Hh.
  unfold coverCropRect, InsideUpTo, div, mul, sub.
  set (W := Image.width image) in *. set (H := Image.height image) in *.
  set (w := Size.w targetSize) in *. set (h := Size.h targetSize) in *.
  cbv zeta.
  destruct (Qgt_bool (fl (W / H)) (fl (w / h))) eqn:Br.
  - apply Qgt_bool_iff in Br.
    destruct (Binary64Geometry.wide_branch W H w h HW HH Hw Hh Br) as (A & B & C & D).
    cbn [Rect.x Rect.y Rect.width Rect.height].
    split; [right; split; reflexivity |].
    split; [| split; [exact A | split; [exact HH | exact D]]].
    unfold eps in *. split; [exact B | split; [lra | split; [exact C | lra]]].
  - apply Qgt_bool_false in Br.
    destruct (Binary64Geometry.tall_branch W H w h HW HH Hw Hh Br) as (A & B & C & D).
    cbn [Rect.x Rect.y Rect.width Rect.height].
    split; [left; split; reflexivity |].
    split; [| split; [exact HW | split; [exact A | exact D]]].
    unfold eps in *. split; [lra | split; [exact B | split; [lra | exact C]]].
Qed.

(** A target ratio below [2^32] keeps the rounding under a thousandth. *)
Lemma eps_under_thousandth (targetSize : Size.t) :
  (0 < Size.pixelW targetSize < 2 ^ 32)%Z -> (0 < Size.pixelH targetSize)%Z ->
  eps * (Size.w targetSize / Size.h targetSize) <= 1 # 1000.
Proof.
  intros [Hw Uw] Hh.
  assert (A : Size.w targetSize / Size.h targetSize <= 4294967296).
  { apply Qle_shift_div_r.
    - apply inject_Z_positive. exact Hh.
    - unfold Size.w, Size.h.
      assert (X : inject_Z (Size.pixelW targetSize) <= 4294967296).
      { change 4294967296 with (inject_Z 4294967296). rewrite <- Zle_Qle.
        change (2 ^ 32)%Z with 4294967296%Z in Uw. lia. }
      assert (Y : 1 <= inject_Z (Size.pixelH targetSize)).
      { change 1 with (inject_Z 1). rewrite <- Zle_Qle. lia. }
      apply Qle_trans with (4294967296 * 1); [lra |].
      apply Qmult_le_l; [reflexivity | exact Y]. }
  unfold eps. lra.
Qed.

(** The sizes of the pose-guided region, whichever bound limits it, have
    the aspect ratio of the target up to rounding. *)
Lemma cropSize_aspect (a mW mH cw ch : Q) :
  0 < a ->
  (cw, ch) = (if Qle_bool (fl (mW / fl a)) mH
              then (mW, fl (mW / fl a))
              else (fl (mH * fl a), mH)) ->
  Qabs (cw - ch * a) <= eps * a * Qabs ch.
Proof.
  intros Pa E. set (a' := fl a) in *.
  assert (Pa' : 0 < a') by (apply fl_pos; exact Pa).
  destruct (fl_nonneg a) as [La Ua]; [lra |]. fold a' in La, Ua.
  assert (Da : Qabs (a' - a) <= u * a).
  { apply Qabs_Qle_condition. unfold u in *. split; lra. }
  destruct (Qle_bool (fl (mW / a')) mH); injection E as -> ->.
  - set (t := mW / a').
    assert (Et : mW == t * a') by (unfold t; field; lra).
    rewrite Et.
    pose proof (fl_error t) as Ef. pose proof (fl_abs t) as [Fl _].
    pose proof (Qabs_nonneg t) as Tp. pose proof (Qabs_nonneg (fl t)) as Fp.
    assert (S : t * a' - fl t * a == t * (a' - a) + a * (t - fl t)) by ring.
    rewrite S.
    eapply Qle_trans; [apply Qabs_triangle |].
    rewrite !Qabs_Qmult. rewrite (Qabs_pos a) by lra.
    rewrite (Qabs_Qminus t (fl t)).
    assert (E2 : Qabs t * Qabs (a' - a) <= Qabs t * (u * a)).
    { rewrite !(Qmult_comm (Qabs t)). apply Qmult_le_compat_r; assumption. }
    assert (E3 : a * Qabs (fl t - t) <= a * (u * Qabs t)).
    { rewrite !(Qmult_comm a). apply Qmult_le_compat_r; [exact Ef | lra]. }
    assert (E4 : a * (Qabs t * (1 - u)) <= a * Qabs (fl t)).
    { rewrite !(Qmult_comm a). apply Qmult_le_compat_r; [exact Fl | lra]. }
    assert (E5 : 0 <= a * Qabs t) by (apply Qmult_le_0_compat; lra).
    unfold eps, u in *. lra.
  - set (s := mH * a').
    pose proof (fl_error s) as Ef.
    pose proof (Qabs_nonneg mH) as Cp.
    assert (S : fl s - mH * a == (fl s - s) + mH * (a' - a)) by (unfold s; ring).
    rewrite S.
    eapply Qle_trans; [apply Qabs_triangle |].
    assert (As : Qabs s == Qabs mH * a').
    { unfold s. rewrite Qabs_Qmult. rewrite (Qabs_pos a') by lra. reflexivity. }
    rewrite As in Ef. rewrite Qabs_Qmult.
    assert (E2 : Qabs mH * Qabs (a' - a) <= Qabs mH * (u * a)).
    { rewrite !(Qmult_comm (Qabs mH)). apply Qmult_le_compat_r; assumption. }
    assert (E3 : Qabs mH * a' <= Qabs mH * (a * (1 + u))).
    { rewrite !(Qmult_comm (Qabs mH)). apply Qmult_le_compat_r; assumption. }
    assert (E5 : 0 <= a * Qabs mH) by (apply Qmult_le_0_compat; lra).
    unfold eps, u in *. lra.
Qed.

(** The sizes stay within the two bounds, the width up to rounding. *)
Lemma cropSize_le (a mW mH cw ch : Q) :
  0 < a ->
  (cw, ch) = (if Qle_bool (fl (mW / fl a)) mH
              then (mW, fl (mW / fl a))
              else (fl (mH * fl a), mH)) ->
  ch <= mH /\ cw <= mW + eps * Qabs mW.
Proof.
  intros Pa E. set (a' := fl a) in *.
  assert (Pa' : 0 < a') by (apply fl_pos; exact Pa).
  pose proof (Qabs_nonneg mW) as Am.
  destruct (Qle_bool (fl (mW / a')) mH) eqn:T; injection E as -> ->.
  - apply Qle_bool_iff in T. split; [exact T | unfold eps; lra].
  - split; [lra |].
    assert (T' : mH < fl (mW / a')).
    { apply Qnot_le_lt. intros L. apply Qle_bool_iff in L. congruence. }
    set (t := mW / a') in *.
    assert (Et : t * a' == mW) by (unfold t; field; lra).
    destruct (Qlt_le_dec t 0) as [Neg | Pos].
    + destruct (fl_nonpos t) as [_ U]; [lra |].
      assert (NW : mW < 0).
      { rewrite <- Et. setoid_replace 0 with (0 * a') by ring.
        apply Qmult_lt_compat_r; assumption. }
      assert (X1 : mH * a' < t * (1 - u) * a').
      { apply Qmult_lt_compat_r; [exact Pa' | lra]. }
      assert (X2 : t * (1 - u) * a' == mW * (1 - u)) by (rewrite <- Et; ring).
      rewrite X2 in X1.
      destruct (fl_nonpos (mH * a')) as [_ U2]; [unfold u in *; lra |].
      rewrite (Qabs_neg mW) by lra. unfold eps, u in *. lra.
    + destruct (fl_nonneg t Pos) as [_ U].
      assert (NW : 0 <= mW).
      { rewrite <- Et. apply Qmult_le_0_compat; lra. }
      assert (X1 : mH * a' < t * (1 + u) * a').
      { apply Qmult_lt_compat_r; [exact Pa' | lra]. }
      assert (X2 : t * (1 + u) * a' == mW * (1 + u)) by (rewrite <- Et; ring).
      rewrite X2 in X1.
      rewrite (Qabs_pos mW NW).
      destruct (Qlt_le_dec (mH * a') 0) as [N2 | P2].
      * pose proof (fl_neg _ N2). unfold eps. lra.
      * destruct (fl_nonneg _ P2) as [_ U2]. unfold eps, u in *. lra.
Qed.

Lemma maxCropWidth_le (W cx : Q) :
  0 < W -> fl (2 * Qmin cx (fl (W - cx))) <= W * (1 + u) * (1 + u).
Proof.
  intros PW.
  assert (M0 : 2 * Qmin cx (fl (W - cx)) <= W * (1 + u)).
  { destruct (Q.min_spec cx (fl (W - cx))) as [[Lt E] | [Ge E]]; rewrite E.
    - destruct (Qlt_le_dec (W - cx) 0) as [Neg | Pos].
      + pose proof (fl_neg _ Neg). unfold u. lra.
      + destruct (fl_nonneg _ Pos) as [_ U]. unfold u in *. lra.
    - destruct (Qlt_le_dec (W - cx) 0) as [Neg | Pos].
      + pose proof (fl_neg _ Neg). unfold u. lra.
      + destruct (fl_nonneg _ Pos) as [_ U]. unfold u in *. lra. }
  set (m := 2 * Qmin cx (fl (W - cx))) in *.
  destruct (Qlt_le_dec m 0) as [Neg | Pos].
  - pose proof (fl_neg _ Neg). unfold u. lra.
  - destruct (fl_nonneg _ Pos) as [_ U]. unfold u in *. lra.
Qed.

Lemma literal_half : literal (1 # 2) = 1 # 2.
Proof. reflexivity. Qed.

Lemma literal_055 : literal (55 # 100) = 2476979795053773 # 4503599627370496.
Proof. vm_compute. reflexivity. Qed.

Lemma literal_045 : literal (45 # 100) = 8106479329266893 # 18014398509481984.
Proof. vm_compute. reflexivity. Qed.

Lemma maxCropHeight_le (H ay : Q) :
  0 < H ->
  Qmin (fl (ay / literal (55 # 100))) (fl (fl (H - ay) / literal (45 # 100)))
  <= H * (1 + u) * (1 + u).
Proof.
  intros PH. rewrite literal_055, literal_045.
  assert (D1 : ay / (2476979795053773 # 4503599627370496)
               == ay * (4503599627370496 # 2476979795053773)) by (field; discriminate).
  assert (D2 : fl (H - ay) / (8106479329266893 # 18014398509481984)
               == fl (H - ay) * (18014398509481984 # 8106479329266893))
    by (field; discriminate).
  rewrite (fl_eq _ _ D1), (fl_eq _ _ D2).
  set (t1 := ay * (4503599627370496 # 2476979795053773)).
  set (d := fl (H - ay)) in *.
  set (t2 := d * (18014398509481984 # 8106479329266893)).
  pose proof (Q.le_min_l (fl t1) (fl t2)) as M1.
  pose proof (Q.le_min_r (fl t1) (fl t2)) as M2.
  destruct (Qlt_le_dec H t1) as [Big | Small].
  - assert (B1 : d <= (H - ay) * (1 + u) \/ d <= 0).
    { destruct (Qlt_le_dec (H - ay) 0) as [Neg | Pos].
      - right. pose proof (fl_neg _ Neg). unfold d. lra.
      - left. destruct (fl_nonneg _ Pos) as [_ U]. exact U. }
    destruct (Qlt_le_dec t2 0) as [Neg | Pos].
    + pose proof (fl_neg _ Neg). unfold u. lra.
    + destruct (fl_nonneg _ Pos) as [_ U].
      unfold t1, t2, u in *. destruct B1; lra.
  - destruct (Qlt_le_dec t1 0) as [Neg | Pos].
    + pose proof (fl_neg _ Neg). unfold u. lra.
    + destruct (fl_nonneg _ Pos) as [_ U]. unfold u in *. lra.
Qed.

(** A corner clamped into the image leaves the far edge inside it, up
    to rounding. *)
Lemma clamp_upper (size extent start : Q) :
  0 <= extent -> 0 < size ->
  extent <= size * (1 + 2 * eps) ->
  Qmax 0 (Qmin start (fl (size - extent))) + extent <= size * (1 + 2 * eps).
Proof.
  intros Pe Ps Le.
  pose proof (Q.le_min_r start (fl (size - extent))) as M.
  destruct (Q.max_spec 0 (Qmin start (fl (size - extent)))) as [[Lt E] | [Ge E]];
    rewrite E; [| lra].
  destruct (Qlt_le_dec (size - extent) 0) as [Neg | Pos].
  - pose proof (fl_neg _ Neg). lra.
  - destruct (fl_nonneg _ Pos) as [_ U]. unfold eps, u in *. lra.
Qed.

End Binary64Crop.

Module Binary64Pose.
Import Binary64 Binary64Facts Binary64Crop.

Lemma ratio_from_product (cw ch a tol : Q) :
  0 < ch -> Qabs (cw - ch * a) <= tol * Qabs ch -> Qabs (cw / ch - a) <= tol.
Proof.
  intros P B. rewrite (Qabs_pos ch) in B by lra.
  assert (E : cw / ch - a == (cw - ch * a) / ch) by (field; lra).
  rewrite E. unfold Qdiv. rewrite Qabs_Qmult.
  rewrite (Qabs_pos (/ ch)) by (apply Qlt_le_weak, Qinv_lt_0_compat; exact P).
  apply Qle_shift_div_r; [exact P | exact B].
Qed.

(** The region the pose estimate returns, as binary64 computes it. *)
Lemma autoCropRect_rounded (image : Image.t) (targetSize : Size.t)
    (nose leftShoulder rightShoulder : Keypoint.t) :
  (0 < Image.pixelWidth image)%Z -> (0 < Image.pixelHeight image)%Z ->
  (0 < Size.pixelW targetSize)%Z -> (0 < Size.pixelH targetSize)%Z ->
  let a := div (Size.w targetSize) (Size.h targetSize) in
  let anchorX := div (add (Keypoint.x leftShoulder) (Keypoint.x rightShoulder)) 2 in
  let shoulderY := div (add (Keypoint.y leftShoulder) (Keypoint.y rightShoulder)) 2 in
  let anchorY :=
    add (mul (Keypoint.y nose) (literal (1 # 2))) (mul shoulderY (literal (1 # 2))) in
  let maxWidth := mul 2 (Qmin anchorX (sub (Image.width image) anchorX)) in
  let maxHeight :=
    Qmin (div anchorY (literal (55 # 100)))
         (div (sub (Image.height image) anchorY) (literal (45 # 100))) in
  let r := autoCropRect image targetSize nose leftShoulder rightShoulder in
  (div maxWidth a <= maxHeight ->
   Rect.width r = maxWidth /\ Rect.height r = div maxWidth a)
  /\ (maxHeight < div maxWidth a ->
      Rect.width r = mul maxHeight a /\ Rect.height r = maxHeight)
  /\ Rect.height r <= maxHeight
  /\ Rect.width r <= maxWidth + eps * Qabs maxWidth
  /\ Qabs (Rect.width r - Rect.height r * (Size.w targetSize / Size.h targetSize))
     <= eps * (Size.w targetSize / Size.h targetSize) * Qabs (Rect.height r)
  /\ Rect.x r = Qmax 0 (Qmin (sub anchorX (mul (Rect.width r) (literal (1 # 2))))
                             (sub (Image.width image) (Rect.width r)))
  /\ Rect.y r = Qmax 0 (Qmin (sub anchorY (mul (Rect.height r) (literal (1 # 2))))
                             (sub (Image.height image) (Rect.height r)))
  /\ 0 <= Rect.x r /\ 0 <= Rect.y r
  /\ (0 <= Rect.width r ->
      Rect.x r + Rect.width r <= Image.width image * (1 + 2 * eps))
  /\ (0 <= Rect.height r ->
      Rect.y r + Rect.height r <= Image.height image * (1 + 2 * eps)).
Proof.
  intros HW HH Hw Hh a anchorX shoulderY anchorY maxWidth maxHeight r.
  apply inject_Z_positive in HW, HH.
  fold (Image.width image) in HW. fold (Image.height image) in HH.
  pose proof (aspect_positive targetSize Hw Hh) as Pa.
  set (W := Image.width image) in *. set (H := Image.height image) in *.
  set (b := Size.w targetSize / Size.h targetSize) in *.
  assert (Ea : a = fl b) by reflexivity.
  set (cw := Rect.width r). set (ch := Rect.height r).
  assert (Sz : (cw, ch) = (if Qle_bool (fl (maxWidth / fl b)) maxHeight
                           then (maxWidth, fl (maxWidth / fl b))
                           else (fl (maxHeight * fl b), maxHeight))).
  { unfold cw, ch, r, autoCropRect. cbv zeta.
    fold a anchorX shoulderY anchorY. fold W H. fold maxWidth maxHeight.
    unfold div at 1. unfold div at 2. unfold mul at 1. rewrite Ea.
    destruct (Qle_bool (fl (maxWidth / fl b)) maxHeight); reflexivity. }
  assert (Ex : Rect.x r = Qmax 0 (Qmin (sub anchorX (mul cw (literal (1 # 2))))
                                       (sub W cw))).
  { unfold cw, r, autoCropRect. cbv zeta.
    fold a anchorX shoulderY anchorY. fold W H. fold maxWidth maxHeight.
    destruct (Qle_bool (div maxWidth a) maxHeight); reflexivity. }
  assert (Ey : Rect.y r = Qmax 0 (Qmin (sub anchorY (mul ch (literal (1 # 2))))
                                       (sub H ch))).
  { unfold ch, r, autoCropRect. cbv zeta.
    fold a anchorX shoulderY anchorY. fold W H. fold maxWidth maxHeight.
    destruct (Qle_bool (div maxWidth a) maxHeight); reflexivity. }
  destruct (cropSize_le b maxWidth maxHeight cw ch Pa Sz) as [LeH LeW].
  pose proof (cropSize_aspect b maxWidth maxHeight cw ch Pa Sz) as Asp.
  pose proof (maxCropWidth_le W anchorX HW) as MW.
  pose proof (maxCropHeight_le H anchorY HH) as MH.
  fold (sub W anchorX) in MW. fold (mul 2 (Qmin anchorX (sub W anchorX))) in MW.
  fold maxWidth in MW.
  assert (BW : cw <= W * (1 + 2 * eps)).
  { destruct (Qlt_le_dec maxWidth 0) as [N | P].
    - rewrite (Qabs_neg maxWidth) in LeW by lra. unfold eps in *. lra.
    - rewrite (Qabs_pos maxWidth P) in LeW. unfold eps, u in *. lra. }
  assert (BH : ch <= H * (1 + 2 * eps)).
  { unfold maxHeight, div, sub in LeH. unfold eps, u in *. lra. }
  split.
  { intros T. apply Qle_bool_iff in T. unfold div in T at 1. rewrite Ea in T.
    rewrite T in Sz. injection Sz as -> ->. split; [reflexivity |].
    unfold div. rewrite Ea. reflexivity. }
  split.
  { intros T.
    assert (F : Qle_bool (fl (maxWidth / fl b)) maxHeight = false).
    { destruct (Qle_bool (fl (maxWidth / fl b)) maxHeight) eqn:X; [| reflexivity].
      apply Qle_bool_iff in X. unfold div in T. rewrite Ea in T. lra. }
    rewrite F in Sz. injection Sz as -> ->. split; [| reflexivity].
    unfold mul. rewrite Ea. reflexivity. }
  split; [exact LeH |]. split; [exact LeW |]. split; [exact Asp |].
  split; [exact Ex |]. split; [exact Ey |].
  split; [rewrite Ex; apply Q.le_max_l |].
  split; [rewrite Ey; apply Q.le_max_l |].
  split.
  - intros P. rewrite Ex. apply clamp_upper; assumption.
  - intros P. rewrite Ey. apply clamp_upper; assumption.
Qed.

(** The pose estimate returns the region once the first pose holds the
    three keypoints. *)
Lemma getAutoCropRegion_found
    d image targetSize poses pose ks nose leftShoulder rightShoulder s :
  estimatePoses d image = Returned (Some (pose :: poses)) ->
  Pose.keypoints pose = Some ks ->
  findKeypoint ks "nose" = Some nose ->
  findKeypoint ks "left_shoulder" = Some leftShoulder ->
  findKeypoint ks "right_shoulder" = Some rightShoulder ->
  exists s',
    getAutoCropRegion image targetSize (Some d) s
    = (Ok (Some (autoCropRect image targetSize nose leftShoulder rightShoulder)), s').
Proof.
  intros E K N L R. unfold getAutoCropRegion. js_unfold.
  rewrite E, K, N, L, R. eexists. reflexivity.
Qed.

End Binary64Pose.

Module Binary64Scenario.
Import Binary64 Binary64Facts Binary64Crop Binary64Pose.

(** The scenario of the specification: shoulders at (100,150) and
    (200,150), nose at (150,100), target 150 by 174, in a picture that
    holds the anchor in its interior. *)
Lemma scenario_region (picture : Image.t) :
  (150 < Image.pixelWidth picture)%Z -> (125 < Image.pixelHeight picture)%Z ->
  let q := autoCropRect picture (Size.make 150 174)
             Sample.nose Sample.leftShoulder Sample.rightShoulder in
  add (mul (Keypoint.y Sample.nose) (literal (1 # 2)))
      (mul (div (add (Keypoint.y Sample.leftShoulder)
                     (Keypoint.y Sample.rightShoulder)) 2)
           (literal (1 # 2))) = 125
  /\ 0 < Rect.height q
  /\ Qabs (Rect.width q / Rect.height q - 150 / 174) <= eps * (150 / 174).
Proof.
  intros PW PH q.
  split; [vm_compute; reflexivity |].
  assert (HW : (0 < Image.pixelWidth picture)%Z) by lia.
  assert (HH : (0 < Image.pixelHeight picture)%Z) by lia.
  pose proof (autoCropRect_rounded picture (Size.make 150 174)
                Sample.nose Sample.leftShoulder Sample.rightShoulder
                HW HH eq_refl eq_refl) as F.
  cbv zeta in F. fold q in F.
  assert (EX : div (add (Keypoint.x Sample.leftShoulder)
                        (Keypoint.x Sample.rightShoulder)) 2 = 150)
    by (vm_compute; reflexivity).
  assert (EY : add (mul (Keypoint.y Sample.nose) (literal (1 # 2)))
                   (mul (div (add (Keypoint.y Sample.leftShoulder)
                                  (Keypoint.y Sample.rightShoulder)) 2)
                        (literal (1 # 2))) = 125)
    by (vm_compute; reflexivity).
  rewrite EX, EY in F.
  set (W := Image.width picture) in *. set (H := Image.height picture) in *.
  assert (LW : 150 < W).
  { unfold W, Image.width. rewrite Zlt_Qlt in PW. exact PW. }
  assert (LH : 125 < H).
  { unfold H, Image.height. rewrite Zlt_Qlt in PH. exact PH. }
  set (b := div (Size.w (Size.make 150 174)) (Size.h (Size.make 150 174))) in *.
  assert (Pb : 0 < b) by (vm_compute; reflexivity).
  set (mw := mul 2 (Qmin 150 (sub W 150))) in *.
  set (mh := Qmin (div 125 (literal (55 # 100)))
                  (div (sub H 125) (literal (45 # 100)))) in *.
  assert (Pw : 0 < mw).
  { unfold mw, mul, sub. apply fl_pos.
    assert (P1 : 0 < fl (W - 150)) by (apply fl_pos; lra).
    destruct (Q.min_spec 150 (fl (W - 150))) as [[L E] | [L E]]; rewrite E; lra. }
  assert (Ph : 0 < mh).
  { unfold mh, div, sub. rewrite literal_055, literal_045.
    assert (P1 : 0 < fl (125 / (2476979795053773 # 4503599627370496))).
    { apply fl_pos. reflexivity. }
    assert (P2 : 0 < fl (fl (H - 125) / (8106479329266893 # 18014398509481984))).
    { apply fl_pos. apply Qlt_shift_div_l; [reflexivity |].
      assert (P3 : 0 < fl (H - 125)) by (apply fl_pos; lra). lra. }
    set (t1 := fl (125 / (2476979795053773 # 4503599627370496))) in *.
    set (t2 := fl (fl (H - 125) / (8106479329266893 # 18014398509481984))) in *.
    destruct (Q.min_spec t1 t2) as [[L E] | [L E]]; rewrite E; lra. }
  destruct F as (F1 & F2 & _ & _ & Asp & _).
  assert (P : 0 < Rect.height q).
  { destruct (Qlt_le_dec mh (div mw b)) as [L | L].
    - destruct (F2 L) as [_ E]. rewrite E. exact Ph.
    - destruct (F1 L) as [_ E]. rewrite E. unfold div. apply fl_pos.
      apply Qlt_shift_div_l; lra. }
  split; [exact P |].
  apply ratio_from_product; [exact P | exact Asp].
Qed.

End Binary64Scenario.

(** ** The crop rectangle of an exported image, as it is computed *)

(** Claim C1, as the code has it.  For an image and a target of
    positive sizes below 2^32, in binary64: a manual crop is the source
    rectangle as it was saved, unchecked.  The centred cover crop takes
    the image whole along one axis; it lies in the image up to the part
    2^-51 of its sides, and its aspect ratio is the one of the target up
    to the part 2^-51, hence within a thousandth.  The pose-guided
    region has a corner that is not negative; when its sizes are not
    negative its far edges lie in the image up to the part 2^-50 of its
    sides; its width is its height times the target aspect ratio up to
    the part 2^-51, hence its aspect ratio is within a thousandth of
    the target's when its height is positive.  The keypoints are
    coordinates in the range of a detector. *)
Theorem crop_rect_invariant (image : Image.t) (targetSize : Size.t) :
  (0 < Image.pixelWidth image < 2 ^ 32)%Z ->
  (0 < Image.pixelHeight image < 2 ^ 32)%Z ->
  (0 < Size.pixelW targetSize < 2 ^ 32)%Z ->
  (0 < Size.pixelH targetSize < 2 ^ 32)%Z ->
  let a := Size.w targetSize / Size.h targetSize in
  (forall crop, Binary64.sourceRect image (Some crop) targetSize = crop)
  /\ (let r := Binary64.sourceRect image None targetSize in
      ((Rect.x r = 0 /\ Rect.width r = Image.width image)
       \/ (Rect.y r = 0 /\ Rect.height r = Image.height image))
      /\ Binary64.InsideUpTo Binary64.eps image r
      /\ 0 < Rect.width r /\ 0 < Rect.height r
      /\ Qabs (Rect.width r / Rect.height r - a) <= Binary64.eps * a
      /\ Qabs (Rect.width r / Rect.height r - a) <= 1 # 1000)
  /\ (forall nose leftShoulder rightShoulder,
        Binary64.InRange nose -> Binary64.InRange leftShoulder ->
        Binary64.InRange rightShoulder ->
        let r := Binary64.autoCropRect image targetSize
                   nose leftShoulder rightShoulder in
        0 <= Rect.x r /\ 0 <= Rect.y r
        /\ (0 <= Rect.width r ->
            Rect.x r + Rect.width r <= Image.width image * (1 + 2 * Binary64.eps))
        /\ (0 <= Rect.height r ->
            Rect.y r + Rect.height r <= Image.height image * (1 + 2 * Binary64.eps))
        /\ Qabs (Rect.width r - Rect.height r * a)
           <= Binary64.eps * a * Qabs (Rect.height r)
        /\ (0 < Rect.height r ->
            Qabs (Rect.width r / Rect.height r - a) <= 1 # 1000)).
Proof.
  intros [HW _] [HH _] [Hw Uw] [Hh _] a.
  pose proof (Binary64Crop.eps_under_thousandth targetSize (conj Hw Uw) Hh) as Small.
  fold a in Small.
  split; [intros crop; apply rect_eta |].
  split.
  - cbv zeta. unfold Binary64.sourceRect.
    destruct (Binary64Crop.coverCropRect_bounds image targetSize HW HH Hw Hh)
      as (Axis & Inside & PW & PH & Asp).
    fold a in Asp.
    split; [exact Axis | split; [exact Inside | split; [exact PW |]]].
    split; [exact PH | split; [exact Asp | lra]].
  - intros nose leftShoulder rightShoulder _ _ _ r.
    destruct (Binary64Pose.autoCropRect_rounded image targetSize
                nose leftShoulder rightShoulder HW HH Hw Hh)
      as (_ & _ & _ & _ & Asp & _ & _ & X0 & Y0 & XW & YH).
    fold r in Asp, X0, Y0, XW, YH. fold a in Asp.
    split; [exact X0 | split; [exact Y0 | split; [exact XW | split; [exact YH |]]]].
    split; [exact Asp |].
    intros P. apply Qle_trans with (Binary64.eps * a); [| exact Small].
    apply Binary64Pose.ratio_from_product; [exact P | exact Asp].
Qed.

Lemma crop_rect_invariant_witness :
  let r := Binary64.sourceRect SamplePictures.portrait None (Size.make 150 174) in
  Binary64.InsideUpTo Binary64.eps SamplePictures.portrait r
  /\ Qabs (Rect.width r / Rect.height r - 150 / 174) <= 1 # 1000.
Proof.
  assert (HW : (0 < Image.pixelWidth SamplePictures.portrait < 2 ^ 32)%Z)
    by (split; reflexivity).
  assert (HH : (0 < Image.pixelHeight SamplePictures.portrait < 2 ^ 32)%Z)
    by (split; reflexivity).
  assert (Hw : (0 < Size.pixelW (Size.make 150 174) < 2 ^ 32)%Z)
    by (split; reflexivity).
  assert (Hh : (0 < Size.pixelH (Size.make 150 174) < 2 ^ 32)%Z)
    by (split; reflexivity).
  pose proof (crop_rect_invariant SamplePictures.portrait (Size.make 150 174)
                HW HH Hw Hh) as T.
  cbv zeta in T. destruct T as (_ & (_ & Inside & _ & _ & _ & Near) & _).
  split; [exact Inside | exact Near].
Defined.

(** The invariant of claim C1 fails twice.  A portrait crop saved under
    EPARK and exported under PeakManager is used as it is and does not
    have the aspect ratio of the square target.  And the centred cover
    crop of a picture of 400 by 464 pixels for the target 150 by 174,
    whose aspect ratios are equal, starts above the picture and ends
    below it: [y] is -2^-45 and the height 464 + 2^-44. *)
Lemma crop_rect_invariant_fails :
  (exists canvas,
     croppedCanvasFor Sample.decode (Some Sample.personDetector) ModelReady
       Sample.cropped (Size.make 400 400) freshWorld = (Ok canvas, freshWorld)
     /\ drawnFrom canvas = Some Sample.portrait
     /\ ~ CropInvariant (Sample.picture "blob:cropped") (Size.make 400 400)
          Sample.portrait)
  /\ (let r := Binary64.sourceRect SamplePictures.portrait None (Size.make 150 174) in
      Rect.y r == - (1 # 35184372088832)
      /\ Rect.height r == 464 + (1 # 17592186044416)
      /\ Rect.y r < 0
      /\ Image.height SamplePictures.portrait < Rect.y r + Rect.height r
      /\ ~ CropInvariant SamplePictures.portrait (Size.make 150 174) r).
Proof.
  split.
  - destruct manual_crop_breaks_invariant as (_ & _ & canvas & Run & From & Bad).
    exists canvas. split; [exact Run | split; [exact From | exact Bad]].
  - cbv zeta.
    assert (E : Binary64.sourceRect SamplePictures.portrait None (Size.make 150 174)
                = Rect.make 0 (- (1 # 35184372088832)) 400
                            (8162774324609025 # 17592186044416))
      by (vm_compute; reflexivity).
    rewrite E. cbn [Rect.x Rect.y Rect.width Rect.height].
    split; [reflexivity | split; [reflexivity | split; [reflexivity |]]].
    split; [reflexivity |].
    intros [[_ [Y _]] _]. cbn [Rect.y] in Y. revert Y. apply Qlt_not_le. reflexivity.
Qed.

(** ** The formula of the pose-guided region *)

(** Claim C5, as the code has it.  When the detector returns a first
    pose holding the three keypoints, with coordinates in the range of
    a detector, for an image and a target of positive sizes below 2^32,
    [getAutoCropRegion] returns the
    region of the formula, every operation being the binary64 one: the
    horizontal anchor is the middle of the shoulders, the vertical
    anchor half the nose height plus half the shoulder height, the
    bounds are twice the distance to the nearer side edge and
    min(anchorY/0.55, (height - anchorY)/0.45), the limiting bound is
    found by comparing maxWidth/aspect with maxHeight, and the corner is
    the centred one clamped into the image.  The height stays within
    its bound and the width within its bound up to rounding; the width
    is the height times the target aspect ratio up to the part 2^-51;
    the corner is not negative and, for sizes that are not negative,
    the far edges lie in the image up to the part 2^-50 of its sides.
    For shoulders at (100,150) and (200,150), nose at (150,100) and
    target 150 by 174 the vertical anchor is 125, and in every picture
    that holds the anchor in its interior the region has a positive
    height and width/height equal to 150/174 up to the part 2^-51. *)
Theorem getAutoCropRegion_formula
    d image targetSize poses pose ks nose leftShoulder rightShoulder s :
  (0 < Image.pixelWidth image < 2 ^ 32)%Z ->
  (0 < Image.pixelHeight image < 2 ^ 32)%Z ->
  (0 < Size.pixelW targetSize < 2 ^ 32)%Z ->
  (0 < Size.pixelH targetSize < 2 ^ 32)%Z ->
  estimatePoses d image = Returned (Some (pose :: poses)) ->
  Pose.keypoints pose = Some ks ->
  findKeypoint ks "nose" = Some nose ->
  findKeypoint ks "left_shoulder" = Some leftShoulder ->
  findKeypoint ks "right_shoulder" = Some rightShoulder ->
  Binary64.InRange nose -> Binary64.InRange leftShoulder ->
  Binary64.InRange rightShoulder ->
  let a := Binary64.div (Size.w targetSize) (Size.h targetSize) in
  let anchorX :=
    Binary64.div (Binary64.add (Keypoint.x leftShoulder) (Keypoint.x rightShoulder)) 2 in
  let shoulderY :=
    Binary64.div (Binary64.add (Keypoint.y leftShoulder) (Keypoint.y rightShoulder)) 2 in
  let anchorY :=
    Binary64.add (Binary64.mul (Keypoint.y nose) (Binary64.literal (1 # 2)))
                 (Binary64.mul shoulderY (Binary64.literal (1 # 2))) in
  let maxWidth :=
    Binary64.mul 2 (Qmin anchorX (Binary64.sub (Image.width image) anchorX)) in
  let maxHeight :=
    Qmin (Binary64.div anchorY (Binary64.literal (55 # 100)))
         (Binary64.div (Binary64.sub (Image.height image) anchorY)
                       (Binary64.literal (45 # 100))) in
  exists r s',
    Binary64.getAutoCropRegion image targetSize (Some d) s = (Ok (Some r), s')
    /\ (Binary64.div maxWidth a <= maxHeight ->
        Rect.width r = maxWidth /\ Rect.height r = Binary64.div maxWidth a)
    /\ (maxHeight < Binary64.div maxWidth a ->
        Rect.width r = Binary64.mul maxHeight a /\ Rect.height r = maxHeight)
    /\ Rect.height r <= maxHeight
    /\ Rect.width r <= maxWidth + Binary64.eps * Qabs maxWidth
    /\ Qabs (Rect.width r - Rect.height r * (Size.w targetSize / Size.h targetSize))
       <= Binary64.eps * (Size.w targetSize / Size.h targetSize)
          * Qabs (Rect.height r)
    /\ Rect.x r
       = Qmax 0 (Qmin (Binary64.sub anchorX
                         (Binary64.mul (Rect.width r) (Binary64.literal (1 # 2))))
                      (Binary64.sub (Image.width image) (Rect.width r)))
    /\ Rect.y r
       = Qmax 0 (Qmin (Binary64.sub anchorY
                         (Binary64.mul (Rect.height r) (Binary64.literal (1 # 2))))
                      (Binary64.sub (Image.height image) (Rect.height r)))
    /\ 0 <= Rect.x r /\ 0 <= Rect.y r
    /\ (0 <= Rect.width r ->
        Rect.x r + Rect.width r <= Image.width image * (1 + 2 * Binary64.eps))
    /\ (0 <= Rect.height r ->
        Rect.y r + Rect.height r <= Image.height image * (1 + 2 * Binary64.eps))
    /\ (forall picture : Image.t,
          (150 < Image.pixelWidth picture < 2 ^ 32)%Z ->
          (125 < Image.pixelHeight picture < 2 ^ 32)%Z ->
          let q := Binary64.autoCropRect picture (Size.make 150 174)
                     Sample.nose Sample.leftShoulder Sample.rightShoulder in
          Binary64.add
            (Binary64.mul (Keypoint.y Sample.nose) (Binary64.literal (1 # 2)))
            (Binary64.mul
               (Binary64.div (Binary64.add (Keypoint.y Sample.leftShoulder)
                                           (Keypoint.y Sample.rightShoulder)) 2)
               (Binary64.literal (1 # 2))) = 125
          /\ 0 < Rect.height q
          /\ Qabs (Rect.width q / Rect.height q - 150 / 174)
             <= Binary64.eps * (150 / 174)).
Proof.
  intros [HW _] [HH _] [Hw _] [Hh _] E K N L R _ _ _
         a anchorX shoulderY anchorY maxWidth maxHeight.
  destruct (Binary64Pose.getAutoCropRegion_found d image targetSize poses pose ks
              nose leftShoulder rightShoulder s E K N L R) as [s' Run].
  exists (Binary64.autoCropRect image targetSize nose leftShoulder rightShoulder), s'.
  split; [exact Run |].
  pose proof (Binary64Pose.autoCropRect_rounded image targetSize
                nose leftShoulder rightShoulder HW HH Hw Hh) as F.
  cbv zeta in F. fold a anchorX shoulderY anchorY in F. fold maxWidth maxHeight in F.
  destruct F as (F1 & F2 & F3 & F4 & F5 & F6 & F7 & F8 & F9 & F10 & F11).
  repeat (split; [assumption |]).
  intros picture [PW _] [PH _].
  exact (Binary64Scenario.scenario_region picture PW PH).
Qed.

Lemma getAutoCropRegion_formula_witness :
  estimatePoses Sample.personDetector (Sample.picture "blob:staff")
  = Returned (Some [Pose.make (Some [Sample.nose; Sample.leftEye;
                                     Sample.leftShoulder; Sample.rightShoulder])])
  /\ exists r s',
       Binary64.getAutoCropRegion (Sample.picture "blob:staff") (Size.make 150 174)
         (Some Sample.personDetector) freshWorld = (Ok (Some r), s')
       /\ 0 <= Rect.x r /\ 0 <= Rect.y r
       /\ Qabs (Rect.width r - Rect.height r * (150 / 174))
          <= Binary64.eps * (150 / 174) * Qabs (Rect.height r).
Proof.
  split; [reflexivity |].
  assert (HW : (0 < Image.pixelWidth (Sample.picture "blob:staff") < 2 ^ 32)%Z)
    by (split; reflexivity).
  assert (HH : (0 < Image.pixelHeight (Sample.picture "blob:staff") < 2 ^ 32)%Z)
    by (split; reflexivity).
  assert (Hw : (0 < Size.pixelW (Size.make 150 174) < 2 ^ 32)%Z)
    by (split; reflexivity).
  assert (Hh : (0 < Size.pixelH (Size.make 150 174) < 2 ^ 32)%Z)
    by (split; reflexivity).
  assert (Kn : Binary64.InRange Sample.nose)
    by (split; right; (split; [apply Qle_bool_iff; reflexivity | reflexivity])).
  assert (Kl : Binary64.InRange Sample.leftShoulder)
    by (split; right; (split; [apply Qle_bool_iff; reflexivity | reflexivity])).
  assert (Kr : Binary64.InRange Sample.rightShoulder)
    by (split; right; (split; [apply Qle_bool_iff; reflexivity | reflexivity])).
  destruct (getAutoCropRegion_formula Sample.personDetector
              (Sample.picture "blob:staff") (Size.make 150 174) []
              (Pose.make (Some [Sample.nose; Sample.leftEye;
                                Sample.leftShoulder; Sample.rightShoulder]))
              [Sample.nose; Sample.leftEye; Sample.leftShoulder; Sample.rightShoulder]
              Sample.nose Sample.leftShoulder Sample.rightShoulder freshWorld
              HW HH Hw Hh eq_refl eq_refl eq_refl eq_refl eq_refl Kn Kl Kr)
    as (r & s' & R & _ & _ & _ & _ & E & _ & _ & X & Y & _).
  exists r, s'. split; [exact R | split; [exact X | split; [exact Y | exact E]]].
Defined.

(** In the scenario of claim C5 the aspect ratio is not exact in every
    picture: in one of 1200 by 160 pixels the region is about 67.05 by
    77.78, and neither the exact quotient of its sides nor the binary64
    one is the one of 150 and 174. *)
Lemma aspect_ratio_not_exact :
  let q := Binary64.autoCropRect SamplePictures.strip (Size.make 150 174)
             Sample.nose Sample.leftShoulder Sample.rightShoulder in
  Rect.width q == 2359105408255019 # 35184372088832
  /\ Rect.height q == 1368281136787911 # 17592186044416
  /\ ~ Rect.width q / Rect.height q == 150 / 174
  /\ ~ Binary64.div (Rect.width q) (Rect.height q) == Binary64.div 150 174.
Proof.
  cbv zeta.
  assert (E : Binary64.autoCropRect SamplePictures.strip (Size.make 150 174)
                Sample.nose Sample.leftShoulder Sample.rightShoulder
              = Rect.make (8196206218394581 # 70368744177664)
                          (1446468630318649 # 17592186044416)
                          (2359105408255019 # 35184372088832)
                          (1368281136787911 # 17592186044416)).
  { vm_compute. reflexivity. }
  rewrite E. cbn [Rect.x Rect.y Rect.width Rect.height].
  split; [reflexivity | split; [reflexivity | split]].
  - intros F. vm_compute in F. discriminate.
  - intros F. vm_compute in F. discriminate.
Qed.

(** ** The scaled preview, as it is computed *)

Module Binary64Thumbnail.
Import Binary64 Binary64Facts.

(** The shorter side of an image whose longer side is brought down to
    300 pixels. *)
Lemma scaled_side (long short : Q) :
  301 <= long -> 0 < short -> short <= long ->
  let s := fl (short * fl (300 / long)) in
  0 < s /\ s < 301 /\ s <= short
  /\ Qabs (300 * short - s * long) <= eps * (300 * short)
  /\ Qabs (s * long - 300 * short) <= eps * (s * long).
Proof.
  intros Ll Ps Le s.
  set (rho := 300 / long) in *.
  assert (Pl : 0 < long) by lra.
  assert (Pr : 0 < rho) by (unfold rho; apply Qlt_shift_div_l; lra).
  assert (Er : rho * long == 300) by (unfold rho; field; lra).
  assert (Ur : rho <= 300 # 301).
  { unfold rho. apply Qle_shift_div_r; [exact Pl | lra]. }
  destruct (fl_nonneg rho) as [L1 U1]; [lra |].
  set (f := fl rho) in *.
  set (p := short * rho).
  assert (Pp : 0 < p) by (unfold p; apply Qmult_lt_0_compat; assumption).
  assert (Ep : p * long == 300 * short) by (unfold p; rewrite <- Er; ring).
  assert (P1 : p <= short * (300 # 301)).
  { unfold p. apply Qmult_le_l; assumption. }
  assert (P2 : p <= 300).
  { apply (Qmult_lt_0_le_reg_r _ _ long Pl). rewrite Ep.
    rewrite (Qmult_comm 300 long), (Qmult_comm 300 short).
    apply Qmult_le_compat_r; lra. }
  assert (T1 : p * (1 - u) <= short * f).
  { unfold p. rewrite <- Qmult_assoc. apply Qmult_le_l; assumption. }
  assert (T2 : short * f <= p * (1 + u)).
  { unfold p. rewrite <- Qmult_assoc. apply Qmult_le_l; assumption. }
  set (t := short * f) in *.
  assert (Pt : 0 < t) by (unfold u in *; lra).
  destruct (fl_nonneg t) as [L2 U2]; [lra |]. fold s in L2, U2.
  assert (S1 : p * (1 - u) * (1 - u) <= s) by (unfold u in *; lra).
  assert (S2 : s <= p * (1 + u) * (1 + u)) by (unfold u in *; lra).
  assert (M1 : p * (1 - u) * (1 - u) * long <= s * long).
  { apply Qmult_le_compat_r; lra. }
  assert (M2 : s * long <= p * (1 + u) * (1 + u) * long).
  { apply Qmult_le_compat_r; lra. }
  assert (F1 : p * (1 - u) * (1 - u) * long == 300 * short * (1 - u) * (1 - u))
    by (rewrite <- Ep; ring).
  assert (F2 : p * (1 + u) * (1 + u) * long == 300 * short * (1 + u) * (1 + u))
    by (rewrite <- Ep; ring).
  rewrite F1 in M1. rewrite F2 in M2.
  split; [unfold u in *; lra |].
  split; [unfold u in *; lra |].
  split; [unfold u in *; lra |].
  split; apply Qabs_Qle_condition; unfold eps, u in *; split; lra.
Qed.

(** A canvas side is the whole part of the size it is given. *)
Lemma canvasSide_whole (v : Q) :
  0 <= v -> inject_Z (canvasSide v) <= v /\ v < inject_Z (canvasSide v) + 1.
Proof.
  intros P. rewrite (canvasSide_floor v P). split.
  - apply Qfloor_le.
  - pose proof (Qlt_floor v) as L. rewrite inject_Z_plus in L. exact L.
Qed.

Lemma canvasSide_below (v : Q) (m : Z) :
  0 <= v -> v < inject_Z m + 1 -> (0 <= canvasSide v <= m)%Z.
Proof.
  intros P L. destruct (canvasSide_whole v P) as [A B]. split.
  - rewrite (canvasSide_floor v P). change 0%Z with (Qfloor 0).
    apply Qfloor_resp_le. exact P.
  - assert (X : inject_Z (canvasSide v) < inject_Z (m + 1)).
    { rewrite inject_Z_plus. change (inject_Z 1) with 1. lra. }
    rewrite <- Zlt_Qlt in X. lia.
Qed.

End Binary64Thumbnail.

(** The scaled preview of the first revision, in binary64.  An image
    that does not load leaves the promise pending.  For an image of
    positive sizes below 2^32 the canvas has the whole parts of the
    sizes computed, fits in 300 by 300 pixels and is never larger than
    the image; an image within 300 by 300 keeps its size, a larger one
    gets a canvas whose longer side is 300; and the sizes computed keep
    the aspect ratio of the image up to the part 2^-51, so that the
    shorter side of the canvas can fall one pixel short of it. *)
Theorem createThumbnail_fits (decode : Url -> option Image.t) (imageUrl : Url) :
  (decode imageUrl = None -> Thumbnails.createThumbnail decode imageUrl = None)
  /\ (forall img,
        decode imageUrl = Some img ->
        (0 < Image.pixelWidth img < 2 ^ 32)%Z ->
        (0 < Image.pixelHeight img < 2 ^ 32)%Z ->
        exists width height canvas,
          Thumbnails.createThumbnail decode imageUrl
          = Some (DataUrl None canvas (8 # 10))
          /\ drawnFrom canvas = Some (wholeImage img)
          /\ drawnTo canvas = Some (Rect.make 0 0 width height)
          /\ 0 < width /\ 0 < height
          /\ inject_Z (canvasWidth canvas) <= width < inject_Z (canvasWidth canvas) + 1
          /\ inject_Z (canvasHeight canvas) <= height
             < inject_Z (canvasHeight canvas) + 1
          /\ (0 <= canvasWidth canvas <= 300)%Z
          /\ (0 <= canvasHeight canvas <= 300)%Z
          /\ (canvasWidth canvas <= Image.pixelWidth img)%Z
          /\ (canvasHeight canvas <= Image.pixelHeight img)%Z
          /\ Qabs (width * Image.height img - height * Image.width img)
             <= Binary64.eps * (width * Image.height img)
          /\ ((Image.pixelWidth img <= 300)%Z -> (Image.pixelHeight img <= 300)%Z ->
              width = Image.width img /\ height = Image.height img)
          /\ ((300 < Image.pixelWidth img)%Z \/ (300 < Image.pixelHeight img)%Z ->
              Z.max (canvasWidth canvas) (canvasHeight canvas) = 300%Z)).
Proof.
  split.
  - intros E. unfold Thumbnails.createThumbnail. now rewrite E.
  - intros img E [HW _] [HH _]. unfold Thumbnails.createThumbnail. rewrite E.
    set (W := Image.width img). set (H := Image.height img).
    assert (PW : 0 < W) by (apply inject_Z_positive; exact HW).
    assert (PH : 0 < H) by (apply inject_Z_positive; exact HH).
    assert (Same : forall width height,
               Thumbnails.thumbnailSize img = (width, height) ->
               0 < width /\ 0 < height /\ width < 301 /\ height < 301
               /\ width <= W /\ height <= H
               /\ Qabs (width * H - height * W) <= Binary64.eps * (width * H)
               /\ ((Image.pixelWidth img <= 300)%Z -> (Image.pixelHeight img <= 300)%Z ->
                   width = W /\ height = H)
               /\ ((300 < Image.pixelWidth img)%Z \/ (300 < Image.pixelHeight img)%Z ->
                   (width = 300 /\ height < 301) \/ (height = 300 /\ width < 301))).
    { intros width height. unfold Thumbnails.thumbnailSize. cbv zeta.
      fold W H. unfold Binary64.mul, Binary64.div.
      assert (Zero : forall v, Qabs (v - v) <= Binary64.eps * v \/ v < 0).
      { intros v. destruct (Qlt_le_dec v 0) as [N | P]; [right; exact N | left].
        setoid_replace (v - v) with 0 by ring. unfold Binary64.eps.
        change (Qabs 0) with 0. lra. }
      destruct (Qgt_bool W H) eqn:Wide.
      - apply Qgt_bool_iff in Wide.
        destruct (Qgt_bool W 300) eqn:Big.
        + apply Qgt_bool_iff in Big. intros S. injection S as <- <-.
          assert (Big' : 301 <= W).
          { unfold W, Image.width in *. change 301 with (inject_Z 301).
            change 300 with (inject_Z 300) in Big.
            rewrite <- Zlt_Qlt in Big. rewrite <- Zle_Qle. lia. }
          destruct (Binary64Thumbnail.scaled_side W H Big' PH) as (A & B & C & D & _);
            [lra |].
          split; [reflexivity | split; [exact A | split; [reflexivity |]]].
          split; [exact B | split; [lra | split; [exact C | split; [exact D |]]]].
          split.
          * intros LW _. exfalso. unfold W, Image.width in Big.
            change 300 with (inject_Z 300) in Big. rewrite <- Zlt_Qlt in Big. lia.
          * intros _. left. split; [reflexivity | exact B].
        + apply Qgt_bool_false in Big. intros S. injection S as <- <-.
          split; [exact PW | split; [exact PH | split; [lra | split; [lra |]]]].
          split; [lra | split; [lra | split]].
          * rewrite (Qmult_comm H W).
            destruct (Zero (W * H)) as [Z | Z]; [exact Z |].
            assert (0 < W * H) by (apply Qmult_lt_0_compat; assumption). lra.
          * split; [intros _ _; split; reflexivity |].
            intros [L | L]; exfalso.
            -- unfold W, Image.width in Big. change 300 with (inject_Z 300) in Big.
               rewrite <- Zle_Qle in Big. lia.
            -- unfold W, H, Image.width, Image.height in *.
               change 300 with (inject_Z 300) in Big.
               rewrite <- Zle_Qle in Big. rewrite <- Zlt_Qlt in Wide. lia.
      - apply Qgt_bool_false in Wide.
        destruct (Qgt_bool H 300) eqn:Big.
        + apply Qgt_bool_iff in Big. intros S. injection S as <- <-.
          assert (Big' : 301 <= H).
          { unfold H, Image.height in *. change 301 with (inject_Z 301).
            change 300 with (inject_Z 300) in Big.
            rewrite <- Zlt_Qlt in Big. rewrite <- Zle_Qle. lia. }
          destruct (Binary64Thumbnail.scaled_side H W Big' PW Wide)
            as (A & B & C & _ & D).
          split; [exact A | split; [reflexivity | split; [exact B |]]].
          split; [reflexivity | split; [exact C | split; [lra | split; [exact D |]]]].
          split.
          * intros _ LH. exfalso. unfold H, Image.height in Big.
            change 300 with (inject_Z 300) in Big. rewrite <- Zlt_Qlt in Big. lia.
          * intros _. right. split; [reflexivity | exact B].
        + apply Qgt_bool_false in Big. intros S. injection S as <- <-.
          split; [exact PW | split; [exact PH | split; [lra | split; [lra |]]]].
          split; [lra | split; [lra | split]].
          * rewrite (Qmult_comm H W).
            destruct (Zero (W * H)) as [Z | Z]; [exact Z |].
            assert (0 < W * H) by (apply Qmult_lt_0_compat; assumption). lra.
          * split; [intros _ _; split; reflexivity |].
            intros [L | L]; exfalso.
            -- unfold W, H, Image.width, Image.height in *.
               change 300 with (inject_Z 300) in Big.
               rewrite <- Zle_Qle in Big, Wide. lia.
            -- unfold H, Image.height in Big. change 300 with (inject_Z 300) in Big.
               rewrite <- Zle_Qle in Big. lia. }
    destruct (Thumbnails.thumbnailSize img) as [width height].
    destruct (Same width height eq_refl)
      as (Pw & Ph & Lw & Lh & Nw & Nh & Asp & Small & Large).
    exists width, height. eexists. split; [reflexivity |].
    cbn [drawnFrom drawnTo canvasWidth canvasHeight].
    split; [reflexivity | split; [reflexivity | split; [exact Pw | split; [exact Ph |]]]].
    assert (Cw : inject_Z (canvasSide width) <= width < inject_Z (canvasSide width) + 1)
      by (apply Binary64Thumbnail.canvasSide_whole; lra).
    assert (Ch : inject_Z (canvasSide height) <= height
                 < inject_Z (canvasSide height) + 1)
      by (apply Binary64Thumbnail.canvasSide_whole; lra).
    assert (Bw : (0 <= canvasSide width <= 300)%Z)
      by (apply Binary64Thumbnail.canvasSide_below;
          [lra | change (inject_Z 300 + 1) with 301; exact Lw]).
    assert (Bh : (0 <= canvasSide height <= 300)%Z)
      by (apply Binary64Thumbnail.canvasSide_below;
          [lra | change (inject_Z 300 + 1) with 301; exact Lh]).
    split; [exact Cw | split; [exact Ch | split; [exact Bw | split; [exact Bh |]]]].
    split.
    { apply (canvasSide_bounds width (Image.pixelWidth img)); [lra | exact Nw]. }
    split.
    { apply (canvasSide_bounds height (Image.pixelHeight img)); [lra | exact Nh]. }
    split; [exact Asp | split; [exact Small |]].
    intros L. destruct (Large L) as [[Ew _] | [Eh _]].
    + rewrite Ew. change (canvasSide 300) with 300%Z. lia.
    + rewrite Eh. change (canvasSide 300) with 300%Z. lia.
Qed.

Lemma createThumbnail_fits_witness :
  exists width height canvas,
    Thumbnails.createThumbnail SamplePictures.decodeBanner "blob:banner"
    = Some (DataUrl None canvas (8 # 10))
    /\ drawnTo canvas = Some (Rect.make 0 0 width height)
    /\ canvasWidth canvas = 300%Z /\ canvasHeight canvas = 119%Z
    /\ Qabs (width * 176 - height * 440) <= Binary64.eps * (width * 176).
Proof.
  destruct (createThumbnail_fits SamplePictures.decodeBanner "blob:banner") as [_ T].
  destruct (T SamplePictures.banner eq_refl) as (width & height & canvas & Run & F);
    [split; reflexivity | split; reflexivity |].
  destruct F as (_ & To & _ & _ & _ & _ & _ & _ & _ & _ & Asp & _).
  exists width, height, canvas.
  split; [exact Run | split; [exact To |]].
  assert (C : canvas
              = Canvas 300 119 SmoothLow (Img SamplePictures.banner)
                       (wholeImage SamplePictures.banner)
                       (Rect.make 0 0 300 (8444249301319679 # 70368744177664))).
  { assert (R : Thumbnails.createThumbnail SamplePictures.decodeBanner "blob:banner"
                = Some (DataUrl None
                          (Canvas 300 119 SmoothLow (Img SamplePictures.banner)
                                  (wholeImage SamplePictures.banner)
                                  (Rect.make 0 0 300
                                     (8444249301319679 # 70368744177664)))
                          (8 # 10)))
      by (vm_compute; reflexivity).
    rewrite R in Run. injection Run as <-. reflexivity. }
  rewrite C. split; [reflexivity | split; [reflexivity | exact Asp]].
Defined.

(** ** The archive of a batch *)

Module JSZipFacts.
Import JSZip.

Lemma file_names (name : string) (data : Blob) (entries : list (string * Blob))
    (n : string) :
  In n (map fst (file name data entries)) <-> n = name \/ In n (map fst entries).
Proof.
  induction entries as [|[m d] rest IH]; simpl.
  - split; [intros [<- | []]; left; reflexivity | intros [-> | []]; left; reflexivity].
  - destruct (String.eqb_spec m name) as [E | N]; simpl.
    + subst m. split; [intros [<- | I]; [left; reflexivity | right; right; exact I] |].
      intros [-> | [<- | I]]; [left | left | right]; trivial.
    + rewrite IH. split.
      * intros [<- | [-> | I]]; [right; left | left | right; right]; trivial.
      * intros [-> | [<- | I]]; [right; left | left | right; right]; trivial.
Qed.

Lemma file_length (name : string) (data : Blob) (entries : list (string * Blob)) :
  (In name (map fst entries) ->
   List.length (file name data entries) = List.length entries)
  /\ (~ In name (map fst entries) ->
      List.length (file name data entries) = S (List.length entries)).
Proof.
  induction entries as [|[m d] rest [IH1 IH2]]; simpl.
  - split; [contradiction | reflexivity].
  - destruct (String.eqb_spec m name) as [E | N]; simpl.
    + split; [reflexivity | intros X; exfalso; apply X; left; exact E].
    + split.
      * intros [E | I]; [contradiction | rewrite (IH1 I); reflexivity].
      * intros X. rewrite IH2; [reflexivity |]. intros I. apply X. right. exact I.
Qed.

Lemma file_NoDup (name : string) (data : Blob) (entries : list (string * Blob)) :
  NoDup (map fst entries) -> NoDup (map fst (file name data entries)).
Proof.
  induction entries as [|[m d] rest IH]; simpl; intros ND.
  - constructor; [intros [] | constructor].
  - inversion ND as [|? ? Nin ND']; subst.
    destruct (String.eqb_spec m name) as [E | N]; simpl.
    + subst m. constructor; assumption.
    + constructor; [| apply IH; exact ND'].
      intros I. apply file_names in I. destruct I as [E | I]; [| contradiction].
      apply N. exact E.
Qed.

Lemma file_In (name : string) (data : Blob) (entries : list (string * Blob))
    (n : string) (b : Blob) :
  NoDup (map fst entries) ->
  In (n, b) (file name data entries) <->
  (n = name /\ b = data) \/ (n <> name /\ In (n, b) entries).
Proof.
  induction entries as [|[m d] rest IH]; simpl; intros ND.
  - split.
    + intros [E | []]. injection E as <- <-. left. split; reflexivity.
    + intros [[-> ->] | [_ []]]. left. reflexivity.
  - inversion ND as [|? ? Nin ND']; subst.
    destruct (String.eqb_spec m name) as [E | N]; simpl.
    + subst m. split.
      * intros [E | I].
        -- injection E as <- <-. left. split; reflexivity.
        -- right. split; [| right; exact I].
           intros ->. apply Nin. apply (in_map fst) in I. exact I.
      * intros [[-> ->] | [Nn [E | I]]].
        -- left. reflexivity.
        -- injection E as E _. congruence.
        -- right. exact I.
    + rewrite (IH ND'). split.
      * intros [E | [A | [Nn I]]].
        -- injection E as <- <-. right. split; [exact N | left; reflexivity].
        -- left. exact A.
        -- right. split; [exact Nn | right; exact I].
      * intros [A | [Nn [E | I]]].
        -- right. left. exact A.
        -- left. exact E.
        -- right. right. split; assumption.
Qed.

Lemma files_snoc (calls : list (string * Blob)) (call : string * Blob) :
  files (calls ++ [call]) = file (fst call) (snd call) (files calls).
Proof. unfold files. rewrite fold_left_app. reflexivity. Qed.

Lemma files_names (calls : list (string * Blob)) (n : string) :
  In n (map fst (files calls)) <-> In n (map fst calls).
Proof.
  induction calls as [|call calls IH] using rev_ind; [reflexivity |].
  rewrite files_snoc, file_names, IH, map_app, in_app_iff. simpl.
  split; [intros [-> | I] | intros [I | [<- | []]]]; tauto.
Qed.

(** An archive holds one entry for a name. *)
Lemma files_NoDup (calls : list (string * Blob)) : NoDup (map fst (files calls)).
Proof.
  induction calls as [|call calls IH] using rev_ind; [constructor |].
  rewrite files_snoc. apply file_NoDup. exact IH.
Qed.

(** The entry of a name is the one of the last call with that name. *)
Lemma files_In (calls : list (string * Blob)) (n : string) (b : Blob) :
  In (n, b) (files calls) <->
  exists before after,
    calls = (before ++ (n, b) :: after)%list /\ ~ In n (map fst after).
Proof.
  induction calls as [|call calls IH] using rev_ind.
  - split; [intros [] |]. intros (before & after & E & _).
    destruct before; discriminate.
  - rewrite files_snoc, (file_In _ _ _ _ _ (files_NoDup calls)). split.
    + intros [[-> ->] | [Nn I]].
      * exists calls, []. split; [destruct call; reflexivity | intros []].
      * apply IH in I. destruct I as (before & after & -> & Nin).
        exists before, (after ++ [call])%list. split.
        -- rewrite <- app_assoc. reflexivity.
        -- rewrite map_app, in_app_iff. simpl. intros [I | [E | []]]; [tauto |].
           apply Nn. symmetry. exact E.
    + intros (before & after & E & Nin).
      destruct after as [|x after'] using rev_ind.
      * change (before ++ [(n, b)])%list with (before ++ [(n, b)])%list in E.
        apply app_inj_tail in E. destruct E as [_ ->]. left. split; reflexivity.
      * clear IHafter'.
        assert (E' : (calls ++ [call] = (before ++ (n, b) :: after') ++ [x])%list).
        { rewrite E. rewrite <- app_assoc. reflexivity. }
        apply app_inj_tail in E'. destruct E' as [-> ->].
        rewrite map_app, in_app_iff in Nin. simpl in Nin.
        right. split; [intros ->; apply Nin; right; left; reflexivity |].
        apply IH. exists before, after'. split; [reflexivity | tauto].
Qed.

Lemma files_length_le (calls : list (string * Blob)) :
  (List.length (files calls) <= List.length calls)%nat.
Proof.
  induction calls as [|call calls IH] using rev_ind; [simpl; lia |].
  rewrite files_snoc, length_app. simpl.
  destruct (file_length (fst call) (snd call) (files calls)) as [A B].
  destruct (in_dec string_dec (fst call) (map fst (files calls))) as [I | N].
  - rewrite (A I). lia.
  - rewrite (B N). lia.
Qed.

(** No entry is lost exactly when the names of the calls are all
    different. *)
Lemma files_length_eq (calls : list (string * Blob)) :
  List.length (files calls) = List.length calls <-> NoDup (map fst calls).
Proof.
  induction calls as [|call calls IH] using rev_ind.
  - split; [constructor | reflexivity].
  - rewrite files_snoc, length_app, map_app. simpl.
    pose proof (files_length_le calls) as Le.
    destruct (file_length (fst call) (snd call) (files calls)) as [A B].
    destruct (in_dec string_dec (fst call) (map fst (files calls))) as [I | N].
    + rewrite (A I). split; [lia |]. intros ND.
      apply NoDup_remove_2 in ND. rewrite app_nil_r in ND.
      exfalso. apply ND. apply files_names. exact I.
    + rewrite (B N). split.
      * intros E. assert (E' : List.length (files calls) = List.length calls) by lia.
        apply IH in E'.
        apply NoDup_app; [exact E' | constructor; [intros [] | constructor] |].
        intros x Hx [<- | []]. apply N. apply files_names. exact Hx.
      * intros ND. apply NoDup_remove_1 in ND. rewrite app_nil_r in ND.
        apply IH in ND. lia.
Qed.

End JSZipFacts.

(** The names [zip.file] is called with are the entry names of the
    images that succeeded, in order. *)
Lemma entry_names decode detector modelStatus media quality (images : list ImageItem) :
  let out := outcomeOf decode detector modelStatus media quality in
  map fst (flat_map (fun image => entriesOf (out image)) images)
  = map (fun image => zipEntryName (fileName image))
        (filter (fun image => isSuccess (out image)) images).
Proof.
  intros out. induction images as [|image rest IH]; [reflexivity |].
  simpl. rewrite map_app, IH.
  pose proof (entriesOf_quality decode detector modelStatus media quality image) as Q.
  fold out in Q.
  destruct (out image) as [entry | | e]; simpl; try reflexivity.
  f_equal. apply (Q entry). left. reflexivity.
Qed.

(** Claim C9, as the code has it.  With the archive library loaded,
    [handleProcess] ends normally on every batch: each image is counted
    as processed, [zip.file] is called exactly for the images that
    succeeded, in input order, once each, and an image whose cropping
    throws is reported on the console and changes nothing else: the
    calls, and so the archive, are those of the batch without that
    image.  The archive holds one entry for each entry name of a
    successful image, the one of the last image with that name; it has
    one entry for each successful image exactly when their entry names
    are all different. *)
Theorem handleProcess_isolates_failures
    decode detector modelStatus media quality (images : list ImageItem) s :
  let run := handleProcess decode true detector modelStatus in
  let out := outcomeOf decode detector modelStatus media quality in
  let s' := snd (run images media quality s) in
  let successes := filter (fun image => isSuccess (out image)) images in
  let archive := JSZip.files (zip s') in
  fst (run images media quality s) = Ok tt
  /\ zip s' = flat_map (fun image => entriesOf (out image)) images
  /\ List.length (zip s') = List.length successes
  /\ zipBlob s' = Some (zip s')
  /\ processingProgress s' = (List.length images, List.length images)
  /\ screen s' = Download
  /\ (forall before bad after e,
        images = (before ++ bad :: after)%list -> out bad = Failed e ->
        zip s' = zip (snd (run (before ++ after)%list media quality s))
        /\ archive = JSZip.files (zip (snd (run (before ++ after)%list media quality s)))
        /\ In (ProcessingFailed (fileName bad)) (console s'))
  /\ NoDup (map fst archive)
  /\ (forall name,
        In name (map fst archive) <->
        exists image, In image successes /\ zipEntryName (fileName image) = name)
  /\ (forall name blob,
        In (name, blob) archive <->
        exists before after,
          zip s' = (before ++ (name, blob) :: after)%list
          /\ ~ In name (map fst after))
  /\ (List.length archive <= List.length successes)%nat
  /\ (List.length archive = List.length successes <->
      NoDup (map (fun image => zipEntryName (fileName image)) successes)).
Proof.
  intros run out s' successes archive.
  pose proof (handleProcess_calls decode detector modelStatus media quality images s)
    as C. cbv zeta in C. fold run out s' in C.
  destruct C as (C1 & C2 & C3 & C4 & C5 & C6 & C7).
  fold successes in C3.
  assert (Names : map fst (zip s')
                  = map (fun image => zipEntryName (fileName image)) successes).
  { rewrite C2. apply entry_names. }
  split; [exact C1 | split; [exact C2 | split; [exact C3 | split; [exact C4 |]]]].
  split; [exact C5 | split; [exact C6 |]].
  split.
  { intros before bad after e E F. destruct (C7 before bad after e E F) as [Z L].
    split; [exact Z | split; [| exact L]]. unfold archive. rewrite Z. reflexivity. }
  split; [apply JSZipFacts.files_NoDup |].
  split.
  { intros name. unfold archive. rewrite JSZipFacts.files_names, Names, in_map_iff.
    split; intros (image & A & B); exists image; split; assumption. }
  split; [intros name blob; apply JSZipFacts.files_In |].
  split.
  { rewrite <- C3. apply JSZipFacts.files_length_le. }
  rewrite <- C3, <- Names. apply JSZipFacts.files_length_eq.
Qed.

Lemma handleProcess_isolates_failures_witness :
  outcomeOf Sample.decode None ModelLoading EPARK Sample.quality Sample.broken
  = Failed (LoadError "blob:broken")
  /\ JSZip.files
       (zip (snd (handleProcess Sample.decode true None ModelLoading
                    [Sample.shop; Sample.broken; Sample.logo] EPARK Sample.quality
                    freshWorld)))
     = JSZip.files
         (zip (snd (handleProcess Sample.decode true None ModelLoading
                      [Sample.shop; Sample.logo] EPARK Sample.quality freshWorld))).
Proof.
  split; [reflexivity |].
  pose proof (handleProcess_isolates_failures Sample.decode None ModelLoading EPARK
                Sample.quality [Sample.shop; Sample.broken; Sample.logo] freshWorld) as T.
  cbv zeta in T. destruct T as (_ & _ & _ & _ & _ & _ & T & _).
  exact (proj1 (proj2 (T [Sample.shop] Sample.broken [Sample.logo]
                         (LoadError "blob:broken") eq_refl eq_refl))).
Defined.

(** Two files that differ in their extension only are both processed,
    and the archive holds one entry: the second took the place of the
    first. *)
Lemma same_stem_one_entry :
  let out := outcomeOf Sample.decode None ModelLoading EPARK Sample.quality in
  let s' := snd (handleProcess Sample.decode true None ModelLoading
                   [SamplePictures.scan; SamplePictures.shot] EPARK Sample.quality
                   freshWorld) in
  isSuccess (out SamplePictures.scan) = true
  /\ isSuccess (out SamplePictures.shot) = true
  /\ map fst (zip s') = ["photo.jpg"; "photo.jpg"]%string
  /\ JSZip.files (zip s') = entriesOf (out SamplePictures.shot)
  /\ List.length (JSZip.files (zip s')) = 1%nat.
Proof. vm_compute. repeat split. Qed.
